(** * Log-to-row extraction pipeline of [analysis.py]

    A shallow embedding of the functions of [src/analysis.py]
    ([format_duration_ms], [LINE_RE], [CONF_RE], [parse_log_lines],
    [find_ground_truth], [compute_inference_duration], [process_file],
    [main]) together with the parts of the Python runtime they rely on
    (string methods, the backtracking regular-expression matcher,
    binary64 arithmetic, [datetime]), followed by the properties that
    the specification states about them.

    Conventions.
    - A Python [str] is a list of characters; a character is a code
      point in 0..255 (the Latin-1 range), on which [str.isspace],
      [str.lower] and the regular-expression classes are modelled.
    - Python [int]s are [Z]; [divmod] with a positive divisor is
      [Z.div]/[Z.modulo] (both floor).
    - A raised exception is a value [Raise msg]; [try/except Exception]
      is a [match] on it. *)

From Stdlib Require Import ZArith List Ascii String Bool Lia Permutation Sorted.
Import ListNotations.
Local Open Scope Z_scope.

(** ** Python strings *)

Abbreviation str := (list ascii).

Definition lit (s : string) : str := list_ascii_of_string s.

Module Py.

Definition code (c : ascii) : Z := Z.of_N (N_of_ascii c).

Definition chr (n : Z) : ascii := ascii_of_N (Z.to_N n).

Definition char_eqb (a b : ascii) : bool := Ascii.eqb a b.

Fixpoint str_eqb (a b : str) : bool :=
  match a, b with
  | [], [] => true
  | x :: a', y :: b' => char_eqb x y && str_eqb a' b'
  | _, _ => false
  end.

(** [str.isspace] on one character (code points 0..255). *)
Definition isspace (c : ascii) : bool :=
  let n := code c in
  ((9 <=? n) && (n <=? 13)) || ((28 <=? n) && (n <=? 32))
  || (n =? 133) || (n =? 160).

Definition isdigit (c : ascii) : bool :=
  let n := code c in (48 <=? n) && (n <=? 57).

(** [str.lower] on one character: A-Z and the Latin-1 capitals. *)
Definition lower_char (c : ascii) : ascii :=
  let n := code c in
  if ((65 <=? n) && (n <=? 90))
     || ((192 <=? n) && (n <=? 222) && negb (n =? 215))
  then chr (n + 32) else c.

Definition lower (s : str) : str := map lower_char s.

Fixpoint dropwhile (p : ascii -> bool) (s : str) : str :=
  match s with
  | [] => []
  | c :: s' => if p c then dropwhile p s' else s
  end.

Definition lstrip_by (p : ascii -> bool) (s : str) : str := dropwhile p s.
Definition rstrip_by (p : ascii -> bool) (s : str) : str :=
  rev (dropwhile p (rev s)).

(** [s.strip()] *)
Definition strip (s : str) : str := rstrip_by isspace (lstrip_by isspace s).

(** [s.strip(chars)] *)
Definition strip_chars (chars s : str) : str :=
  let p c := existsb (char_eqb c) chars in
  rstrip_by p (lstrip_by p s).

(** [s.startswith(prefix)] *)
Fixpoint startswith (prefix s : str) : bool :=
  match prefix, s with
  | [], _ => true
  | p :: prefix', c :: s' => char_eqb p c && startswith prefix' s'
  | _ :: _, [] => false
  end.

(** [sub in s] *)
Fixpoint contains (sub s : str) : bool :=
  startswith sub s ||
  match s with
  | [] => false
  | _ :: s' => contains sub s'
  end.

(** [s.split()]: the maximal runs of non-whitespace characters.
    [cur] is the current token, reversed. *)
Fixpoint split_ws_aux (cur s : str) : list str :=
  match s with
  | [] => match cur with [] => [] | _ => [rev cur] end
  | c :: s' =>
      if isspace c
      then match cur with
           | [] => split_ws_aux [] s'
           | _ => rev cur :: split_ws_aux [] s'
           end
      else split_ws_aux (c :: cur) s'
  end.

Definition split_ws (s : str) : list str := split_ws_aux [] s.

(** Line boundaries of [str.splitlines] in 0..255:
    LF, VT, FF, CR, FS, GS, RS, NEL; CR LF is one boundary. *)
Definition is_linebreak (c : ascii) : bool :=
  let n := code c in
  ((10 <=? n) && (n <=? 13)) || ((28 <=? n) && (n <=? 30)) || (n =? 133).

Fixpoint splitlines_aux (cur s : str) : list str :=
  match s with
  | [] => match cur with [] => [] | _ => [rev cur] end
  | c :: s' =>
      if is_linebreak c
      then rev cur ::
           match s' with
           | d :: s'' =>
               if (code c =? 13) && (code d =? 10)
               then splitlines_aux [] s''
               else splitlines_aux [] s'
           | [] => splitlines_aux [] s'
           end
      else splitlines_aux (c :: cur) s'
  end.

(** [text.splitlines()] *)
Definition splitlines (text : str) : list str := splitlines_aux [] text.

(** Truthiness of a [str] and of [Optional[str]]. *)
Definition truthy (s : str) : bool :=
  match s with [] => false | _ => true end.

Definition truthy_opt (o : option str) : bool :=
  match o with Some s => truthy s | None => false end.

(** [o or ""] *)
Definition or_empty (o : option str) : str :=
  match o with Some s => s | None => [] end.

(** *** Decimal rendering of integers *)

Definition digit_char (d : Z) : ascii := chr (48 + d).

Fixpoint digits_fuel (fuel : nat) (n : Z) : str :=
  match fuel with
  | O => []
  | S f =>
      if n <? 10 then [digit_char n]
      else digits_fuel f (n / 10) ++ [digit_char (n mod 10)]
  end.

(** Decimal digits of [n >= 0]; the binary length bounds the decimal one. *)
Definition digits (n : Z) : str :=
  digits_fuel (S (Z.to_nat (Z.log2 n))) n.

(** [str(n)] *)
Definition str_of_int (n : Z) : str :=
  if n <? 0 then "-"%char :: digits (- n) else digits n.

Definition zfill (w : nat) (s : str) : str :=
  repeat "0"%char (w - List.length s) ++ s.

(** [format(n, "0<w>d")]: zero padding after the sign, the sign counted
    in the width. *)
Definition format_0d (w : nat) (n : Z) : str :=
  if n <? 0 then "-"%char :: zfill (w - 1) (digits (- n))
  else zfill w (digits n).

End Py.

(** ** [format_duration_ms] *)

(** [ms is None] is the only case the guard catches; [int(ms)] is the
    identity on an [int]. *)
Definition format_duration_ms (ms : option Z) : str :=
  match ms with
  | None => []
  | Some ms =>
      let seconds := ms / 1000 in
      let milli := ms mod 1000 in
      let mins := seconds / 60 in
      let sec := seconds mod 60 in
      let hours := mins / 60 in
      let mins := mins mod 60 in
      Py.format_0d 2 hours ++ lit ":" ++ Py.format_0d 2 mins ++ lit ":"
        ++ Py.format_0d 2 sec ++ lit "." ++ Py.format_0d 3 milli
  end.

(** ** Regular expressions ([re])

    The fragment of Python's [re] that [LINE_RE], [CONF_RE] and the
    [re.split] call use, with the matcher's backtracking order: a greedy
    repetition tries the longest run first, a lazy one the shortest, an
    optional group is tried before it is skipped, and the first
    alternative that lets the rest of the pattern succeed wins. *)

Module Re.

Inductive regex : Type :=
| Eps
| Bol                                         (* ^ *)
| Eol                                         (* $ *)
| Chr (p : ascii -> bool)                     (* one character of a class *)
| Seq (r1 r2 : regex)
| Rep (greedy : bool) (min : nat) (p : ascii -> bool)
                                              (* p*, p+, p+?, ... *)
| Opt (r : regex)                             (* (?:r)?, greedy *)
| Grp (name : string) (r : regex).            (* (?P<name>r) *)

(** Named groups that took part in the match, latest binding first. *)
Definition captures : Type := list (string * str).

Record matched : Type := mkMatched
  { m_rest : str;             (* the subject after the match *)
    m_groups : captures }.

(** Character classes. *)
Definition is_char (a : ascii) : ascii -> bool := fun c => Py.char_eqb c a.
Definition not_char (a : ascii) : ascii -> bool :=
  fun c => negb (Py.char_eqb c a).
(** A literal letter under [re.IGNORECASE]. *)
Definition is_char_ci (a : ascii) : ascii -> bool :=
  fun c => Py.char_eqb (Py.lower_char c) (Py.lower_char a).
(** [.] without [re.DOTALL] *)
Definition dot : ascii -> bool := not_char "010"%char.
Definition space : ascii -> bool := Py.isspace.   (* \s *)
Definition digit : ascii -> bool := Py.isdigit.   (* [0-9] *)

Fixpoint literal_ci (s : str) : regex :=
  match s with
  | [] => Eps
  | c :: s' => Seq (Chr (is_char_ci c)) (literal_ci s')
  end.

Section Matcher.
Context {R : Type}.

(** Greedy repetition of a class: consume while the class matches,
    then give characters back one at a time; [min] counts the
    characters still owed. *)
Fixpoint rep_greedy (p : ascii -> bool) (min : nat) (s : str)
         (k : str -> option R) : option R :=
  let stop := match min with O => k s | S _ => None end in
  match s with
  | c :: s' =>
      if p c
      then match rep_greedy p (Nat.pred min) s' k with
           | Some r => Some r
           | None => stop
           end
      else stop
  | [] => stop
  end.

(** Lazy repetition: try to stop first, consume one more on failure. *)
Fixpoint rep_lazy (p : ascii -> bool) (min : nat) (s : str)
         (k : str -> option R) : option R :=
  let stop := match min with O => k s | S _ => None end in
  match stop with
  | Some r => Some r
  | None =>
      match s with
      | c :: s' => if p c then rep_lazy p (Nat.pred min) s' k else None
      | [] => None
      end
  end.

End Matcher.

(** [run subject r s caps k]: match [r] at the suffix [s] of [subject],
    then continue with [k]. *)
Fixpoint run (subject : str) (r : regex) (s : str) (caps : captures)
         (k : str -> captures -> option matched) : option matched :=
  match r with
  | Eps => k s caps
  | Bol =>
      if Nat.eqb (List.length s) (List.length subject) then k s caps
      else None
  | Eol =>
      match s with
      | [] => k s caps
      | [c] => if Py.char_eqb c "010"%char then k s caps else None
      | _ => None
      end
  | Chr p =>
      match s with
      | c :: s' => if p c then k s' caps else None
      | [] => None
      end
  | Seq r1 r2 =>
      run subject r1 s caps (fun s' caps' => run subject r2 s' caps' k)
  | Rep greedy min p =>
      (if greedy then rep_greedy else rep_lazy) p min s
        (fun s' => k s' caps)
  | Opt r1 =>
      match run subject r1 s caps k with
      | Some m => Some m
      | None => k s caps
      end
  | Grp name r1 =>
      run subject r1 s caps
        (fun s' caps' =>
           k s' ((name, firstn (List.length s - List.length s') s)
                   :: caps'))
  end.

Definition accept (s : str) (caps : captures) : option matched :=
  Some (mkMatched s caps).

(** [r.match(s)]: only at position 0. *)
Definition re_match (r : regex) (s : str) : option matched :=
  run s r s [] accept.

(** [r.search(s)]: the leftmost position where [r] matches; the
    result carries the number of characters before the match. *)
Fixpoint search_from (subject : str) (r : regex) (start : nat) (s : str)
  : option (nat * matched) :=
  match run subject r s [] accept with
  | Some m => Some (start, m)
  | None =>
      match s with
      | [] => None
      | _ :: s' => search_from subject r (S start) s'
      end
  end.

Definition re_search (r : regex) (s : str) : option (nat * matched) :=
  search_from s r O s.

(** [m.group(name)]; [None] when the group took no part. *)
Fixpoint group (name : string) (caps : captures) : option str :=
  match caps with
  | [] => None
  | (n, v) :: caps' => if String.eqb n name then Some v else group name caps'
  end.

(** [re.split(r, s)[0]] for a pattern that matches no empty string:
    the text before the leftmost match, the whole of [s] without one. *)
Definition split_head (r : regex) (s : str) : str :=
  match re_search r s with
  | Some (start, _) => firstn start s
  | None => s
  end.

End Re.

Declare Scope regex_scope.
Delimit Scope regex_scope with regex.
Notation "r1 +++ r2" := (Re.Seq r1 r2)
  (at level 60, right associativity) : regex_scope.

(** [LINE_RE], piece by piece as in the source pattern. *)
Definition LINE_RE : Re.regex :=
  (Re.Bol +++                                              (* ^ *)
   Re.Chr (Re.is_char "[") +++                             (* \[ *)
   Re.Grp "ts" (Re.Rep true 1 (Re.not_char "]")) +++       (* (?P<ts>[^\]]+) *)
   Re.Chr (Re.is_char "]") +++                             (* \] *)
   Re.Rep true 0 Re.space +++                              (* \s* *)
   Re.Grp "component" (Re.Rep true 1 (Re.not_char ":")) +++
                                                  (* (?P<component>[^:]+) *)
   Re.Chr (Re.is_char ":") +++                             (* : *)
   Re.Rep true 0 Re.space +++                              (* \s* *)
   Re.Grp "event" (Re.Rep false 1 (Re.not_char "-")) +++   (* (?P<event>[^-]+?) *)
   Re.Opt (Re.Chr (Re.is_char "-") +++                     (* (?:- *)
           Re.Rep true 0 Re.space +++                      (* \s* *)
           Re.Grp "details" (Re.Rep true 0 Re.dot)) +++    (* (?P<details>. * ))? *)
   Re.Eol)%regex.                                         (* $ *)

(** [CONF_RE], compiled with [re.IGNORECASE]: the words
    [with confidence], then [\s+], then the group [conf] made of
    [[0-9]] starred, an optional [\.] and [[0-9]+]. *)
Definition CONF_RE : Re.regex :=
  (Re.literal_ci (lit "with confidence") +++
   Re.Rep true 1 Re.space +++
   Re.Grp "conf" (Re.Rep true 0 Re.digit +++
                  Re.Opt (Re.Chr (Re.is_char ".")) +++
                  Re.Rep true 1 Re.digit))%regex.

(** The pattern of [re.split(r"with confidence", details, flags=re.IGNORECASE)]. *)
Definition WITH_CONFIDENCE_RE : Re.regex :=
  Re.literal_ci (lit "with confidence").

(** ** Python [float] (IEEE 754 binary64)

    A finite float is [mant * 2^expo]; every operation computes the
    exact rational result and rounds it to the nearest representable
    value, ties to even, as the hardware and CPython's correctly
    rounded conversions do. No operation used here produces a NaN. *)

Module B64.

Inductive float : Type :=
| Fin (mant expo : Z)
| PInf
| NInf.

Definition neg (x : float) : float :=
  match x with
  | Fin m e => Fin (- m) e
  | PInf => NInf
  | NInf => PInf
  end.

(** [n / d] rounded to the nearest integer, ties to even ([0 <= n], [0 < d]). *)
Definition rne (n d : Z) : Z :=
  let q := n / d in
  let r := n mod d in
  if 2 * r <? d then q
  else if d <? 2 * r then q + 1
  else if Z.even q then q else q + 1.

(** [n / (d * 2^e)] as a fraction of integers. *)
Definition scaled_num (n e : Z) : Z := n * 2 ^ Z.max (- e) 0.
Definition scaled_den (d e : Z) : Z := d * 2 ^ Z.max e 0.

(** The integer part of the binary logarithm of [n / d], [0 < n], [0 < d]:
    the difference of the two bit lengths or one less. *)
Definition ilog2_ratio (n d : Z) : Z :=
  let l := Z.log2 n - Z.log2 d in
  if scaled_num n l <? scaled_den d l then l - 1 else l.

(** Rounding of the positive rational [n / d] to 53 significant bits,
    with gradual underflow below [2^-1022] and overflow to infinity. *)
Definition round_pos (n d : Z) : float :=
  let E := ilog2_ratio n d in
  let e := Z.max (E - 52) (-1074) in
  let m := rne (scaled_num n e) (scaled_den d e) in
  if 1024 <=? Z.log2 m + e then PInf else Fin m e.

(** The float nearest to [n / d], [0 < d]. *)
Definition of_ratio (n d : Z) : float :=
  if n =? 0 then Fin 0 0
  else if n <? 0 then neg (round_pos (- n) d)
  else round_pos n d.

(** [float(n)] *)
Definition of_int (n : Z) : float := of_ratio n 1.

(** [x * y] *)
Definition mul (x y : float) : float :=
  match x, y with
  | Fin m1 e1, Fin m2 e2 =>
      let e := e1 + e2 in
      of_ratio (scaled_num (m1 * m2) (- e)) (scaled_den 1 (- e))
  | Fin m _, PInf | PInf, Fin m _ => if m <? 0 then NInf else PInf
  | Fin m _, NInf | NInf, Fin m _ => if m <? 0 then PInf else NInf
  | PInf, PInf | NInf, NInf => PInf
  | PInf, NInf | NInf, PInf => NInf
  end.

(** [int(x)]: truncation toward zero; [OverflowError] on an infinity. *)
Definition to_int (x : float) : option Z :=
  match x with
  | Fin m e => Some (Z.quot (scaled_num m (- e)) (scaled_den 1 (- e)))
  | PInf | NInf => None
  end.

(** Value of a decimal literal [digits[.digits]] as a fraction. *)
Fixpoint decimal_int (acc : Z) (s : str) : Z :=
  match s with
  | [] => acc
  | c :: s' => decimal_int (10 * acc + (Py.code c - 48)) s'
  end.

Fixpoint split_at_dot (s : str) : str * option str :=
  match s with
  | [] => ([], None)
  | c :: s' =>
      if Py.char_eqb c "."%char then ([], Some s')
      else let '(a, b) := split_at_dot s' in (c :: a, b)
  end.

(** [float(s)] for [s] made of digits with at most one dot and at
    least one digit; [None] stands for [ValueError]. *)
Definition of_decimal (s : str) : option float :=
  let '(ip, fp) := split_at_dot s in
  let fp := match fp with Some f => f | None => [] end in
  if forallb Py.isdigit ip && forallb Py.isdigit fp
     && negb (Nat.eqb (List.length ip + List.length fp) 0)
  then Some (of_ratio (decimal_int 0 (ip ++ fp))
                      (10 ^ Z.of_nat (List.length fp)))
  else None.

(** [format(x, ".3f")]: the exact value rounded to three decimals,
    ties to even. *)
Definition format_3f (x : float) : str :=
  match x with
  | Fin m e =>
      let k := rne (scaled_num (Z.abs m * 1000) (- e)) (scaled_den 1 (- e)) in
      (if m <? 0 then lit "-" else [])
        ++ Py.digits (k / 1000) ++ lit "." ++ Py.format_0d 3 (k mod 1000)
  | PInf => lit "inf"
  | NInf => lit "-inf"
  end.

End B64.

(** ** Exceptions *)

Inductive exc (A : Type) : Type :=
| Ok (a : A)
| Raise (msg : str).
Arguments Ok {A} a.
Arguments Raise {A} msg.

(** ** [datetime]

    A [datetime] object by its fields; [tzoffset] is the UTC offset in
    microseconds of an aware object, [None] for a naive one. A
    [timedelta] is its total number of microseconds. *)

Module Datetime.

Record datetime : Type := mkDatetime
  { year : Z; month : Z; day : Z;
    hour : Z; minute : Z; second : Z; microsecond : Z;
    tzoffset : option Z }.

Definition is_leap (y : Z) : bool :=
  ((y mod 4 =? 0) && negb (y mod 100 =? 0)) || (y mod 400 =? 0).

Definition days_in_month (y m : Z) : Z :=
  if m =? 2 then (if is_leap y then 29 else 28)
  else if (m =? 4) || (m =? 6) || (m =? 9) || (m =? 11) then 30
  else 31.

Definition days_before_year (y : Z) : Z :=
  let y1 := y - 1 in y1 * 365 + y1 / 4 - y1 / 100 + y1 / 400.

Fixpoint days_before_month_aux (y : Z) (n : nat) : Z :=
  match n with
  | O => 0
  | S n' => days_before_month_aux y n' + days_in_month y (Z.of_nat n)
  end.

Definition days_before_month (y m : Z) : Z :=
  days_before_month_aux y (Z.to_nat (m - 1)).

(** [toordinal()]: 1 for 0001-01-01. *)
Definition ymd2ord (y m d : Z) : Z :=
  days_before_year y + days_before_month y m + d.

(** The fields that the constructor accepts. *)
Definition valid (t : datetime) : bool :=
  (1 <=? year t) && (year t <=? 9999)
  && (1 <=? month t) && (month t <=? 12)
  && (1 <=? day t) && (day t <=? days_in_month (year t) (month t))
  && (0 <=? hour t) && (hour t <? 24)
  && (0 <=? minute t) && (minute t <? 60)
  && (0 <=? second t) && (second t <? 60)
  && (0 <=? microsecond t) && (microsecond t <? 1000000)
  && match tzoffset t with
     | None => true
     | Some off => (-86400000000 <? off) && (off <? 86400000000)
     end.

(** Microseconds of the wall-clock fields since 0001-01-01T00:00. *)
Definition wall_us (t : datetime) : Z :=
  (((ymd2ord (year t) (month t) (day t) - 1) * 24 + hour t) * 60
     + minute t) * 60 * 1000000
  + second t * 1000000 + microsecond t.

(** [a - b] as a [timedelta]: two naive objects compare wall clocks,
    two aware ones compare instants, a mix raises [TypeError]. *)
Definition sub (a b : datetime) : exc Z :=
  match tzoffset a, tzoffset b with
  | None, None => Ok (wall_us a - wall_us b)
  | Some oa, Some ob => Ok ((wall_us a - oa) - (wall_us b - ob))
  | _, _ =>
      Raise (lit "can't subtract offset-naive and offset-aware datetimes")
  end.

(** [td.total_seconds()]: the correctly rounded quotient by [10**6]. *)
Definition total_seconds (td_us : Z) : B64.float :=
  B64.of_ratio td_us 1000000.

(** [isoformat()] *)
Definition isoformat_offset (off : Z) : str :=
  let a := Z.abs off in
  let us := a mod 1000000 in
  let s := a / 1000000 in
  (if off <? 0 then lit "-" else lit "+")
    ++ Py.format_0d 2 (s / 3600) ++ lit ":"
    ++ Py.format_0d 2 (s / 60 mod 60)
    ++ (if (s mod 60 =? 0) && (us =? 0) then []
        else lit ":" ++ Py.format_0d 2 (s mod 60)
             ++ (if us =? 0 then [] else lit "." ++ Py.format_0d 6 us)).

Definition isoformat (t : datetime) : str :=
  Py.format_0d 4 (year t) ++ lit "-" ++ Py.format_0d 2 (month t)
    ++ lit "-" ++ Py.format_0d 2 (day t) ++ lit "T"
    ++ Py.format_0d 2 (hour t) ++ lit ":" ++ Py.format_0d 2 (minute t)
    ++ lit ":" ++ Py.format_0d 2 (second t)
    ++ (if microsecond t =? 0 then []
        else lit "." ++ Py.format_0d 6 (microsecond t))
    ++ match tzoffset t with
       | None => []
       | Some off => isoformat_offset off
       end.

(** *** A reference [fromisoformat]

    The grammar that every CPython from 3.7 on accepts:
    [YYYY-MM-DD[*HH[:MM[:SS[.fff[fff]]]][+HH:MM[:SS[.ffffff]]]]]
    with any single character for [*]. The pipeline below takes the
    parser as a parameter; this one serves the worked examples. *)

Fixpoint take_digits (n : nat) (s : str) (acc : Z) : option (Z * str) :=
  match n with
  | O => Some (acc, s)
  | S n' =>
      match s with
      | c :: s' =>
          if Py.isdigit c
          then take_digits n' s' (10 * acc + (Py.code c - 48))
          else None
      | [] => None
      end
  end.

Definition expect (a : ascii) (s : str) : option str :=
  match s with
  | c :: s' => if Py.char_eqb c a then Some s' else None
  | [] => None
  end.

(** [[:NN]] : an optional colon-led two-digit field. *)
Definition opt_field (s : str) : option (Z * str) :=
  match s with
  | c :: s' =>
      if Py.char_eqb c ":"%char then take_digits 2 s' 0 else Some (0, s)
  | [] => Some (0, s)
  end.

(** [[.fff[fff]]] in microseconds. *)
Definition opt_fraction (s : str) : option (Z * str) :=
  match s with
  | c :: s' =>
      if Py.char_eqb c "."%char
      then match take_digits 3 s' 0 with
           | Some (ms, s3) =>
               match take_digits 3 s3 0 with
               | Some (us, s6) => Some (ms * 1000 + us, s6)
               | None => Some (ms * 1000, s3)
               end
           | None => None
           end
      else Some (0, s)
  | [] => Some (0, s)
  end.

(** [HH[:MM[:SS[.fff[fff]]]]] *)
Definition parse_hms (s : str) : option (Z * Z * Z * Z * str) :=
  match take_digits 2 s 0 with
  | Some (h, s1) =>
      match s1 with
      | c :: _ =>
          if Py.char_eqb c ":"%char
          then match opt_field s1 with
               | Some (mi, s2) =>
                   match s2 with
                   | c2 :: _ =>
                       if Py.char_eqb c2 ":"%char
                       then match opt_field s2 with
                            | Some (sec, s3) =>
                                match opt_fraction s3 with
                                | Some (us, s4) => Some (h, mi, sec, us, s4)
                                | None => None
                                end
                            | None => None
                            end
                       else Some (h, mi, 0, 0, s2)
                   | [] => Some (h, mi, 0, 0, s2)
                   end
               | None => None
               end
          else Some (h, 0, 0, 0, s1)
      | [] => Some (h, 0, 0, 0, s1)
      end
  | None => None
  end.

Definition parse_offset (s : str) : option (option Z) :=
  match s with
  | [] => Some None
  | c :: s' =>
      let sign :=
        if Py.char_eqb c "+"%char then Some 1
        else if Py.char_eqb c "-"%char then Some (-1) else None in
      match sign with
      | Some sg =>
          match take_digits 2 s' 0 with
          | Some (h, s1) =>
              match expect ":"%char s1 with
              | Some s2 =>
                  match take_digits 2 s2 0 with
                  | Some (mi, s3) =>
                      match parse_hms (lit "00:00" ++ s3) with
                      | Some (_, _, sec, us, []) =>
                          if (mi <? 60) && (sec <? 60)
                          then Some (Some
                                 (sg * (((h * 60 + mi) * 60 + sec) * 1000000
                                        + us)))
                          else None
                      | _ => None
                      end
                  | None => None
                  end
              | None => None
              end
          | None => None
          end
      | None => None
      end
  end.

Definition parse_time (s : str) : option (Z * Z * Z * Z * option Z) :=
  match parse_hms s with
  | Some (h, mi, sec, us, rest) =>
      match parse_offset rest with
      | Some off => Some (h, mi, sec, us, off)
      | None => None
      end
  | None => None
  end.

Definition value_error : str := lit "Invalid isoformat string".

Definition checked (t : datetime) : exc datetime :=
  if valid t then Ok t else Raise value_error.

Definition fromisoformat (s : str) : exc datetime :=
  match take_digits 4 s 0 with
  | Some (y, s1) =>
      match expect "-"%char s1 with
      | Some s2 =>
          match take_digits 2 s2 0 with
          | Some (m, s3) =>
              match expect "-"%char s3 with
              | Some s4 =>
                  match take_digits 2 s4 0 with
                  | Some (d, []) => checked (mkDatetime y m d 0 0 0 0 None)
                  | Some (d, _ :: s5) =>
                      match parse_time s5 with
                      | Some (h, mi, sec, us, off) =>
                          checked (mkDatetime y m d h mi sec us off)
                      | None => Raise value_error
                      end
                  | None => Raise value_error
                  end
              | None => Raise value_error
              end
          | None => Raise value_error
          end
      | None => Raise value_error
      end
  | None => Raise value_error
  end.

End Datetime.

Definition bind {A B : Type} (x : exc A) (k : A -> exc B) : exc B :=
  match x with
  | Ok a => k a
  | Raise msg => Raise msg
  end.

Notation "x <- c1 ;; c2" := (bind c1 (fun x => c2))
  (at level 100, c1 at next level, right associativity).

(** [try: x except Exception: None] *)
Definition or_none {A : Type} (x : exc A) : option A :=
  match x with
  | Ok a => Some a
  | Raise _ => None
  end.

(** ** Parsed events

    The dict that [parse_log_lines] builds for a line. The two duration
    keys are absent ([None]) until [compute_inference_duration] sets
    them, to a value or to Python's [None] ([Some None]). *)

Record Event : Type := mkEvent
  { ts : option Datetime.datetime;
    component : option str;
    event : option str;
    details : str;
    raw : str;
    duration_ms : option (option Z);
    duration_hms : option (option str) }.

(** [ev.get(key)] for the two optional keys. *)
Definition get_duration_ms (ev : Event) : option Z :=
  match duration_ms ev with Some v => v | None => None end.
Definition get_duration_hms (ev : Event) : option str :=
  match duration_hms ev with Some v => v | None => None end.

(** The record kept for a line that [LINE_RE] does not match. *)
Definition degraded (ln : str) : Event :=
  mkEvent None None None ln ln None None.

(** [m.group(name).strip()]: [AttributeError] on a group that is [None]. *)
Definition group_strip (name : string) (m : Re.matched) : exc str :=
  match Re.group name (Re.m_groups m) with
  | Some s => Ok (Py.strip s)
  | None => Raise (lit "'NoneType' object has no attribute 'strip'")
  end.

Section ParseLogLines.

(** [datetime.fromisoformat], raising [ValueError] on a bad string. *)
Variable fromisoformat : str -> exc Datetime.datetime.

(** [datetime.fromisoformat(m.group("ts"))] inside [try/except]:
    a [None] argument raises [TypeError], caught like [ValueError]. *)
Definition parse_ts (m : Re.matched) : option Datetime.datetime :=
  match Re.group "ts" (Re.m_groups m) with
  | Some ts_s => or_none (fromisoformat ts_s)
  | None => None
  end.

(** The body of the loop for one line: the events to append. *)
Definition parse_log_line (ln : str) : exc (list Event) :=
  let ln := Py.strip ln in
  if negb (Py.truthy ln) then Ok []
  else
    match Re.re_match LINE_RE ln with
    | None => Ok [degraded ln]
    | Some m =>
        let ts := parse_ts m in
        let details_group := Py.or_empty (Re.group "details" (Re.m_groups m)) in
        comp <- group_strip "component" m ;;
        evt <- group_strip "event" m ;;
        Ok [mkEvent ts (Some comp) (Some evt) (Py.strip details_group) ln
                    None None]
    end.

Fixpoint parse_log_lines_from (events : list Event) (lines : list str)
  : exc (list Event) :=
  match lines with
  | [] => Ok events
  | ln :: rest =>
      new <- parse_log_line ln ;;
      parse_log_lines_from (events ++ new) rest
  end.

Definition parse_log_lines (lines : list str) : exc (list Event) :=
  parse_log_lines_from [] lines.

End ParseLogLines.

(** ** [find_ground_truth]

    The last token is stripped of double quotes (character 34). *)

Definition mentions_ground_truth (ln : str) : bool :=
  Py.contains (lit "ground truth") (Py.lower ln)
  || Py.contains (lit "objeto verdad") (Py.lower ln)
  || Py.contains (lit "objeto_verdad") (Py.lower ln).

Fixpoint find_ground_truth (lines : list str) : option str :=
  match lines with
  | [] => None
  | ln :: rest =>
      if mentions_ground_truth ln
      then match Py.split_ws ln with
           | [] => find_ground_truth rest
           | parts => Some (Py.strip_chars ["034"%char] (last parts []))
           end
      else find_ground_truth rest
  end.

(** ** [compute_inference_duration] *)

Definition pop_durations (ev : Event) : Event :=
  mkEvent (ts ev) (component ev) (event ev) (details ev) (raw ev) None None.

Definition set_durations (ms : option Z) (hms : option str) (ev : Event)
  : Event :=
  mkEvent (ts ev) (component ev) (event ev) (details ev) (raw ev)
          (Some ms) (Some hms).

(** [int(td.total_seconds() * 1000)] *)
Definition ms_of_timedelta (td : Z) : exc Z :=
  match B64.to_int (B64.mul (Datetime.total_seconds td) (B64.of_int 1000)) with
  | Some ms => Ok ms
  | None => Raise (lit "cannot convert float infinity to integer")
  end.

(** [int((ts_cur - ts_prev).total_seconds() * 1000)] *)
Definition elapsed_ms (ts_cur ts_prev : Datetime.datetime) : exc Z :=
  td <- Datetime.sub ts_cur ts_prev ;;
  ms_of_timedelta td.

(** The assignment to [cur] in the loop body. *)
Definition assign_duration (ts_prev : option Datetime.datetime) (cur : Event)
  : Event :=
  match ts_prev, ts cur with
  | Some p, Some c =>
      match elapsed_ms c p with
      | Ok ms => set_durations (Some ms) (Some (format_duration_ms (Some ms))) cur
      | Raise _ => set_durations None None cur
      end
  | _, _ => set_durations None None cur
  end.

Definition assign_first (first : Event) : Event :=
  match ts first with
  | Some _ => set_durations (Some 0) (Some (format_duration_ms (Some 0))) first
  | None => set_durations None None first
  end.

(** [events[i] = f(events[i])], the in-place update of one record. *)
Fixpoint update_at {A : Type} (i : nat) (f : A -> A) (l : list A) : list A :=
  match l, i with
  | [], _ => []
  | x :: l', O => f x :: l'
  | x :: l', S i' => x :: update_at i' f l'
  end.

(** [for i in range(i, i + n)]: read [events[i - 1]], update [events[i]]. *)
Fixpoint duration_loop (n i : nat) (events : list Event) : list Event :=
  match n with
  | O => events
  | S n' =>
      match nth_error events (i - 1) with
      | Some prev =>
          duration_loop n' (S i) (update_at i (assign_duration (ts prev)) events)
      | None => events
      end
  end.

(** The list after the call; every event is a record of its own, as
    [parse_log_lines] builds them. *)
Definition compute_inference_duration (events : list Event) : list Event :=
  let events := map pop_durations events in
  match events with
  | [] => events
  | _ :: _ =>
      let events := update_at 0 assign_first events in
      duration_loop (List.length events - 1) 1 events
  end.

(** ** Output rows *)

(** A cell that holds an [int] or a [str]. *)
Inductive cell : Type :=
| CInt (n : Z)
| CStr (s : str).

Record Row : Type := mkRow
  { timestamp : str;
    modo : str;
    tipo_de_evento : str;
    escenario : Z;
    distancia_m : str;
    iluminacion : str;
    objeto_verdad : str;
    objeto_predicho : str;
    confianza : str;
    t_total_ms : str;
    acierto : cell;
    notas : str }.

(** [conf]: the float of the [conf] group of [CONF_RE.search(details)]. *)
Definition extract_conf (details : str) : option B64.float :=
  match Re.re_search CONF_RE details with
  | Some (_, conf_m) =>
      match Re.group "conf" (Re.m_groups conf_m) with
      | Some s => B64.of_decimal s
      | None => None
      end
  | None => None
  end.

Definition extract_label (details : str) : str :=
  let label :=
    if Py.contains (lit "with confidence") (Py.lower details)
    then Py.strip (Re.split_head WITH_CONFIDENCE_RE details)
    else details in
  Py.strip label.

Definition extract_note (details : str) : str :=
  if Py.contains (lit "error") (Py.lower details) then details else [].

Definition score (truth : option str) (label : str) : cell :=
  if Py.truthy_opt truth
  then if Py.truthy_opt truth && Py.truthy label
          && Py.str_eqb (Py.lower (Py.or_empty truth)) (Py.lower label)
       then CInt 1 else CInt 0
  else CStr [].

Definition isoformat_or_empty (t : option Datetime.datetime) : str :=
  match t with
  | Some t => Datetime.isoformat t
  | None => []
  end.

(** The row built for an event that has a non-empty [event]. *)
Definition row_of_event (ev : Event) (evt : str) (truth : option str)
           (ilum : str) (escenario : Z) (modo : str) : Row :=
  let details := details ev in
  let conf := extract_conf details in
  let label := extract_label details in
  let note := extract_note details in
  {| timestamp := isoformat_or_empty (ts ev);
     modo := modo;
     tipo_de_evento := Py.strip evt;
     escenario := escenario;
     distancia_m := [];
     iluminacion := ilum;
     objeto_verdad := Py.or_empty truth;
     objeto_predicho := label;
     confianza := match conf with Some c => B64.format_3f c | None => [] end;
     t_total_ms := Py.or_empty (get_duration_hms ev);
     acierto := score truth label;
     notas := note |}.

(** The [for idx, ev in enumerate(events)] loop. *)
Fixpoint event_rows (events : list Event) (truth : option str) (ilum : str)
         (escenario : Z) (modo : str) : list Row :=
  match events with
  | [] => []
  | ev :: rest =>
      match event ev with
      | Some evt =>
          if negb (Py.truthy evt)
          then event_rows rest truth ilum escenario modo
          else row_of_event ev evt truth ilum escenario modo
                 :: event_rows rest truth ilum escenario modo
      | None => event_rows rest truth ilum escenario modo
      end
  end.

Definition has_ts (ev : Event) : bool :=
  match ts ev with Some _ => true | None => false end.

Definition has_duration_hms (ev : Event) : bool :=
  Py.truthy_opt (get_duration_hms ev).

(** The summary row of a file without event rows. *)
Definition no_result_row (events : list Event) (truth : option str)
           (ilum : str) (escenario : Z) (modo : str) : Row :=
  let last_ts :=
    match find has_ts (rev events) with
    | Some ev => ts ev
    | None => None
    end in
  let last_dh :=
    match find has_duration_hms (rev events) with
    | Some ev => Py.or_empty (get_duration_hms ev)
    | None => []
    end in
  {| timestamp := isoformat_or_empty last_ts;
     modo := modo;
     tipo_de_evento := lit "no_result";
     escenario := escenario;
     distancia_m := [];
     iluminacion := ilum;
     objeto_verdad := Py.or_empty truth;
     objeto_predicho := [];
     confianza := [];
     t_total_ms := last_dh;
     acierto := CStr [];
     notas := lit "no result lines found" |}.

Section ProcessFile.

Variable fromisoformat : str -> exc Datetime.datetime.

(** [process_file] from the text that [path.read_text] returned. *)
Definition process_text (text : str) (escenario : Z) (modo : str)
  : exc (list Row) :=
  let lines := Py.splitlines text in
  events <- parse_log_lines fromisoformat lines ;;
  let ilum := lit "LED" in
  let truth := find_ground_truth lines in
  let events := compute_inference_duration events in
  let rows := event_rows events truth ilum escenario modo in
  match rows with
  | [] => Ok [no_result_row events truth ilum escenario modo]
  | _ => Ok rows
  end.

End ProcessFile.

(** ** The directory tree and [main] *)

#[local] Set Warnings "-register-all".
Inductive node : Type :=
| File (text : str)
| Dir (entries : list (str * node)).

(** A path below the root, one component per element. *)
Definition path : Type := list str.

Definition lookup (name : str) (entries : list (str * node)) : option node :=
  match find (fun e => Py.str_eqb (fst e) name) entries with
  | Some e => Some (snd e)
  | None => None
  end.

Fixpoint resolve (entries : list (str * node)) (p : path) : option node :=
  match p with
  | [] => Some (Dir entries)
  | name :: p' =>
      match lookup name entries with
      | Some (Dir sub) => resolve sub p'
      | Some (File text) => match p' with [] => Some (File text) | _ => None end
      | None => None
      end
  end.

(** [dirp.exists() and dirp.is_dir()] with the entries of [dirp]. *)
Definition is_dir (root : list (str * node)) (p : path)
  : option (list (str * node)) :=
  match resolve root p with
  | Some (Dir entries) => Some entries
  | _ => None
  end.

Definition is_file (root : list (str * node)) (p : path) : bool :=
  match resolve root p with
  | Some (File _) => true
  | _ => false
  end.

(** [p.name] *)
Definition name (p : path) : str := last p [].

(** [path.read_text(...)] *)
Definition read_text (root : list (str * node)) (p : path) : exc str :=
  match resolve root p with
  | Some (File text) => Ok text
  | Some (Dir _) => Raise (lit "[Errno 21] Is a directory")
  | None => Raise (lit "[Errno 2] No such file or directory")
  end.

(** Order of [str]: by code point, a proper prefix first. *)
Fixpoint str_leb (a b : str) : bool :=
  match a, b with
  | [], _ => true
  | _ :: _, [] => false
  | x :: a', y :: b' =>
      if Py.code x <? Py.code y then true
      else if Py.code y <? Py.code x then false
      else str_leb a' b'
  end.

(** A stable sort: an element goes before the first one it does not
    exceed, so equal elements keep their order. *)
Fixpoint insert_sorted {A : Type} (le : A -> A -> bool) (x : A) (l : list A)
  : list A :=
  match l with
  | [] => [x]
  | y :: l' => if le x y then x :: l else y :: insert_sorted le x l'
  end.

Fixpoint stable_sort {A : Type} (le : A -> A -> bool) (l : list A) : list A :=
  match l with
  | [] => []
  | x :: l' => insert_sorted le x (stable_sort le l')
  end.

(** [sorted(dirp.iterdir())]: the paths of a directory differ in their
    last component only. *)
Definition sorted_iterdir (dirp : path) (entries : list (str * node))
  : list path :=
  map (fun n => dirp ++ [n]) (stable_sort str_leb (map fst entries)).

Record OutRow : Type := mkOutRow
  { id_prueba : Z;
    fields : Row }.

(** The locals of [main] that the loops change; [calls] records every
    invocation of [process_file] with its path and scenario. *)
Record locals : Type := mkLocals
  { f : option path;
    id_counter : Z;
    rows_to_write : list OutRow;
    calls : list (path * Z) }.

Definition parse_error_row (i : Z) (e : str) : Row :=
  {| timestamp := [];
     modo := lit "MOBILE";
     tipo_de_evento := lit "parse_error";
     escenario := i;
     distancia_m := [];
     iluminacion := [];
     objeto_verdad := [];
     objeto_predicho := [];
     confianza := [];
     t_total_ms := [];
     acierto := CStr [];
     notas := lit "parse error: " ++ e |}.

(** [for r in file_rows: ...] *)
Fixpoint append_rows (file_rows : list Row) (st : locals) : locals :=
  match file_rows with
  | [] => st
  | r :: rest =>
      append_rows rest
        (mkLocals (f st) (id_counter st + 1)
                  (rows_to_write st ++ [mkOutRow (id_counter st) r])
                  (calls st))
  end.

(** [f"escenario {i}"] *)
Definition escenario_dir (i : Z) : str := lit "escenario " ++ Py.str_of_int i.

Definition candidate_dirs (i : Z) : list path :=
  [[escenario_dir i]; [lit "logs"; escenario_dir i]].

(** ** [pd.to_datetime]

    [pd.to_datetime(column, errors="coerce")] on a column of strings,
    as pandas does it from version 2 on. The column of [main] holds,
    cell by cell, the empty string or the text of [ts.isoformat()];
    the model covers these cells (timestamps that a 64-bit clock of
    nanoseconds holds, UTC offsets of whole minutes).
    - The format is guessed once, from the first cell that is not
      empty. The text of [isoformat] has a fraction of a second or has
      none, and has a UTC offset or has none.
    - Every cell is then read in that one format: an empty cell and a
      cell of another format give [NaT] under [errors="coerce"].
    - Cells that were read with different UTC offsets make the call
      raise [ValueError]; [errors="coerce"] does not cover that. *)

Module Pd.

Record format : Type := mkFormat
  { with_fraction : bool;
    with_offset : bool }.

Definition format_eqb (a b : format) : bool :=
  Bool.eqb (with_fraction a) (with_fraction b)
  && Bool.eqb (with_offset a) (with_offset b).

(** A cell that is the text of [isoformat]: its format, its instant in
    microseconds (the wall clock less the offset) and its offset. *)
Definition read_cell (s : str) : option (format * Z * option Z) :=
  match Datetime.fromisoformat s with
  | Ok t =>
      if Py.str_eqb (Datetime.isoformat t) s
      then Some (mkFormat (negb (Datetime.microsecond t =? 0))
                          (match Datetime.tzoffset t with
                           | Some _ => true
                           | None => false
                           end),
                 Datetime.wall_us t
                 - match Datetime.tzoffset t with
                   | Some off => off
                   | None => 0
                   end,
                 Datetime.tzoffset t)
      else None
  | Raise _ => None
  end.

Definition guess_datetime_format (s : str) : option format :=
  match read_cell s with
  | Some (fmt, _, _) => Some fmt
  | None => None
  end.

(** One cell in the guessed format, [None] for [NaT]. *)
Definition strptime (fmt : format) (s : str) : option (Z * option Z) :=
  match read_cell s with
  | Some (f, instant, off) =>
      if format_eqb f fmt then Some (instant, off) else None
  | None => None
  end.

(** The UTC offsets of the cells that were read. *)
Definition offsets (cells : list (option (Z * option Z))) : list Z :=
  flat_map (fun c => match c with
                     | Some (_, Some off) => [off]
                     | _ => []
                     end) cells.

Definition mixed (offs : list Z) : bool :=
  match offs with
  | [] => false
  | off :: rest => negb (forallb (Z.eqb off) rest)
  end.

(** A first cell that is no text of [isoformat] does not occur in the
    column of [main]; the model gives [NaT] throughout there. *)
Definition to_datetime (column : list str) : exc (list (option Z)) :=
  match find Py.truthy column with
  | None => Ok (map (fun _ => None) column)
  | Some first =>
      match guess_datetime_format first with
      | None => Ok (map (fun _ => None) column)
      | Some fmt =>
          let cells := map (strptime fmt) column in
          if mixed (offsets cells)
          then Raise (lit "Mixed timezones detected. Pass utc=True in to_datetime or tz='UTC' in DatetimeIndex to convert to a common timezone.")
          else Ok (map (option_map fst) cells)
      end
  end.

End Pd.

Section Main.

Variable fromisoformat : str -> exc Datetime.datetime.
(** [pd.to_datetime(column, errors="coerce")]: one instant per cell,
    [None] for [NaT]; the call itself may raise. *)
Variable to_datetime : list str -> exc (list (option Z)).

Variable root : list (str * node).

Definition process_file (p : path) (escenario : Z) (modo : str)
  : exc (list Row) :=
  text <- read_text root p ;;
  process_text fromisoformat text escenario modo.

(** The body of [for f in sorted(dirp.iterdir())]: both tests end in
    [continue] and nothing follows them inside the loop. *)
Definition scan_entry (st : locals) (entry : path) : locals :=
  let st := mkLocals (Some entry) (id_counter st) (rows_to_write st)
                     (calls st) in
  if negb (is_file root entry) then st
  else if negb (Py.startswith (lit "MOBILE") (name entry)) then st
  else st.

(** The [try] after that loop: [f] is whatever the loops left in it;
    reading an unbound [f] raises [NameError]. *)
Definition try_process (st : locals) (i : Z) : locals * list Row :=
  match f st with
  | Some p =>
      let st := mkLocals (f st) (id_counter st) (rows_to_write st)
                         (calls st ++ [(p, i)]) in
      match process_file p i (lit "MOBILE") with
      | Ok file_rows => (st, file_rows)
      | Raise e => (st, [parse_error_row i e])
      end
  | None =>
      (st, [parse_error_row i
              (lit "cannot access local variable 'f' where it is not associated with a value")])
  end.

(** The body of [for dirp in candidate_dirs]. *)
Definition visit_dir (i : Z) (st : locals) (dirp : path) : locals :=
  match is_dir root dirp with
  | None => st
  | Some entries =>
      let st := fold_left scan_entry (sorted_iterdir dirp entries) st in
      let '(st, file_rows) := try_process st i in
      append_rows file_rows st
  end.

(** The body of [for i in range(1, 5)]. *)
Definition visit_scenario (st : locals) (i : Z) : locals :=
  fold_left (visit_dir i) (candidate_dirs i) st.

Definition main_loop : locals :=
  fold_left visit_scenario [1; 2; 3; 4] (mkLocals None 1 [] []).

(** Order of the parsed column under [na_position="last"]. *)
Definition nat_last_leb (a b : option Z) : bool :=
  match a, b with
  | Some x, Some y => x <=? y
  | Some _, None => true
  | None, Some _ => false
  | None, None => true
  end.

(** [df.reset_index(drop=True); df["id_prueba"] = df.index + 1] *)
Fixpoint reset_ids (index : Z) (rows : list OutRow) : list OutRow :=
  match rows with
  | [] => []
  | r :: rest => mkOutRow (index + 1) (fields r) :: reset_ids (index + 1) rest
  end.

(** The frame after the sort: [sort_values] with [kind="mergesort"]
    is a stable sort on the parsed column. A frame without rows has no
    column [timestamp] and takes the [else] branch. *)
Definition assemble (rows : list OutRow) : exc (list OutRow) :=
  match rows with
  | [] => Ok (reset_ids 0 rows)
  | _ :: _ =>
      timestamp_parsed <-
        to_datetime (map (fun r => timestamp (fields r)) rows) ;;
      let df := combine rows timestamp_parsed in
      let df := stable_sort (fun a b => nat_last_leb (snd a) (snd b)) df in
      Ok (reset_ids 0 (map fst df))
  end.

(** The frame that [main] writes, or the exception that ends it. *)
Definition main : exc (list OutRow) := assemble (rows_to_write main_loop).

End Main.

(** * Vocabulary of the specification *)

(** The fields of the format [HH:MM:SS.mmm]. *)
Definition digit2 (n : Z) : str :=
  [Py.digit_char (n / 10); Py.digit_char (n mod 10)].

Definition digit3 (n : Z) : str :=
  [Py.digit_char (n / 100); Py.digit_char (n / 10 mod 10);
   Py.digit_char (n mod 10)].

(** A tens digit of minutes or seconds: 0 to 5. *)
Definition is_tens (c : ascii) : bool :=
  (48 <=? Py.code c) && (Py.code c <=? 53).

(** The shape [HH:MM:SS.mmm]: twelve characters, two-digit hours,
    minutes and seconds below 60, three-digit milliseconds. *)
Definition is_hms (s : str) : bool :=
  match s with
  | [h1; h2; c1; m1; m2; c2; s1; s2; d; u1; u2; u3] =>
      Py.isdigit h1 && Py.isdigit h2 && Py.char_eqb c1 ":"%char
      && is_tens m1 && Py.isdigit m2 && Py.char_eqb c2 ":"%char
      && is_tens s1 && Py.isdigit s2 && Py.char_eqb d "."%char
      && Py.isdigit u1 && Py.isdigit u2 && Py.isdigit u3
  | _ => false
  end.

(** The durations that the loop of [compute_inference_duration]
    leaves, event by event, carrying the timestamp of the predecessor. *)
Fixpoint chain (ts_prev : option Datetime.datetime) (events : list Event)
  : list Event :=
  match events with
  | [] => []
  | cur :: rest => assign_duration ts_prev cur :: chain (ts cur) rest
  end.

(** An instant in microseconds: the wall clock less the UTC offset. *)
Definition instant_us (t : Datetime.datetime) : Z :=
  Datetime.wall_us t
  - match Datetime.tzoffset t with Some off => off | None => 0 end.

(** The duration that the specification states for an event: the
    difference of the two timestamps in whole milliseconds when both
    are present, else null. *)
Definition stated_duration (ts_prev ts_cur : option Datetime.datetime)
  : option Z :=
  match ts_prev, ts_cur with
  | Some p, Some c => Some (Z.quot (instant_us c - instant_us p) 1000)
  | _, _ => None
  end.

Definition stated_first_duration (ts_first : option Datetime.datetime)
  : option Z :=
  match ts_first with Some _ => Some 0 | None => None end.

(** The claim of the specification on one event sequence. *)
Definition durations_as_stated (events : list Event) : Prop :=
  let out := compute_inference_duration events in
  (forall first o, nth_error events 0 = Some first ->
     nth_error out 0 = Some o ->
     get_duration_ms o = stated_first_duration (ts first))
  /\ (forall i prev cur o, (0 < i)%nat ->
        nth_error events (i - 1) = Some prev ->
        nth_error events i = Some cur ->
        nth_error out i = Some o ->
        get_duration_ms o = stated_duration (ts prev) (ts cur)).

(** What the loop computes for an event after the first. *)
Definition computed_duration (ts_prev ts_cur : option Datetime.datetime)
  : option Z :=
  match ts_prev, ts_cur with
  | Some p, Some c => or_none (elapsed_ms c p)
  | _, _ => None
  end.

Definition same_awareness (a b : Datetime.datetime) : bool :=
  match Datetime.tzoffset a, Datetime.tzoffset b with
  | None, None | Some _, Some _ => true
  | _, _ => false
  end.

Definition naive (y mo d h mi s us : Z) : Datetime.datetime :=
  Datetime.mkDatetime y mo d h mi s us None.

Definition aware (y mo d h mi s us off : Z) : Datetime.datetime :=
  Datetime.mkDatetime y mo d h mi s us (Some off).

(** An event as [parse_log_lines] builds it, with a timestamp. *)
Definition event_at (t : option Datetime.datetime) (evt : string) : Event :=
  mkEvent t (Some (lit "SCENE")) (Some (lit evt)) [] [] None None.

(** Two events, the first naive, the second timezone-aware. *)
Definition mixed_events : list Event :=
  [event_at (Some (naive 2025 12 29 18 29 25 0)) "running inference";
   event_at (Some (aware 2025 12 29 18 29 26 0 0)) "finished inference"].

(** Two naive events 1.001 s apart. *)
Definition slipped_events : list Event :=
  [event_at (Some (naive 2025 12 29 18 29 25 0)) "running inference";
   event_at (Some (naive 2025 12 29 18 29 26 1000)) "finished inference"].

(** The first two lines of the log in the module docstring. *)
Definition capture_events : list Event :=
  [event_at (Some (naive 2025 12 29 18 29 25 428165)) "capture";
   event_at (Some (naive 2025 12 29 18 29 25 646733)) "capture"].

(** The groups that every match of a pattern sets. *)
Fixpoint binds (r : Re.regex) (name : string) : bool :=
  match r with
  | Re.Grp n r1 => String.eqb n name || binds r1 name
  | Re.Seq r1 r2 => binds r1 name || binds r2 name
  | _ => false
  end.

(** The events of a line, when the line yields any. *)
Definition line_events (fromisoformat : str -> exc Datetime.datetime)
           (ln : str) : list Event :=
  match parse_log_line fromisoformat ln with
  | Ok new => new
  | Raise _ => []
  end.

(** A line with a timestamp that is no ISO 8601 string, and a line
    outside the grammar. *)
Definition bad_ts_line : str := lit "[bad-ts] TTS: converted output to speech".
Definition free_text_line : str := lit "hello".

(** The events and the ground truth of a file, as [process_file]
    holds them when it builds the rows. *)
Definition file_events (fromisoformat : str -> exc Datetime.datetime)
           (text : str) : list Event :=
  compute_inference_duration
    (flat_map (line_events fromisoformat) (Py.splitlines text)).

Definition file_truth (text : str) : option str :=
  find_ground_truth (Py.splitlines text).

(** The rule of the specification for the field [acierto]. *)
Definition acierto_as_stated (r : Row) : Prop :=
  acierto r = CInt 1
  <-> (objeto_verdad r <> [] /\ objeto_predicho r <> []
       /\ Py.lower (objeto_verdad r) = Py.lower (objeto_predicho r)).

(** The last value that a backward scan of the events finds. *)
Fixpoint last_available {A : Type} (f : Event -> option A)
         (events : list Event) : option A :=
  match events with
  | [] => None
  | ev :: rest =>
      match last_available f rest with
      | Some a => Some a
      | None => f ev
      end
  end.

(** A duration string that is present and not empty. *)
Definition available_hms (ev : Event) : option str :=
  match get_duration_hms ev with
  | Some (c :: s) => Some (c :: s)
  | _ => None
  end.

(** A number printed with exactly three decimals. *)
Definition three_decimals (k : Z) : str :=
  Py.digits (k / 1000) ++ lit "." ++ digit3 (k mod 1000).

(** The confidence field as the specification states it: empty or a
    value from 0.000 to 1.000. *)
Definition confidence_as_stated (r : Row) : Prop :=
  confianza r = []
  \/ exists k, 0 <= k <= 1000 /\ confianza r = three_decimals k.

(** A file whose ground truth and prediction differ in case only. *)
Definition cup_text : str :=
  lit "objeto_verdad: cup" ++ ["010"%char]
  ++ lit "[2025-12-29T18:29:32.765650] SCENE: result - Cup with confidence 0.875".

(** A file without any line of the grammar. *)
Definition notes_text : str :=
  lit "hello" ++ ["010"%char] ++ lit "world".

(** A file whose result line reports a confidence of 5.0. *)
Definition five_text : str :=
  lit "[2025-12-29T18:29:32.765650] SCENE: result - cup with confidence 5.0".

(** A file whose two grammar lines have an empty event name. *)
Definition unnamed_text : str :=
  lit "hello" ++ ["010"%char]
  ++ lit "[2025-12-29T18:29:25.428165] ESP32:  - starting" ++ ["010"%char]
  ++ lit "[2025-12-29T18:29:26.429165] ESP32:  - finished" ++ ["010"%char]
  ++ lit "world".

(** Equality of two parsed timestamps, [NaT] equal to [NaT]. *)
Definition key_eqb (a b : option Z) : bool :=
  match a, b with
  | Some x, Some y => x =? y
  | None, None => true
  | _, _ => false
  end.

(** The rows of a frame that carry the parsed timestamp [k]. *)
Definition with_key {A : Type} (k : option Z) (df : list (A * option Z))
  : list (A * option Z) :=
  filter (fun p => key_eqb (snd p) k) df.

(** Ascending, [NaT] last. *)
Definition key_le (a b : option Z) : Prop := nat_last_leb a b = true.

(** The calls that the specification states: one per regular file
    whose name starts with [MOBILE], in every existing candidate
    directory of every scenario. *)
Definition matching_files (root : list (str * node)) (i : Z) (dirp : path)
  : list (path * Z) :=
  match is_dir root dirp with
  | None => []
  | Some entries =>
      map (fun p => (p, i))
          (filter (fun p => is_file root p
                            && Py.startswith (lit "MOBILE") (name p))
                  (sorted_iterdir dirp entries))
  end.

Definition stated_calls (root : list (str * node)) : list (path * Z) :=
  flat_map (fun i => flat_map (matching_files root i) (candidate_dirs i))
           [1; 2; 3; 4].

(** A tree with two log files in the directory of scenario 1. *)
Definition two_logs_root : list (str * node) :=
  [(lit "escenario 1",
    Dir [(lit "MOBILE_a.log", File unnamed_text);
         (lit "MOBILE_b.log", File cup_text)])].

(** A tree whose only file is no log of the mode. *)
Definition notes_root : list (str * node) :=
  [(lit "escenario 1", Dir [(lit "notes.txt", File notes_text)])].

(** The instant that the specification states for a row: the
    timestamp field parsed on its own, none when it does not parse. *)
Definition stated_instant (cell : str) : option Z :=
  match Datetime.fromisoformat cell with
  | Ok t => Some (instant_us t)
  | Raise _ => None
  end.

(** The order that the specification states for the written frame:
    ascending instants, the rows without one last. *)
Definition ascending_as_stated (out : list OutRow) : Prop :=
  Sorted key_le (map (fun r => stated_instant (timestamp (fields r))) out).

(** A log whose second line carries a whole second: [isoformat]
    prints that timestamp without a fraction. *)
Definition whole_second_text : str :=
  lit "[2025-12-29T18:29:25.428165] ESP32: capture - starting"
  ++ ["010"%char]
  ++ lit "[2025-12-29T18:29:26] ESP32: capture - finished" ++ ["010"%char]
  ++ lit "[2025-12-29T18:29:32.765650] SCENE: result - cup with confidence 0.875".

Definition whole_second_root : list (str * node) :=
  [(lit "escenario 1", Dir [(lit "MOBILE_a.log", File whole_second_text)])].

(** A log whose two lines carry different UTC offsets. *)
Definition two_offsets_text : str :=
  lit "[2025-12-29T18:29:25.428165+01:00] ESP32: capture - starting"
  ++ ["010"%char]
  ++ lit "[2025-12-29T18:29:26.646733+02:00] ESP32: capture - finished".

Definition two_offsets_root : list (str * node) :=
  [(lit "escenario 1", Dir [(lit "MOBILE_a.log", File two_offsets_text)])].

(** A tree whose scenario 1 holds the later log and scenario 2 the
    earlier one. *)
Definition late_first_root : list (str * node) :=
  [(lit "escenario 1", Dir [(lit "MOBILE_b.log", File cup_text)]);
   (lit "escenario 2", Dir [(lit "MOBILE_a.log", File unnamed_text)])].

(** The frame before the sort: each accumulated row with its parsed
    timestamp. *)
Definition parsed_frame (timestamp_parsed : list (option Z))
           (rows : list OutRow) : list (Row * option Z) :=
  combine (map fields rows) timestamp_parsed.

(** The longest prefix of a string in a class. *)
Fixpoint takewhile (p : ascii -> bool) (s : str) : str :=
  match s with
  | [] => []
  | c :: s' => if p c then c :: takewhile p s' else []
  end.

(** A string neither empty nor led by a character of the class. *)
Definition stops (p : ascii -> bool) (s : str) : Prop :=
  match s with
  | [] => True
  | c :: _ => p c = false
  end.

(** What a group captures after [\s*] has taken the leading blanks of
    a non-empty text: the text without them, or its last blank when
    nothing else is left. *)
Definition core (x : str) : str :=
  match Py.dropwhile Py.isspace x with
  | [] => [last x " "%char]
  | c => c
  end.

(** A line of the grammar, with its dash and details and without. *)
Definition shaped_line (ts_s comp evt det : str) : str :=
  lit "[" ++ ts_s ++ lit "] " ++ comp ++ lit ": " ++ evt ++ lit " - " ++ det.

Definition shaped_line_no_details (ts_s comp evt : str) : str :=
  lit "[" ++ ts_s ++ lit "] " ++ comp ++ lit ": " ++ evt.

(** The claim of the specification on one line: the three fields come
    back as written, up to surrounding blanks. *)
Definition recovers (fromisoformat : str -> exc Datetime.datetime)
           (ts_s comp evt det : str) : Prop :=
  exists ev,
    parse_log_line fromisoformat (shaped_line ts_s comp evt det) = Ok [ev]
    /\ component ev = Some (Py.strip comp)
    /\ event ev = Some (Py.strip evt)
    /\ details ev = Py.strip det.

(** [LINE_RE] from its end: the optional details with the end of the
    line, the event before them, the text after the colon, the
    component with its colon, the text after the bracket. *)
Definition DETAILS_RE : Re.regex :=
  (Re.Chr (Re.is_char "-") +++
   Re.Rep true 0 Re.space +++
   Re.Grp "details" (Re.Rep true 0 Re.dot))%regex.

Definition TAIL_RE : Re.regex := (Re.Opt DETAILS_RE +++ Re.Eol)%regex.

Definition EVENT_RE : Re.regex :=
  (Re.Grp "event" (Re.Rep false 1 (Re.not_char "-")) +++ TAIL_RE)%regex.

Definition AFTER_COLON_RE : Re.regex :=
  (Re.Rep true 0 Re.space +++ EVENT_RE)%regex.

Definition COMPONENT_RE : Re.regex :=
  (Re.Grp "component" (Re.Rep true 1 (Re.not_char ":")) +++
   Re.Chr (Re.is_char ":") +++ AFTER_COLON_RE)%regex.

Definition AFTER_TS_RE : Re.regex :=
  (Re.Rep true 0 Re.space +++ COMPONENT_RE)%regex.

(** The label that the details of an event give: the trimmed details
    when they hold no [with confidence], in any letter case; else the
    trimmed text before the first occurrence of these words. *)
Definition before_first_phrase (details label : str) : Prop :=
  (Py.contains (lit "with confidence") (Py.lower details) = false
   /\ label = Py.strip details)
  \/ exists before w rest,
       details = before ++ w ++ rest
       /\ Py.lower w = lit "with confidence"
       /\ (forall pre post,
             details = pre ++ post ->
             (List.length pre < List.length before)%nat ->
             Py.startswith (lit "with confidence") (Py.lower post) = false)
       /\ label = Py.strip before.

(** The events of a file that give a row: those with a name. *)
Definition named_events (fromisoformat : str -> exc Datetime.datetime)
           (text : str) : list Event :=
  filter (fun ev => Py.truthy_opt (event ev)) (file_events fromisoformat text).

(** A file whose two result lines report different confidences. *)
Definition cat_dog_text : str :=
  lit "[2025-12-29T18:29:32.765650] SCENE: result - cat with confidence 0.100"
  ++ ["010"%char]
  ++ lit "[2025-12-29T18:29:33.765650] SCENE: result - dog WITH Confidence 0.900".

(** The line [objeto_verdad: "cup" ], the label in double quotes. *)
Definition quoted_truth_line : str :=
  lit "objeto_verdad: " ++ ["034"%char] ++ lit "cup" ++ ["034"%char; " "%char].

(** * Properties *)

(** ** Strings and decimal rendering *)

Lemma char_eqb_eq (a b : ascii) : Py.char_eqb a b = true <-> a = b.
Proof. apply Ascii.eqb_eq. Qed.

Lemma str_eqb_eq (a b : str) : Py.str_eqb a b = true <-> a = b.
Proof.
  revert b; induction a as [|x a IH]; intros [|y b]; simpl;
    try (split; [discriminate | discriminate]); try tauto.
  rewrite andb_true_iff, char_eqb_eq, IH.
  split; [intros [-> ->]; reflexivity | intros E; inversion E; auto].
Qed.

Lemma digits_fuel_nonempty (fuel : nat) (n : Z) :
  Py.digits_fuel (S fuel) n <> [].
Proof.
  simpl. destruct (n <? 10); [discriminate|].
  destruct (Py.digits_fuel fuel (n / 10)); discriminate.
Qed.

Lemma digits_nonempty (n : Z) : Py.digits n <> [].
Proof. apply digits_fuel_nonempty. Qed.

Lemma zfill_short (w : nat) (s : str) :
  (w <= List.length s)%nat -> Py.zfill w s = s.
Proof.
  intros H. unfold Py.zfill.
  replace (w - List.length s)%nat with O by lia. reflexivity.
Qed.

(** A negative number printed with [02d] is the sign and the digits. *)
Lemma format_0d_2_negative (n : Z) :
  n < 0 -> Py.format_0d 2 n = "-"%char :: Py.digits (- n).
Proof.
  intros H. unfold Py.format_0d.
  destruct (Z.ltb_spec n 0); [|lia].
  rewrite zfill_short; [reflexivity|].
  pose proof (digits_nonempty (- n)).
  destruct (Py.digits (- n)); [congruence | simpl; lia].
Qed.

(** Checking a property of the numbers below a bound by running it. *)
Lemma below_by_computation (bound : nat) (P : Z -> bool) :
  forallb (fun k => P (Z.of_nat k)) (seq 0 bound) = true ->
  forall n, 0 <= n < Z.of_nat bound -> P n = true.
Proof.
  intros C n H. rewrite forallb_forall in C.
  specialize (C (Z.to_nat n)). rewrite Z2Nat.id in C by lia.
  apply C, in_seq. lia.
Qed.

Lemma format_0d_2_digit2 (n : Z) :
  0 <= n < 100 -> Py.format_0d 2 n = digit2 n.
Proof.
  intros H. apply str_eqb_eq.
  apply (below_by_computation 100
           (fun n => Py.str_eqb (Py.format_0d 2 n) (digit2 n)));
    [vm_compute; reflexivity | exact H].
Qed.

Lemma format_0d_3_digit3 (n : Z) :
  0 <= n < 1000 -> Py.format_0d 3 n = digit3 n.
Proof.
  intros H. apply str_eqb_eq.
  apply (below_by_computation 1000
           (fun n => Py.str_eqb (Py.format_0d 3 n) (digit3 n)));
    [vm_compute; reflexivity | exact H].
Qed.

Lemma digit2_shape (n : Z) :
  0 <= n < 100 ->
  exists a b, digit2 n = [a; b] /\ Py.isdigit a = true /\ Py.isdigit b = true.
Proof.
  intros H. exists (Py.digit_char (n / 10)), (Py.digit_char (n mod 10)).
  split; [reflexivity|].
  apply andb_true_iff.
  apply (below_by_computation 100
           (fun n => Py.isdigit (Py.digit_char (n / 10))
                     && Py.isdigit (Py.digit_char (n mod 10))));
    [vm_compute; reflexivity | exact H].
Qed.

Lemma digit2_sexagesimal (n : Z) :
  0 <= n < 60 ->
  exists a b, digit2 n = [a; b] /\ is_tens a = true /\ Py.isdigit b = true.
Proof.
  intros H. exists (Py.digit_char (n / 10)), (Py.digit_char (n mod 10)).
  split; [reflexivity|].
  apply andb_true_iff.
  apply (below_by_computation 60
           (fun n => is_tens (Py.digit_char (n / 10))
                     && Py.isdigit (Py.digit_char (n mod 10))));
    [vm_compute; reflexivity | exact H].
Qed.

Lemma digit3_shape (n : Z) :
  0 <= n < 1000 ->
  exists a b c, digit3 n = [a; b; c]
    /\ Py.isdigit a = true /\ Py.isdigit b = true /\ Py.isdigit c = true.
Proof.
  intros H.
  exists (Py.digit_char (n / 100)), (Py.digit_char (n / 10 mod 10)),
         (Py.digit_char (n mod 10)).
  split; [reflexivity|].
  rewrite <- !andb_true_iff.
  apply (below_by_computation 1000
           (fun n => Py.isdigit (Py.digit_char (n / 100))
                     && (Py.isdigit (Py.digit_char (n / 10 mod 10))
                         && Py.isdigit (Py.digit_char (n mod 10)))));
    [vm_compute; reflexivity | exact H].
Qed.

(** ** [format_duration_ms] *)

Lemma is_hms_head (c : ascii) (s : str) :
  Py.isdigit c = false -> is_hms (c :: s) = false.
Proof.
  intros H. unfold is_hms.
  do 11 (destruct s as [|? s]; [reflexivity|]).
  destruct s; [|reflexivity].
  rewrite H. reflexivity.
Qed.

(** The fields of the split by [divmod]. *)
Lemma format_duration_ms_fields (ms : Z) :
  exists h m s u,
    0 <= m < 60 /\ 0 <= s < 60 /\ 0 <= u < 1000
    /\ ms = ((h * 60 + m) * 60 + s) * 1000 + u
    /\ format_duration_ms (Some ms)
       = Py.format_0d 2 h ++ lit ":" ++ Py.format_0d 2 m ++ lit ":"
           ++ Py.format_0d 2 s ++ lit "." ++ Py.format_0d 3 u.
Proof.
  exists (ms / 1000 / 60 / 60), (ms / 1000 / 60 mod 60),
         (ms / 1000 mod 60), (ms mod 1000).
  repeat split; try (apply Z.mod_pos_bound; lia).
  pose proof (Z.div_mod ms 1000 ltac:(lia)).
  pose proof (Z.div_mod (ms / 1000) 60 ltac:(lia)).
  pose proof (Z.div_mod (ms / 1000 / 60) 60 ltac:(lia)).
  lia.
Qed.

(** C10. For [0 <= ms < 360000000] the result has the shape
    [HH:MM:SS.mmm] (two-digit hours, minutes and seconds in 0..59,
    three-digit milliseconds); for every negative [ms] the hours field
    is the negative floor quotient, printed with its sign, while
    minutes, seconds and milliseconds keep their ranges, so the result
    leaves the shape; [-1] gives [-1:59:59.999]. *)
Theorem format_duration_ms_shape :
  (forall ms, 0 <= ms < 360000000 ->
     exists h m s u,
       0 <= h < 100 /\ 0 <= m < 60 /\ 0 <= s < 60 /\ 0 <= u < 1000
       /\ ms = ((h * 60 + m) * 60 + s) * 1000 + u
       /\ format_duration_ms (Some ms)
          = digit2 h ++ lit ":" ++ digit2 m ++ lit ":" ++ digit2 s
              ++ lit "." ++ digit3 u
       /\ is_hms (format_duration_ms (Some ms)) = true)
  /\ (forall ms, ms < 0 ->
        exists h m s u,
          h < 0 /\ 0 <= m < 60 /\ 0 <= s < 60 /\ 0 <= u < 1000
          /\ ms = ((h * 60 + m) * 60 + s) * 1000 + u
          /\ format_duration_ms (Some ms)
             = ("-"%char :: Py.digits (- h)) ++ lit ":" ++ digit2 m ++ lit ":"
                 ++ digit2 s ++ lit "." ++ digit3 u
          /\ is_hms (format_duration_ms (Some ms)) = false)
  /\ format_duration_ms (Some (-1)) = lit "-1:59:59.999".
Proof.
  split; [|split; [|reflexivity]].
  - intros ms Hms.
    destruct (format_duration_ms_fields ms) as (h & m & s & u & Hm & Hs & Hu & E & F).
    assert (Hh : 0 <= h < 100) by lia.
    exists h, m, s, u. repeat split; try lia.
    + rewrite F, !format_0d_2_digit2, format_0d_3_digit3 by lia. reflexivity.
    + rewrite F, !format_0d_2_digit2, format_0d_3_digit3 by lia.
      destruct (digit2_shape h Hh) as (h1 & h2 & -> & Dh1 & Dh2).
      destruct (digit2_sexagesimal m Hm) as (m1 & m2 & -> & Tm & Dm).
      destruct (digit2_sexagesimal s Hs) as (s1 & s2 & -> & Ts & Ds).
      destruct (digit3_shape u Hu) as (u1 & u2 & u3 & -> & Du1 & Du2 & Du3).
      cbn [app lit list_ascii_of_string is_hms].
      rewrite Dh1, Dh2, Tm, Dm, Ts, Ds, Du1, Du2, Du3. reflexivity.
  - intros ms Hms.
    destruct (format_duration_ms_fields ms) as (h & m & s & u & Hm & Hs & Hu & E & F).
    assert (Hh : h < 0) by lia.
    exists h, m, s, u. repeat split; try lia.
    + rewrite F, format_0d_2_negative, !format_0d_2_digit2, format_0d_3_digit3
        by lia. reflexivity.
    + rewrite F, format_0d_2_negative by lia.
      apply is_hms_head. reflexivity.
Qed.

Lemma format_duration_ms_shape_witness :
  is_hms (format_duration_ms (Some 6346)) = true
  /\ is_hms (format_duration_ms (Some (-12))) = false.
Proof.
  destruct format_duration_ms_shape as (Hpos & Hneg & _).
  split.
  - destruct (Hpos 6346 ltac:(lia)) as (h & m & s & u & _ & _ & _ & _ & _ & _ & H).
    exact H.
  - destruct (Hneg (-12) ltac:(lia)) as (h & m & s & u & _ & _ & _ & _ & _ & _ & H).
    exact H.
Defined.

(** ** [compute_inference_duration] *)

Lemma ts_pop_durations (ev : Event) : ts (pop_durations ev) = ts ev.
Proof. reflexivity. Qed.

Lemma ts_set_durations (ms : option Z) (hms : option str) (ev : Event) :
  ts (set_durations ms hms ev) = ts ev.
Proof. reflexivity. Qed.

Lemma ts_assign_duration (ts_prev : option Datetime.datetime) (ev : Event) :
  ts (assign_duration ts_prev ev) = ts ev.
Proof.
  unfold assign_duration.
  destruct ts_prev, (ts ev) eqn:E; try (simpl; congruence).
  destruct (elapsed_ms _ _); simpl; congruence.
Qed.

Lemma ts_assign_first (ev : Event) : ts (assign_first ev) = ts ev.
Proof. unfold assign_first. destruct (ts ev) eqn:E; simpl; congruence. Qed.

Lemma update_at_app {A : Type} (f : A -> A) (l1 : list A) (x : A) (l2 : list A) :
  update_at (List.length l1) f (l1 ++ x :: l2) = l1 ++ f x :: l2.
Proof. induction l1 as [|y l1 IH]; simpl; [reflexivity | now rewrite IH]. Qed.

Lemma nth_error_middle {A : Type} (l1 : list A) (x : A) (l2 : list A) :
  nth_error (l1 ++ x :: l2) (List.length l1) = Some x.
Proof. induction l1; simpl; auto. Qed.

(** The loop from index [i] on, once the events before [i] are done. *)
Lemma duration_loop_chain (l2 l0 : list Event) (prev : Event) :
  duration_loop (List.length l2) (S (List.length l0)) (l0 ++ prev :: l2)
  = l0 ++ prev :: chain (ts prev) l2.
Proof.
  revert l0 prev. induction l2 as [|cur l2 IH]; intros l0 prev.
  - reflexivity.
  - cbn [List.length duration_loop chain].
    replace (S (List.length l0) - 1)%nat with (List.length l0) by lia.
    rewrite nth_error_middle.
    replace (l0 ++ prev :: cur :: l2) with ((l0 ++ [prev]) ++ cur :: l2)
      by (rewrite <- app_assoc; reflexivity).
    replace (S (List.length l0)) with (List.length (l0 ++ [prev]))
      by (rewrite length_app; simpl; lia).
    rewrite update_at_app.
    replace (S (List.length (l0 ++ [prev])))
      with (S (List.length ((l0 ++ [prev]))))
      by reflexivity.
    rewrite IH, ts_assign_duration, <- app_assoc. reflexivity.
Qed.

(** The whole function as one pass over the list. *)
Lemma compute_inference_duration_chain (first : Event) (rest : list Event) :
  compute_inference_duration (first :: rest)
  = assign_first (pop_durations first)
      :: chain (ts first) (map pop_durations rest).
Proof.
  unfold compute_inference_duration. cbn [map update_at List.length].
  replace (S (List.length (map pop_durations rest)) - 1)%nat
    with (List.length (map pop_durations rest)) by lia.
  pose proof (duration_loop_chain (map pop_durations rest) []
                (assign_first (pop_durations first))) as L.
  cbn [List.length app] in L. rewrite L, ts_assign_first. reflexivity.
Qed.

Lemma compute_inference_duration_nil : compute_inference_duration [] = [].
Proof. reflexivity. Qed.

Lemma chain_length (t : option Datetime.datetime) (l : list Event) :
  List.length (chain t l) = List.length l.
Proof. revert t; induction l; intros; simpl; auto. Qed.

Lemma compute_inference_duration_length (events : list Event) :
  List.length (compute_inference_duration events) = List.length events.
Proof.
  destruct events as [|first rest]; [reflexivity|].
  rewrite compute_inference_duration_chain. simpl.
  now rewrite chain_length, length_map.
Qed.

(** Popping the duration keys first makes the pass blind to them. *)
Lemma pop_assign_duration (t : option Datetime.datetime) (ev : Event) :
  assign_duration t (pop_durations ev) = assign_duration t ev.
Proof.
  unfold assign_duration. rewrite ts_pop_durations.
  destruct t, (ts ev); reflexivity.
Qed.

Lemma pop_assign_first (ev : Event) :
  assign_first (pop_durations ev) = assign_first ev.
Proof.
  unfold assign_first. rewrite ts_pop_durations.
  destruct (ts ev); reflexivity.
Qed.

Lemma assign_duration_idem (t : option Datetime.datetime) (ev : Event) :
  assign_duration t (assign_duration t ev) = assign_duration t ev.
Proof.
  unfold assign_duration at 1. rewrite ts_assign_duration.
  unfold assign_duration.
  destruct t, (ts ev); try reflexivity.
  destruct (elapsed_ms _ _); reflexivity.
Qed.

Lemma assign_first_idem (ev : Event) :
  assign_first (assign_first ev) = assign_first ev.
Proof.
  unfold assign_first at 1. rewrite ts_assign_first.
  unfold assign_first. destruct (ts ev); reflexivity.
Qed.

Lemma chain_pop (t : option Datetime.datetime) (l : list Event) :
  chain t (map pop_durations l) = chain t l.
Proof.
  revert t; induction l as [|ev l IH]; intros t; cbn [map chain];
    [reflexivity|].
  now rewrite pop_assign_duration, ts_pop_durations, IH.
Qed.

Lemma chain_idem (t : option Datetime.datetime) (l : list Event) :
  chain t (chain t l) = chain t l.
Proof.
  revert t; induction l as [|ev l IH]; intros t; cbn [chain];
    [reflexivity|].
  now rewrite assign_duration_idem, ts_assign_duration, IH.
Qed.

(** C9. Running [compute_inference_duration] on its own result gives
    that result again: every event keeps the [duration_ms] and
    [duration_hms] of the first run. *)
Theorem compute_inference_duration_idempotent (events : list Event) :
  compute_inference_duration (compute_inference_duration events)
  = compute_inference_duration events
  /\ map get_duration_ms
         (compute_inference_duration (compute_inference_duration events))
     = map get_duration_ms (compute_inference_duration events)
  /\ map get_duration_hms
         (compute_inference_duration (compute_inference_duration events))
     = map get_duration_hms (compute_inference_duration events).
Proof.
  assert (E : compute_inference_duration (compute_inference_duration events)
              = compute_inference_duration events).
  { destruct events as [|first rest]; [reflexivity|].
    rewrite !compute_inference_duration_chain.
    rewrite !chain_pop, !pop_assign_first, ts_assign_first.
    now rewrite assign_first_idem, chain_idem. }
  now rewrite E.
Qed.

(** ** Binary64 rounding *)

Lemma rne_error (n d : Z) :
  0 <= n -> 0 < d -> - d <= 2 * (B64.rne n d * d - n) <= d.
Proof.
  intros Hn Hd. unfold B64.rne.
  pose proof (Z.div_mod n d ltac:(lia)) as E.
  pose proof (Z.mod_pos_bound n d Hd) as R.
  destruct (Z.ltb_spec (2 * (n mod d)) d); [nia|].
  destruct (Z.ltb_spec d (2 * (n mod d))); [nia|].
  destruct (Z.even (n / d)); nia.
Qed.

Lemma rne_between (n d a b : Z) :
  0 <= n -> 0 < d -> a * d <= n <= b * d -> a <= B64.rne n d <= b.
Proof.
  intros Hn Hd [Ha Hb]. unfold B64.rne.
  pose proof (Z.div_mod n d ltac:(lia)) as E.
  pose proof (Z.mod_pos_bound n d Hd) as R.
  assert (a <= n / d) by (apply Z.div_le_lower_bound; lia).
  assert (n / d <= b) by (apply Z.div_le_upper_bound; lia).
  assert (n / d < b \/ (n / d = b /\ n mod d = 0)) by nia.
  destruct (Z.ltb_spec (2 * (n mod d)) d); [lia|].
  destruct (Z.ltb_spec d (2 * (n mod d))); [lia|].
  destruct (Z.even (n / d)); lia.
Qed.

(** [n / d] against [c * 2^e], after clearing the negative exponents. *)
Lemma scaled_lt_shift (n d e K c : Z) :
  0 <= K -> 0 <= K + e ->
  (B64.scaled_num n e < c * B64.scaled_den d e <-> n * 2 ^ K < c * d * 2 ^ (K + e)).
Proof.
  intros HK HKe. unfold B64.scaled_num, B64.scaled_den.
  destruct (Z.le_gt_cases 0 e) as [He|He].
  - rewrite (Z.max_r (- e) 0), (Z.max_l e 0) by lia.
    rewrite Z.pow_add_r by lia.
    pose proof (Z.pow_pos_nonneg 2 K ltac:(lia) HK).
    pose proof (Z.pow_pos_nonneg 2 e ltac:(lia) He).
    change (2 ^ 0) with 1. nia.
  - rewrite (Z.max_l (- e) 0), (Z.max_r e 0) by lia.
    replace K with ((K + e) + - e) at 1 by lia.
    rewrite Z.pow_add_r by lia.
    pose proof (Z.pow_pos_nonneg 2 (K + e) ltac:(lia) HKe).
    pose proof (Z.pow_pos_nonneg 2 (- e) ltac:(lia) ltac:(lia)).
    change (2 ^ 0) with 1. nia.
Qed.

Lemma scaled_le_shift (n d e K c : Z) :
  0 <= K -> 0 <= K + e ->
  (c * B64.scaled_den d e <= B64.scaled_num n e <-> c * d * 2 ^ (K + e) <= n * 2 ^ K).
Proof.
  intros HK HKe. pose proof (scaled_lt_shift n d e K c HK HKe). lia.
Qed.

Lemma ilog2_ratio_spec (n d K : Z) :
  0 < n -> 0 < d -> 0 <= K -> 0 <= K + B64.ilog2_ratio n d ->
  d * 2 ^ (K + B64.ilog2_ratio n d) <= n * 2 ^ K
  /\ n * 2 ^ K < d * 2 ^ (K + B64.ilog2_ratio n d + 1).
Proof.
  intros Hn Hd HK. unfold B64.ilog2_ratio.
  pose proof (Z.log2_spec n Hn) as [An An'].
  pose proof (Z.log2_spec d Hd) as [Bd Bd'].
  pose proof (Z.log2_nonneg n) as Ha. pose proof (Z.log2_nonneg d) as Hb.
  set (a := Z.log2 n) in *. set (b := Z.log2 d) in *.
  pose proof (Z.pow_pos_nonneg 2 K ltac:(lia) HK) as PK.
  destruct (Z.ltb_spec (B64.scaled_num n (a - b)) (B64.scaled_den d (a - b)))
    as [T|T]; intros HE.
  - pose proof (proj1 (scaled_lt_shift n d (a - b) K 1 HK ltac:(lia))
                  ltac:(lia)) as U.
    replace (K + (a - b - 1) + 1) with (K + (a - b)) by lia.
    split; [|lia].
    assert (P : 2 ^ (b + 1) * 2 ^ (K + (a - b - 1)) = 2 ^ K * 2 ^ a).
    { rewrite <- !Z.pow_add_r by lia. f_equal; lia. }
    pose proof (Z.pow_pos_nonneg 2 (K + (a - b - 1)) ltac:(lia) HE).
    nia.
  - pose proof (proj1 (scaled_le_shift n d (a - b) K 1 HK HE) ltac:(lia)) as L.
    split; [lia|].
    assert (P : 2 ^ b * 2 ^ (K + (a - b) + 1) = 2 ^ K * 2 ^ (a + 1)).
    { rewrite <- !Z.pow_add_r by lia. f_equal; lia. }
    pose proof (Z.pow_pos_nonneg 2 (K + (a - b) + 1) ltac:(lia) ltac:(lia)).
    nia.
Qed.

Lemma scaled_den_pos (d e : Z) : 0 < d -> 0 < B64.scaled_den d e.
Proof.
  intros H. unfold B64.scaled_den.
  pose proof (Z.pow_pos_nonneg 2 (Z.max e 0) ltac:(lia) ltac:(lia)). nia.
Qed.

Lemma scaled_num_nonneg (n e : Z) : 0 <= n -> 0 <= B64.scaled_num n e.
Proof.
  intros H. unfold B64.scaled_num.
  pose proof (Z.pow_pos_nonneg 2 (Z.max (- e) 0) ltac:(lia) ltac:(lia)). nia.
Qed.

(** A quotient in the normal range rounds to 53 bits at the exponent
    of its binary logarithm. *)
Lemma round_pos_normal (n d : Z) :
  0 < n -> 0 < d -> -1022 <= B64.ilog2_ratio n d <= 1022 ->
  let e := B64.ilog2_ratio n d - 52 in
  let m := B64.rne (B64.scaled_num n e) (B64.scaled_den d e) in
  B64.round_pos n d = B64.Fin m e /\ 2 ^ 52 <= m <= 2 ^ 53
  /\ - B64.scaled_den d e <= 2 * (m * B64.scaled_den d e - B64.scaled_num n e)
       <= B64.scaled_den d e.
Proof.
  intros Hn Hd HE e m.
  pose proof (scaled_den_pos d e Hd) as HD.
  pose proof (scaled_num_nonneg n e ltac:(lia)) as HN.
  assert (Hm : 2 ^ 52 <= m <= 2 ^ 53).
  { destruct (ilog2_ratio_spec n d 1100 Hn Hd ltac:(lia) ltac:(lia)) as [L U].
    apply rne_between; [exact HN | exact HD |].
    split.
    - apply (scaled_le_shift n d e 1100 (2 ^ 52)); [lia | subst e; lia |].
      replace (2 ^ 52 * d * 2 ^ (1100 + e))
        with (d * (2 ^ 52 * 2 ^ (1100 + e))) by ring.
      rewrite <- Z.pow_add_r by (subst e; lia).
      replace (52 + (1100 + e)) with (1100 + B64.ilog2_ratio n d)
        by (subst e; lia).
      exact L.
    - assert (S : B64.scaled_num n e < 2 ^ 53 * B64.scaled_den d e); [|lia].
      apply (scaled_lt_shift n d e 1100 (2 ^ 53)); [lia | subst e; lia |].
      replace (2 ^ 53 * d * 2 ^ (1100 + e))
        with (d * (2 ^ 53 * 2 ^ (1100 + e))) by ring.
      rewrite <- Z.pow_add_r by (subst e; lia).
      replace (53 + (1100 + e)) with (1100 + B64.ilog2_ratio n d + 1)
        by (subst e; lia).
      exact U. }
  split; [|split; [exact Hm | apply rne_error; [exact HN | exact HD]]].
  unfold B64.round_pos.
  replace (Z.max (B64.ilog2_ratio n d - 52) (-1074)) with e by (subst e; lia).
  fold m.
  assert (Z.log2 m <= 53).
  { rewrite <- (Z.log2_pow2 53) by lia. apply Z.log2_le_mono. lia. }
  destruct (Z.leb_spec 1024 (Z.log2 m + e)); [subst e; lia | reflexivity].
Qed.

Lemma of_int_1000 : B64.of_int 1000 = B64.Fin 8796093022208000 (-43).
Proof. vm_compute. reflexivity. Qed.

Lemma ilog2_ratio_bounds (n d : Z) :
  Z.log2 n - Z.log2 d - 1 <= B64.ilog2_ratio n d <= Z.log2 n - Z.log2 d.
Proof. unfold B64.ilog2_ratio. destruct (_ <? _); lia. Qed.

Lemma float_ms_pos (us : Z) :
  0 < us < 2 ^ 52 ->
  exists m e,
    e < 0 /\ 0 <= m
    /\ B64.mul (B64.of_ratio us 1000000) (B64.of_int 1000) = B64.Fin m e
    /\ B64.mul (B64.of_ratio (- us) 1000000) (B64.of_int 1000) = B64.Fin (- m) e
    /\ (us mod 1000 <> 0 -> m / 2 ^ (- e) = us / 1000)
    /\ (us mod 1000 = 0 ->
        m / 2 ^ (- e) = us / 1000 \/ m / 2 ^ (- e) = us / 1000 - 1).
Proof.
  intros Hus.
  (* first rounding *)
  pose proof (ilog2_ratio_bounds us 1000000) as HE1.
  change (Z.log2 1000000) with 19 in HE1.
  assert (Hl : 0 <= Z.log2 us < 52).
  { split; [apply Z.log2_nonneg | apply Z.log2_lt_pow2; lia]. }
  destruct (round_pos_normal us 1000000 ltac:(lia) ltac:(lia) ltac:(lia))
    as (R1 & Hm1 & Err1).
  set (E1 := B64.ilog2_ratio us 1000000) in *.
  set (e1 := E1 - 52) in *.
  set (m1 := B64.rne (B64.scaled_num us e1) (B64.scaled_den 1000000 e1)) in *.
  unfold B64.scaled_num, B64.scaled_den in Err1.
  rewrite (Z.max_l (- e1) 0), (Z.max_r e1 0) in Err1 by (subst e1; lia).
  change (2 ^ 0) with 1 in Err1.
  set (A := 2 ^ (- e1)) in *.
  assert (HA : 2 ^ 20 <= A).
  { subst A. apply Z.pow_le_mono_r; subst e1; lia. }
  (* the product *)
  set (c := 8796093022208000).
  set (n2 := m1 * c).
  set (d2 := 2 ^ 43 * A).
  assert (Hd2 : d2 = 2 ^ (43 - e1)).
  { subst d2 A. rewrite <- Z.pow_add_r by (subst e1; lia). f_equal; lia. }
  assert (Hn2 : 2 ^ 104 <= n2 <= 2 ^ 106) by (subst n2 c; lia).
  assert (Hln : 104 <= Z.log2 n2 <= 106).
  { split.
    - rewrite <- (Z.log2_pow2 104) by lia. apply Z.log2_le_mono. lia.
    - rewrite <- (Z.log2_pow2 106) by lia. apply Z.log2_le_mono. lia. }
  assert (Hld : Z.log2 d2 = 43 - e1).
  { rewrite Hd2. apply Z.log2_pow2. subst e1; lia. }
  pose proof (ilog2_ratio_bounds n2 d2) as HE2.
  assert (Hd2pos : 0 < d2) by (subst d2; lia).
  destruct (ilog2_ratio_spec n2 d2 200 ltac:(lia) Hd2pos ltac:(lia)
              ltac:(subst e1; lia)) as [L2 _].
  assert (HE2' : B64.ilog2_ratio n2 d2 <= E1 + 10).
  { destruct (Z.le_gt_cases (B64.ilog2_ratio n2 d2) (E1 + 10)) as [|G];
      [assumption|exfalso].
    assert (P : 2 ^ (211 + E1) <= 2 ^ (200 + B64.ilog2_ratio n2 d2))
      by (apply Z.pow_le_mono_r; subst e1; lia).
    assert (Q : d2 * 2 ^ (211 + E1) = 2 ^ 306).
    { rewrite Hd2, <- Z.pow_add_r by (subst e1; lia). f_equal; subst e1; lia. }
    assert (n2 * 2 ^ 200 < 2 ^ 306) by (subst n2 c; lia).
    nia. }
  destruct (round_pos_normal n2 d2 ltac:(lia) Hd2pos ltac:(subst e1; lia))
    as (R2 & Hm2 & Err2).
  set (E2 := B64.ilog2_ratio n2 d2) in *.
  set (e2 := E2 - 52) in *.
  set (m2 := B64.rne (B64.scaled_num n2 e2) (B64.scaled_den d2 e2)) in *.
  unfold B64.scaled_num, B64.scaled_den in Err2.
  rewrite (Z.max_l (- e2) 0), (Z.max_r e2 0) in Err2 by (subst e2 e1; lia).
  change (2 ^ 0) with 1 in Err2.
  set (B := 2 ^ (- e2)) in *.
  assert (HB : 2 ^ 10 <= B).
  { subst B. apply Z.pow_le_mono_r; subst e2 e1; lia. }
  exists m2, e2.
  assert (He2 : e2 < 0) by (subst e2 e1; lia).
  assert (Shape : forall x, B64.mul (B64.Fin x e1) (B64.Fin c (-43))
                           = B64.of_ratio (x * c) d2).
  { intros x. unfold B64.mul, B64.scaled_num, B64.scaled_den.
    rewrite (Z.max_r (- - (e1 + -43)) 0) by (subst e1; lia).
    rewrite (Z.max_l (- (e1 + -43)) 0) by (subst e1; lia).
    change (2 ^ 0) with 1.
    f_equal; [ring | rewrite Hd2, Z.mul_1_l; f_equal; lia]. }
  split; [exact He2|]. split; [lia|].
  split; [|split].
  - rewrite of_int_1000. unfold B64.of_ratio at 1.
    destruct (Z.eqb_spec us 0); [lia|]. destruct (Z.ltb_spec us 0); [lia|].
    rewrite R1, Shape. fold n2. unfold B64.of_ratio.
    destruct (Z.eqb_spec n2 0); [lia|]. destruct (Z.ltb_spec n2 0); [lia|].
    exact R2.
  - rewrite of_int_1000. unfold B64.of_ratio at 1.
    destruct (Z.eqb_spec (- us) 0); [lia|].
    destruct (Z.ltb_spec (- us) 0); [|lia].
    rewrite Z.opp_involutive, R1. cbn [B64.neg]. rewrite Shape.
    replace (- m1 * c) with (- n2) by (subst n2; ring).
    unfold B64.of_ratio.
    destruct (Z.eqb_spec (- n2) 0); [lia|].
    destruct (Z.ltb_spec (- n2) 0); [|lia].
    rewrite Z.opp_involutive, R2. reflexivity.
  - (* the error of the two roundings stays below one thousandth *)
    fold B.
    assert (F : - (500000 * B + 500 * A)
                <= 1000 * (m2 * A) - us * (A * B) <= 500000 * B + 500 * A).
    { subst n2 d2 c. nia. }
    assert (G : 500000 * B + 500 * A < A * B).
    { pose proof (Z.mul_nonneg_nonneg (A - 2 ^ 20) (B - 2 ^ 10)
                    ltac:(lia) ltac:(lia)) as PG.
      change (2 ^ 20) with 1048576 in *. change (2 ^ 10) with 1024 in *.
      lia. }
    pose proof (Z.div_mod us 1000 ltac:(lia)) as D.
    pose proof (Z.mod_pos_bound us 1000 ltac:(lia)) as Dr.
    assert (PB : 0 < B) by lia. assert (PA : 0 < A) by lia.
    assert (PAB : 0 < A * B) by (apply Z.mul_pos_pos; assumption).
    set (q := us / 1000) in *. set (r := us mod 1000) in *.
    assert (F' : - (500000 * B + 500 * A)
                 <= 1000 * (m2 * A) - 1000 * q * (A * B) - r * (A * B)
                 <= 500000 * B + 500 * A).
    { replace (1000 * q * (A * B) + r * (A * B)) with (us * (A * B)) in *
        by (rewrite D; ring).
      replace (1000 * (m2 * A) - 1000 * q * (A * B) - r * (A * B))
        with (1000 * (m2 * A) - us * (A * B)) by (rewrite D; ring).
      exact F. }
    split.
    + intros Hr.
      pose proof (Z.mul_nonneg_nonneg (r - 1) (A * B) ltac:(lia) ltac:(lia)).
      pose proof (Z.mul_nonneg_nonneg (999 - r) (A * B) ltac:(lia) ltac:(lia)).
      symmetry. apply Z.div_unique_pos with (r := m2 - B * q); [|lia].
      split.
      * assert (0 < A * (m2 - B * q)) by lia.
        apply Z.lt_le_incl. apply (Z.mul_pos_cancel_l A); assumption.
      * assert (0 < A * (B * q + B - m2)) by lia.
        assert (0 < B * q + B - m2)
          by (apply (Z.mul_pos_cancel_l A); assumption).
        lia.
    + intros Hr.
      assert (Lo : 0 < m2 - B * (q - 1)).
      { assert (0 < A * (m2 - B * (q - 1))) by lia.
        apply (Z.mul_pos_cancel_l A); assumption. }
      assert (Hi : 0 < B * (q + 1) - m2).
      { assert (0 < A * (B * (q + 1) - m2)) by lia.
        apply (Z.mul_pos_cancel_l A); assumption. }
      destruct (Z.lt_ge_cases m2 (B * q)).
      * right. symmetry.
        apply Z.div_unique_pos with (r := m2 - B * (q - 1)); lia.
      * left. symmetry.
        apply Z.div_unique_pos with (r := m2 - B * q); lia.
Qed.

(** The conversion [int(td.total_seconds() * 1000)] of a difference
    below [2^52] microseconds (about 142 years): it is the number of
    whole milliseconds, truncated toward zero, unless the difference
    is an exact multiple of a millisecond, where the two roundings may
    leave the product just under the integer. *)
Lemma ms_of_timedelta_exact (td : Z) :
  Z.abs td < 2 ^ 52 ->
  exists ms,
    ms_of_timedelta td = Ok ms
    /\ (td mod 1000 <> 0 -> ms = Z.quot td 1000)
    /\ (td mod 1000 = 0 ->
        ms = Z.quot td 1000 \/ ms = Z.quot td 1000 - Z.sgn td).
Proof.
  intros Hb. unfold ms_of_timedelta, Datetime.total_seconds.
  destruct (Z.lt_trichotomy td 0) as [Neg | [-> | Pos]].
  - destruct (float_ms_pos (- td) ltac:(lia))
      as (m & e & He & Hm & _ & Mul & Hne & Heq).
    rewrite Z.opp_involutive in Mul. rewrite Mul.
    unfold B64.to_int, B64.scaled_num, B64.scaled_den.
    rewrite (Z.max_r (- - e) 0), (Z.max_l (- e) 0) by lia.
    change (2 ^ 0) with 1. rewrite Z.mul_1_r, Z.mul_1_l.
    pose proof (Z.pow_pos_nonneg 2 (- e) ltac:(lia) ltac:(lia)) as PB.
    rewrite Z.quot_opp_l, Z.quot_div_nonneg by lia.
    exists (- (m / 2 ^ (- e))). split; [reflexivity|].
    assert (Q : Z.quot td 1000 = - (- td / 1000)).
    { replace td with (- - td) at 1 by lia.
      rewrite Z.quot_opp_l, Z.quot_div_nonneg by lia. reflexivity. }
    assert (M : td mod 1000 = 0 <-> (- td) mod 1000 = 0).
    { rewrite !Z.mod_divide by lia. split; intros [k Hk]; exists (- k); lia. }
    rewrite Q. split.
    + intros H. rewrite Hne by tauto. reflexivity.
    + intros H. rewrite Z.sgn_neg by lia.
      destruct (Heq (proj1 M H)) as [-> | ->]; lia.
  - exists 0. repeat split; try (vm_compute; reflexivity). left; reflexivity.
  - destruct (float_ms_pos td ltac:(lia))
      as (m & e & He & Hm & Mul & _ & Hne & Heq).
    rewrite Mul.
    unfold B64.to_int, B64.scaled_num, B64.scaled_den.
    rewrite (Z.max_r (- - e) 0), (Z.max_l (- e) 0) by lia.
    change (2 ^ 0) with 1. rewrite Z.mul_1_r, Z.mul_1_l.
    pose proof (Z.pow_pos_nonneg 2 (- e) ltac:(lia) ltac:(lia)) as PB.
    rewrite Z.quot_div_nonneg by lia.
    exists (m / 2 ^ (- e)). split; [reflexivity|].
    rewrite Z.quot_div_nonneg by lia. split.
    + exact Hne.
    + intros H. rewrite Z.sgn_pos by lia. exact (Heq H).
Qed.

(** ** The durations of an event sequence *)

Lemma sub_instants (c p : Datetime.datetime) :
  same_awareness c p = true ->
  Datetime.sub c p = Ok (instant_us c - instant_us p).
Proof.
  unfold same_awareness, Datetime.sub, instant_us.
  destruct (Datetime.tzoffset c), (Datetime.tzoffset p);
    try discriminate; intros _; f_equal; lia.
Qed.

Lemma sub_mixed (c p : Datetime.datetime) :
  same_awareness c p = false -> exists msg, Datetime.sub c p = Raise msg.
Proof.
  unfold same_awareness, Datetime.sub.
  destruct (Datetime.tzoffset c), (Datetime.tzoffset p);
    try discriminate; intros _; eexists; reflexivity.
Qed.

Lemma get_duration_ms_assign (tp : option Datetime.datetime) (cur : Event) :
  get_duration_ms (assign_duration tp cur) = computed_duration tp (ts cur).
Proof.
  unfold assign_duration, computed_duration.
  destruct tp, (ts cur); try reflexivity.
  destruct (elapsed_ms _ _); reflexivity.
Qed.

Lemma get_duration_ms_assign_first (first : Event) :
  get_duration_ms (assign_first first) = stated_first_duration (ts first).
Proof. unfold assign_first. destruct (ts first); reflexivity. Qed.

(** The [j]-th event of the pass sees the timestamp before it. *)
Lemma chain_nth_error (l : list Event) (t0 : option Datetime.datetime)
      (j : nat) (cur : Event) :
  nth_error l j = Some cur ->
  nth_error (chain t0 l) j
  = Some (assign_duration
            (match j with
             | O => t0
             | S j' => match nth_error l j' with
                       | Some p => ts p
                       | None => None
                       end
             end) cur).
Proof.
  revert t0 j. induction l as [|x l IH]; intros t0 [|j] H;
    try discriminate; cbn [chain nth_error] in *.
  - now inversion H.
  - rewrite (IH (ts x) j H). destruct j as [|j]; reflexivity.
Qed.

(** Every event after the first gets the conversion of the difference
    to its predecessor, in list order. *)
Lemma compute_inference_duration_nth (events : list Event) (i : nat)
      (prev cur : Event) :
  (0 < i)%nat ->
  nth_error events (i - 1) = Some prev ->
  nth_error events i = Some cur ->
  exists o, nth_error (compute_inference_duration events) i = Some o
            /\ get_duration_ms o = computed_duration (ts prev) (ts cur).
Proof.
  intros Hi Hp Hc.
  destruct events as [|first rest]; [destruct i; discriminate|].
  destruct i as [|j]; [lia|].
  rewrite compute_inference_duration_chain, chain_pop.
  cbn [nth_error] in *. replace (S j - 1)%nat with j in Hp by lia.
  rewrite (chain_nth_error rest (ts first) j cur Hc).
  eexists; split; [reflexivity|].
  rewrite get_duration_ms_assign.
  destruct j as [|j']; cbn [nth_error] in Hp.
  - now inversion Hp.
  - now rewrite Hp.
Qed.

Lemma compute_inference_duration_first (first : Event) (rest : list Event) :
  exists o, nth_error (compute_inference_duration (first :: rest)) 0 = Some o
            /\ get_duration_ms o = stated_first_duration (ts first).
Proof.
  rewrite compute_inference_duration_chain. eexists; split; [reflexivity|].
  now rewrite pop_assign_first, get_duration_ms_assign_first.
Qed.

(** C3, as the code has it. After [compute_inference_duration] the
    first event has duration 0 when its timestamp is present, else
    null. For an event after the first the duration is null when
    either timestamp is absent or when one is naive and the other
    timezone-aware (the subtraction raises and the [except] clause
    stores null); when both are present and of one kind, it is the
    result of [int(total_seconds * 1000)] on their difference in raw
    sequence order, negative differences included, and that is the
    difference in whole milliseconds (truncated toward zero) whenever
    the difference is below [2^52] microseconds and not an exact
    multiple of a millisecond. *)
Theorem compute_inference_duration_durations (events : list Event) :
  let out := compute_inference_duration events in
  List.length out = List.length events
  /\ (forall first, nth_error events 0 = Some first ->
        exists o, nth_error out 0 = Some o
                  /\ get_duration_ms o = stated_first_duration (ts first))
  /\ (forall i prev cur, (0 < i)%nat ->
        nth_error events (i - 1) = Some prev ->
        nth_error events i = Some cur ->
        exists o,
          nth_error out i = Some o
          /\ match ts prev, ts cur with
             | Some p, Some c =>
                 if same_awareness c p
                 then get_duration_ms o = or_none (elapsed_ms c p)
                      /\ (Z.abs (instant_us c - instant_us p) < 2 ^ 52 ->
                          (instant_us c - instant_us p) mod 1000 <> 0 ->
                          get_duration_ms o = stated_duration (ts prev) (ts cur))
                 else get_duration_ms o = None
             | _, _ => get_duration_ms o = None
             end).
Proof.
  intros out. split; [apply compute_inference_duration_length|]. split.
  - intros first H. destruct events as [|x rest]; [discriminate|].
    cbn [nth_error] in H. inversion H; subst x.
    apply compute_inference_duration_first.
  - intros i prev cur Hi Hp Hc.
    destruct (compute_inference_duration_nth events i prev cur Hi Hp Hc)
      as (o & Ho & D).
    exists o. split; [exact Ho|]. rewrite D.
    destruct (ts prev) as [p|], (ts cur) as [c|]; try reflexivity.
    cbn [computed_duration]. destruct (same_awareness c p) eqn:S.
    + split; [reflexivity|]. intros Hb Hm.
      unfold elapsed_ms. rewrite sub_instants by exact S. cbn [bind].
      destruct (ms_of_timedelta_exact _ Hb) as (ms & -> & E & _).
      cbn [or_none stated_duration]. now rewrite E.
    + destruct (sub_mixed c p S) as (msg & E).
      unfold elapsed_ms. rewrite E. reflexivity.
Qed.

Lemma compute_inference_duration_durations_witness :
  exists o, nth_error (compute_inference_duration capture_events) 1 = Some o
            /\ get_duration_ms o = Some 218.
Proof.
  destruct (compute_inference_duration_durations capture_events) as (_ & _ & H).
  destruct (H 1%nat
              (event_at (Some (naive 2025 12 29 18 29 25 428165)) "capture")
              (event_at (Some (naive 2025 12 29 18 29 25 646733)) "capture")
              ltac:(lia) eq_refl eq_refl) as (o & Ho & P).
  exists o. split; [exact Ho|].
  cbn [ts event_at same_awareness naive Datetime.tzoffset] in P.
  destruct P as [_ P]. rewrite P.
  - vm_compute. reflexivity.
  - vm_compute. reflexivity.
  - vm_compute. discriminate.
Defined.

(** The claim of the specification fails on a naive timestamp followed
    by an aware one (the duration is null although both are present)
    and on two timestamps 1.001 s apart (the duration is 1000, not
    1001). *)
Lemma durations_as_stated_fails :
  ~ durations_as_stated mixed_events /\ ~ durations_as_stated slipped_events.
Proof.
  split; intros [_ H].
  - specialize (H 1%nat
      (event_at (Some (naive 2025 12 29 18 29 25 0)) "running inference")
      (event_at (Some (aware 2025 12 29 18 29 26 0 0)) "finished inference")).
    destruct (nth_error (compute_inference_duration mixed_events) 1) as [o|] eqn:E;
      [|vm_compute in E; discriminate].
    specialize (H o ltac:(lia) eq_refl eq_refl eq_refl).
    vm_compute in E. inversion E; subst o. vm_compute in H. discriminate.
  - specialize (H 1%nat
      (event_at (Some (naive 2025 12 29 18 29 25 0)) "running inference")
      (event_at (Some (naive 2025 12 29 18 29 26 1000)) "finished inference")).
    destruct (nth_error (compute_inference_duration slipped_events) 1) as [o|] eqn:E;
      [|vm_compute in E; discriminate].
    specialize (H o ltac:(lia) eq_refl eq_refl eq_refl).
    vm_compute in E. inversion E; subst o. vm_compute in H. discriminate.
Qed.

(** The two durations that the code stores on those inputs. *)
Example mixed_events_duration :
  map get_duration_ms (compute_inference_duration mixed_events)
  = [Some 0; None].
Proof. vm_compute. reflexivity. Qed.

Example slipped_events_duration :
  map get_duration_ms (compute_inference_duration slipped_events)
  = [Some 0; Some 1000]
  /\ stated_duration (Some (naive 2025 12 29 18 29 25 0))
                     (Some (naive 2025 12 29 18 29 26 1000)) = Some 1001.
Proof. vm_compute. split; reflexivity. Qed.

(** ** The matcher: groups of a successful match *)

Lemma rep_greedy_some {R : Type} (p : ascii -> bool) (min : nat) (s : str)
      (k : str -> option R) (r : R) :
  Re.rep_greedy p min s k = Some r -> exists s', k s' = Some r.
Proof.
  revert min. induction s as [|c s IH]; intros min; cbn [Re.rep_greedy].
  - destruct min; [eauto | discriminate].
  - destruct (p c).
    + destruct (Re.rep_greedy p (Nat.pred min) s k) eqn:E.
      * intros H; inversion H; subst. eapply IH; eassumption.
      * destruct min; [eauto | discriminate].
    + destruct min; [eauto | discriminate].
Qed.

Lemma rep_lazy_some {R : Type} (p : ascii -> bool) (min : nat) (s : str)
      (k : str -> option R) (r : R) :
  Re.rep_lazy p min s k = Some r -> exists s', k s' = Some r.
Proof.
  revert min. induction s as [|c s IH]; intros min; cbn [Re.rep_lazy].
  - destruct min; [|discriminate]. destruct (k []) eqn:E; [|discriminate].
    intros H; inversion H; subst; eauto.
  - destruct min as [|min].
    + destruct (k (c :: s)) eqn:E.
      * intros H; inversion H; subst; eauto.
      * destruct (p c); [apply IH | discriminate].
    + destruct (p c); [apply IH | discriminate].
Qed.

(** A successful run reaches its continuation with every group of the
    pattern set and no earlier group lost. *)
Lemma run_binds (subject : str) (r : Re.regex) :
  forall s caps k m,
    Re.run subject r s caps k = Some m ->
    exists s' caps',
      k s' caps' = Some m
      /\ forall name,
           binds r name = true \/ Re.group name caps <> None ->
           Re.group name caps' <> None.
Proof.
  induction r as [| | |p|r1 IH1 r2 IH2|g min p|r1 IH1|n r1 IH1];
    intros s caps k m H; cbn [Re.run binds] in *.
  - exists s, caps. split; [exact H|]. intros name [?|?]; [discriminate|auto].
  - destruct (Nat.eqb _ _); [|discriminate].
    exists s, caps. split; [exact H|]. intros name [?|?]; [discriminate|auto].
  - exists s, caps. split.
    + destruct s as [|c [|? ?]]; try discriminate; [exact H|].
      destruct (Py.char_eqb c _); [exact H | discriminate].
    + intros name [?|?]; [discriminate|auto].
  - destruct s as [|c s]; [discriminate|].
    destruct (p c); [|discriminate].
    exists s, caps. split; [exact H|]. intros name [?|?]; [discriminate|auto].
  - apply IH1 in H. destruct H as (s1 & caps1 & H & B1).
    apply IH2 in H. destruct H as (s2 & caps2 & H & B2).
    exists s2, caps2. split; [exact H|].
    intros name [B|B].
    + apply orb_true_iff in B. destruct B as [B|B]; [|auto].
      apply B2. right. apply B1. auto.
    + apply B2. right. apply B1. auto.
  - assert (exists s', k s' caps = Some m) as (s' & Hs).
    { destruct g; [eapply rep_greedy_some | eapply rep_lazy_some];
        exact H. }
    exists s', caps. split; [exact Hs|].
    intros name [?|?]; [discriminate|auto].
  - destruct (Re.run subject r1 s caps k) eqn:E.
    + inversion H; subst. apply IH1 in E.
      destruct E as (s1 & caps1 & E & B1).
      exists s1, caps1. split; [exact E|].
      intros name [?|?]; [discriminate|auto].
    + exists s, caps. split; [exact H|].
      intros name [?|?]; [discriminate|auto].
  - apply IH1 in H. destruct H as (s1 & caps1 & H & B1).
    eexists s1, _. split; [exact H|].
    intros name B. cbn [Re.group].
    destruct (String.eqb n name) eqn:E; [discriminate|].
    apply B1. destruct B as [B|B]; [|auto].
    left. rewrite ?E in B. exact B.
Qed.

Lemma re_match_binds (r : Re.regex) (s : str) (m : Re.matched) (name : string) :
  Re.re_match r s = Some m -> binds r name = true ->
  exists v, Re.group name (Re.m_groups m) = Some v.
Proof.
  intros H B. apply run_binds in H. destruct H as (s' & caps' & H & G).
  inversion H; subst m. cbn [Re.m_groups].
  specialize (G name (or_introl B)).
  destruct (Re.group name caps'); [eauto | congruence].
Qed.

(** ** [parse_log_lines] *)

(** A matched line gives one event; no group that the code strips is
    [None]. *)
Lemma parse_log_line_matched (fromisoformat : str -> exc Datetime.datetime)
      (ln : str) (m : Re.matched) :
  Py.strip ln <> [] ->
  Re.re_match LINE_RE (Py.strip ln) = Some m ->
  exists comp evt,
    Re.group "component" (Re.m_groups m) = Some comp
    /\ Re.group "event" (Re.m_groups m) = Some evt
    /\ parse_log_line fromisoformat ln
       = Ok [mkEvent (parse_ts fromisoformat m) (Some (Py.strip comp))
                     (Some (Py.strip evt))
                     (Py.strip (Py.or_empty
                                  (Re.group "details" (Re.m_groups m))))
                     (Py.strip ln) None None].
Proof.
  intros Hne Hm.
  destruct (re_match_binds LINE_RE _ m "component" Hm eq_refl) as (comp & Hc).
  destruct (re_match_binds LINE_RE _ m "event" Hm eq_refl) as (evt & He).
  exists comp, evt. split; [exact Hc|]. split; [exact He|].
  unfold parse_log_line.
  destruct (Py.strip ln) eqn:S; [congruence|].
  cbn [Py.truthy negb]. rewrite Hm.
  unfold group_strip. rewrite Hc, He. reflexivity.
Qed.

Lemma parse_log_line_unmatched (fromisoformat : str -> exc Datetime.datetime)
      (ln : str) :
  Py.strip ln <> [] ->
  Re.re_match LINE_RE (Py.strip ln) = None ->
  parse_log_line fromisoformat ln = Ok [degraded (Py.strip ln)].
Proof.
  intros Hne Hm. unfold parse_log_line.
  destruct (Py.strip ln) eqn:S; [congruence|].
  cbn [Py.truthy negb]. rewrite Hm. reflexivity.
Qed.

Lemma parse_log_line_blank (fromisoformat : str -> exc Datetime.datetime)
      (ln : str) :
  Py.strip ln = [] -> parse_log_line fromisoformat ln = Ok [].
Proof. intros H. unfold parse_log_line. rewrite H. reflexivity. Qed.

Lemma parse_log_line_total (fromisoformat : str -> exc Datetime.datetime)
      (ln : str) :
  exists new, parse_log_line fromisoformat ln = Ok new.
Proof.
  destruct (Py.strip ln) eqn:S.
  - eexists. apply parse_log_line_blank. exact S.
  - destruct (Re.re_match LINE_RE (Py.strip ln)) as [m|] eqn:M.
    + destruct (parse_log_line_matched fromisoformat ln m) as (? & ? & _ & _ & E);
        [congruence | exact M | eauto].
    + eexists. apply parse_log_line_unmatched; congruence.
Qed.

Lemma parse_log_lines_from_flat (fromisoformat : str -> exc Datetime.datetime)
      (lines : list str) (events : list Event) :
  parse_log_lines_from fromisoformat events lines
  = Ok (events ++ flat_map (line_events fromisoformat) lines).
Proof.
  revert events. induction lines as [|ln rest IH]; intros events;
    cbn [parse_log_lines_from flat_map].
  - now rewrite app_nil_r.
  - unfold line_events at 1.
    destruct (parse_log_line_total fromisoformat ln) as (new & ->).
    cbn [bind]. rewrite IH, app_assoc. reflexivity.
Qed.

(** C7. [parse_log_lines] returns normally on every list of lines. A
    line that matches the grammar but whose bracketed text fails
    [fromisoformat] still yields its event, with [ts] null and the
    component, event and details populated; a line outside the
    grammar yields the degraded record that keeps the raw line, also
    as its details. *)
Theorem parse_log_lines_never_raises
        (fromisoformat : str -> exc Datetime.datetime) (lines : list str) :
  exists events,
    parse_log_lines fromisoformat lines = Ok events
    /\ forall ln, In ln lines -> Py.strip ln <> [] ->
         (Re.re_match LINE_RE (Py.strip ln) = None ->
          exists ev, ev = degraded (Py.strip ln) /\ In ev events
            /\ ts ev = None /\ component ev = None /\ event ev = None
            /\ details ev = Py.strip ln /\ raw ev = Py.strip ln)
         /\ (forall m ts_s msg,
               Re.re_match LINE_RE (Py.strip ln) = Some m ->
               Re.group "ts" (Re.m_groups m) = Some ts_s ->
               fromisoformat ts_s = Raise msg ->
               exists comp evt,
                 Re.group "component" (Re.m_groups m) = Some comp
                 /\ Re.group "event" (Re.m_groups m) = Some evt
                 /\ In (mkEvent None (Some (Py.strip comp))
                                (Some (Py.strip evt))
                                (Py.strip (Py.or_empty
                                   (Re.group "details" (Re.m_groups m))))
                                (Py.strip ln) None None) events).
Proof.
  exists (flat_map (line_events fromisoformat) lines). split.
  - unfold parse_log_lines. now rewrite parse_log_lines_from_flat.
  - intros ln Hin Hne. split.
    + intros Hm. exists (degraded (Py.strip ln)).
      split; [reflexivity|]. split; [|repeat split].
      apply in_flat_map. exists ln. split; [exact Hin|].
      unfold line_events.
      rewrite (parse_log_line_unmatched fromisoformat ln Hne Hm).
      left; reflexivity.
    + intros m ts_s msg Hm Hts Hraise.
      destruct (parse_log_line_matched fromisoformat ln m Hne Hm)
        as (comp & evt & Hc & He & E).
      exists comp, evt. split; [exact Hc|]. split; [exact He|].
      apply in_flat_map. exists ln. split; [exact Hin|].
      unfold line_events. rewrite E.
      unfold parse_ts. rewrite Hts, Hraise. left; reflexivity.
Qed.

Lemma parse_log_lines_never_raises_witness :
  exists events,
    parse_log_lines Datetime.fromisoformat [bad_ts_line; free_text_line]
    = Ok events
    /\ In (degraded free_text_line) events
    /\ In (mkEvent None (Some (lit "TTS"))
                   (Some (lit "converted output to speech")) []
                   bad_ts_line None None) events.
Proof.
  destruct (parse_log_lines_never_raises Datetime.fromisoformat
              [bad_ts_line; free_text_line]) as (events & E & H).
  exists events. split; [exact E|]. split.
  - destruct (H free_text_line) as [D _];
      [right; left; reflexivity | vm_compute; discriminate |].
    destruct D as (ev & -> & Hin & _); [vm_compute; reflexivity|].
    exact Hin.
  - destruct (H bad_ts_line) as [_ M];
      [left; reflexivity | vm_compute; discriminate |].
    destruct (M (Re.mkMatched []
                   [("event"%string, lit "converted output to speech");
                    ("component"%string, lit "TTS");
                    ("ts"%string, lit "bad-ts")])
                (lit "bad-ts") Datetime.value_error)
      as (comp & evt & Hc & He & Hin);
      [vm_compute; reflexivity | reflexivity | vm_compute; reflexivity |].
    cbn in Hc, He. inversion Hc; inversion He; subst comp evt.
    exact Hin.
Defined.

(** ** [process_file] *)

(** [process_file] on a readable file never raises. *)
Lemma process_text_rows (fromisoformat : str -> exc Datetime.datetime)
      (text : str) (escenario : Z) (modo : str) :
  process_text fromisoformat text escenario modo
  = Ok (match event_rows (file_events fromisoformat text) (file_truth text)
                         (lit "LED") escenario modo with
        | [] => [no_result_row (file_events fromisoformat text)
                               (file_truth text) (lit "LED") escenario modo]
        | rows => rows
        end).
Proof.
  unfold process_text, parse_log_lines.
  rewrite parse_log_lines_from_flat. cbn [bind app].
  fold (file_events fromisoformat text). fold (file_truth text).
  destruct (event_rows _ _ _ _ _); reflexivity.
Qed.

Lemma in_event_rows (events : list Event) (truth : option str) (ilum : str)
      (escenario : Z) (modo : str) (r : Row) :
  In r (event_rows events truth ilum escenario modo) ->
  exists ev evt,
    In ev events /\ event ev = Some evt /\ Py.truthy evt = true
    /\ r = row_of_event ev evt truth ilum escenario modo.
Proof.
  induction events as [|ev rest IH]; cbn [event_rows]; [intros []|].
  destruct (event ev) as [evt|] eqn:E.
  - destruct (Py.truthy evt) eqn:T; cbn [negb].
    + intros [<- | H].
      * exists ev, evt. repeat split; auto. left; reflexivity.
      * destruct (IH H) as (ev' & evt' & ? & ? & ? & ?).
        exists ev', evt'. repeat split; auto. right; assumption.
    + intros H. destruct (IH H) as (ev' & evt' & ? & ? & ? & ?).
      exists ev', evt'. repeat split; auto. right; assumption.
  - intros H. destruct (IH H) as (ev' & evt' & ? & ? & ? & ?).
    exists ev', evt'. repeat split; auto. right; assumption.
Qed.

(** Every row of a file is an event row or the one summary row. *)
Lemma process_text_row_cases (fromisoformat : str -> exc Datetime.datetime)
      (text : str) (escenario : Z) (modo : str) (rows : list Row) (r : Row) :
  process_text fromisoformat text escenario modo = Ok rows ->
  In r rows ->
  (exists ev evt,
      In ev (file_events fromisoformat text) /\ event ev = Some evt
      /\ Py.truthy evt = true
      /\ r = row_of_event ev evt (file_truth text) (lit "LED") escenario modo)
  \/ (event_rows (file_events fromisoformat text) (file_truth text)
                 (lit "LED") escenario modo = []
      /\ rows = [r]
      /\ r = no_result_row (file_events fromisoformat text) (file_truth text)
                           (lit "LED") escenario modo).
Proof.
  rewrite process_text_rows. intros E Hin.
  pose proof (in_event_rows (file_events fromisoformat text) (file_truth text)
                (lit "LED") escenario modo r) as I.
  destruct (event_rows (file_events fromisoformat text) (file_truth text)
                       (lit "LED") escenario modo) as [|r0 rows0].
  - right. assert (rows = [no_result_row (file_events fromisoformat text)
                             (file_truth text) (lit "LED") escenario modo])
      by congruence.
    subst rows. destruct Hin as [<- | []]. auto.
  - left. apply I. assert (rows = r0 :: rows0) by congruence.
    subst rows. exact Hin.
Qed.

Lemma truthy_nonempty (s : str) : Py.truthy s = true <-> s <> [].
Proof. destruct s; cbn; split; congruence. Qed.

Lemma score_one (truth : option str) (label : str) :
  score truth label = CInt 1
  <-> (Py.or_empty truth <> [] /\ label <> []
       /\ Py.lower (Py.or_empty truth) = Py.lower label).
Proof.
  unfold score.
  destruct truth as [[|c t]|]; cbn [Py.truthy_opt Py.truthy Py.or_empty andb].
  - split; [discriminate | intros [H _]; congruence].
  - destruct label as [|d l]; cbn [Py.truthy].
    + split; [discriminate | intros (_ & H & _); congruence].
    + destruct (Py.str_eqb _ _) eqn:E.
      * apply str_eqb_eq in E. split; [|reflexivity].
        intros _. repeat split; [discriminate | discriminate | exact E].
      * split; [discriminate|]. intros (_ & _ & H).
        apply str_eqb_eq in H. congruence.
  - split; [discriminate | intros [H _]; congruence].
Qed.

Lemma score_absent (truth : option str) (label : str) :
  Py.or_empty truth = [] -> score truth label = CStr [].
Proof. destruct truth as [[|c t]|]; cbn; congruence. Qed.

(** C4. In every row that [process_file] returns, [acierto] is 1
    exactly when the ground-truth label and the predicted label are
    both non-empty and equal up to case; when the file has no ground
    truth (none found, or an empty one) the field is the empty string,
    never 0. *)
Theorem acierto_scoring (fromisoformat : str -> exc Datetime.datetime)
        (text : str) (escenario : Z) (modo : str) :
  exists rows,
    process_text fromisoformat text escenario modo = Ok rows
    /\ forall r, In r rows ->
         acierto_as_stated r
         /\ objeto_verdad r = Py.or_empty (file_truth text)
         /\ (Py.or_empty (file_truth text) = [] -> acierto r = CStr []).
Proof.
  eexists. split; [apply process_text_rows|].
  intros r Hin.
  destruct (process_text_row_cases fromisoformat text escenario modo _ r
              (process_text_rows _ _ _ _) Hin)
    as [(ev & evt & _ & _ & _ & ->) | (_ & _ & ->)].
  - cbn [row_of_event acierto objeto_verdad objeto_predicho acierto_as_stated].
    unfold acierto_as_stated. cbn [row_of_event acierto objeto_verdad objeto_predicho].
    split; [apply score_one|]. split; [reflexivity | apply score_absent].
  - unfold acierto_as_stated.
    cbn [no_result_row acierto objeto_verdad objeto_predicho].
    split; [|split; [reflexivity | reflexivity]].
    split; [discriminate | intros (_ & H & _); congruence].
Qed.

Lemma acierto_scoring_witness :
  exists r,
    process_text Datetime.fromisoformat cup_text 1 (lit "MOBILE") = Ok [r]
    /\ acierto_as_stated r /\ acierto r = CInt 1
    /\ objeto_verdad r = lit "cup" /\ objeto_predicho r = lit "Cup".
Proof.
  destruct (acierto_scoring Datetime.fromisoformat cup_text 1 (lit "MOBILE"))
    as (rows & E & H).
  assert (R : exists r, rows = [r] /\ acierto r = CInt 1
                        /\ objeto_verdad r = lit "cup"
                        /\ objeto_predicho r = lit "Cup").
  { vm_compute in E. inversion E. eexists. split; [reflexivity|].
    vm_compute. repeat split. }
  destruct R as (r & -> & A & V & P).
  exists r. split; [exact E|].
  destruct (H r (or_introl eq_refl)) as (S & _ & _). auto.
Defined.

(** ** The summary row *)

Lemma find_snoc {A : Type} (p : A -> bool) (l : list A) (x : A) :
  find p (l ++ [x])
  = match find p l with
    | Some y => Some y
    | None => if p x then Some x else None
    end.
Proof.
  induction l as [|y l IH]; cbn [app find]; [reflexivity|].
  destruct (p y); [reflexivity | exact IH].
Qed.

(** The forward [find] on the reversed list is the backward scan. *)
Lemma find_rev_last_available {A : Type} (p : Event -> bool)
      (f : Event -> option A) (events : list Event) :
  (forall ev, p ev = true <-> f ev <> None) ->
  match find p (rev events) with
  | Some ev => f ev
  | None => None
  end = last_available f events.
Proof.
  intros Hp. induction events as [|x l IH]; [reflexivity|].
  cbn [rev last_available]. rewrite find_snoc, <- IH.
  destruct (find p (rev l)) as [y|] eqn:F.
  - apply find_some in F. destruct F as [_ F]. apply Hp in F.
    destruct (f y); [reflexivity | congruence].
  - destruct (p x) eqn:P; [reflexivity|].
    destruct (f x) eqn:Fx; [|reflexivity].
    assert (p x = true) by (apply Hp; congruence). congruence.
Qed.

Lemma has_ts_iff (ev : Event) : has_ts ev = true <-> ts ev <> None.
Proof. unfold has_ts. destruct (ts ev); split; congruence. Qed.

Lemma has_duration_hms_iff (ev : Event) :
  has_duration_hms ev = true <-> available_hms ev <> None.
Proof.
  unfold has_duration_hms, available_hms.
  destruct (get_duration_hms ev) as [[|c s]|]; cbn; split; congruence.
Qed.

Lemma available_hms_or_empty (ev : Event) :
  has_duration_hms ev = true ->
  Py.or_empty (get_duration_hms ev) = Py.or_empty (available_hms ev).
Proof.
  unfold has_duration_hms, available_hms.
  destruct (get_duration_hms ev) as [[|c s]|]; cbn; congruence.
Qed.

Lemma no_result_row_fields (events : list Event) (truth : option str)
      (ilum : str) (escenario : Z) (modo : str) :
  let r := no_result_row events truth ilum escenario modo in
  tipo_de_evento r = lit "no_result"
  /\ timestamp r = isoformat_or_empty (last_available ts events)
  /\ t_total_ms r = Py.or_empty (last_available available_hms events)
  /\ notas r = lit "no result lines found"
  /\ objeto_predicho r = [] /\ confianza r = [].
Proof.
  cbn [no_result_row tipo_de_evento timestamp t_total_ms notas
       objeto_predicho confianza].
  repeat split.
  - f_equal. apply (find_rev_last_available has_ts ts). apply has_ts_iff.
  - rewrite <- (find_rev_last_available has_duration_hms available_hms)
      by apply has_duration_hms_iff.
    destruct (find has_duration_hms (rev events)) as [ev|] eqn:F;
      [|reflexivity].
    apply find_some in F. apply available_hms_or_empty. apply F.
Qed.

(** The loop over the events yields no row exactly when no event has a
    non-empty name. *)
Lemma event_rows_nil_iff (events : list Event) (truth : option str)
      (ilum : str) (escenario : Z) (modo : str) :
  event_rows events truth ilum escenario modo = []
  <-> Forall (fun ev => Py.truthy_opt (event ev) = false) events.
Proof.
  induction events as [|ev rest IH]; cbn [event_rows].
  - split; auto.
  - destruct (event ev) as [evt|] eqn:E.
    + destruct (Py.truthy evt) eqn:T; cbn [negb].
      * split; [discriminate|]. intros H. inversion H as [|? ? H1 _].
        rewrite E in H1. cbn in H1. congruence.
      * rewrite IH. split; intros H.
        -- constructor; [rewrite E; exact T | exact H].
        -- now inversion H.
    + rewrite IH. split; intros H.
      * constructor; [rewrite E; reflexivity | exact H].
      * now inversion H.
Qed.

(** C5. When the loop over the events of a file yields no row,
    [process_file] returns exactly one row: its event type is
    [no_result], its timestamp is the last timestamp present in the
    events, its duration is the last non-empty duration string (both
    found from the end of the sequence, empty when there is none), its
    notes are [no result lines found], and its predicted label and
    confidence are empty. *)
Theorem no_result_fallback (fromisoformat : str -> exc Datetime.datetime)
        (text : str) (escenario : Z) (modo : str) :
  event_rows (file_events fromisoformat text) (file_truth text) (lit "LED")
             escenario modo = [] ->
  exists r,
    process_text fromisoformat text escenario modo = Ok [r]
    /\ tipo_de_evento r = lit "no_result"
    /\ timestamp r
       = isoformat_or_empty (last_available ts (file_events fromisoformat text))
    /\ t_total_ms r
       = Py.or_empty (last_available available_hms
                                     (file_events fromisoformat text))
    /\ notas r = lit "no result lines found"
    /\ objeto_predicho r = [] /\ confianza r = [].
Proof.
  intros H. eexists. split.
  - rewrite process_text_rows, H. reflexivity.
  - apply no_result_row_fields.
Qed.

Lemma no_result_fallback_witness :
  exists r,
    process_text Datetime.fromisoformat unnamed_text 1 (lit "MOBILE") = Ok [r]
    /\ tipo_de_evento r = lit "no_result"
    /\ timestamp r = lit "2025-12-29T18:29:26.429165"
    /\ t_total_ms r = lit "00:00:01.000".
Proof.
  destruct (no_result_fallback Datetime.fromisoformat unnamed_text 1
              (lit "MOBILE")) as (r & E & T & S & D & _).
  - vm_compute. reflexivity.
  - exists r. split; [exact E|]. split; [exact T|].
    rewrite S, D. split; vm_compute; reflexivity.
Defined.

(** ** The confidence field *)

Lemma round_pos_nonneg (n d : Z) :
  0 < n -> 0 < d ->
  B64.round_pos n d = B64.PInf
  \/ exists m e, B64.round_pos n d = B64.Fin m e /\ 0 <= m.
Proof.
  intros Hn Hd. unfold B64.round_pos.
  set (e := Z.max (B64.ilog2_ratio n d - 52) (-1074)).
  destruct (1024 <=? _); [left; reflexivity|].
  right. eexists _, _. split; [reflexivity|].
  apply (rne_between _ _ 0 (B64.scaled_num n e)).
  - apply scaled_num_nonneg. lia.
  - apply scaled_den_pos. exact Hd.
  - pose proof (scaled_num_nonneg n e ltac:(lia)).
    pose proof (scaled_den_pos d e Hd). nia.
Qed.

Lemma of_ratio_nonneg (n d : Z) :
  0 <= n -> 0 < d ->
  B64.of_ratio n d = B64.PInf
  \/ exists m e, B64.of_ratio n d = B64.Fin m e /\ 0 <= m.
Proof.
  intros Hn Hd. unfold B64.of_ratio.
  destruct (Z.eqb_spec n 0).
  - right. exists 0, 0. split; [reflexivity | lia].
  - destruct (Z.ltb_spec n 0); [lia|].
    apply round_pos_nonneg; lia.
Qed.

Lemma isdigit_code (c : ascii) :
  Py.isdigit c = true -> 48 <= Py.code c <= 57.
Proof. unfold Py.isdigit. cbv zeta. lia. Qed.

Lemma decimal_int_nonneg (s : str) (acc : Z) :
  forallb Py.isdigit s = true -> 0 <= acc -> 0 <= B64.decimal_int acc s.
Proof.
  revert acc. induction s as [|c s IH]; intros acc H Hacc;
    cbn [B64.decimal_int]; [exact Hacc|].
  cbn [forallb] in H. apply andb_true_iff in H. destruct H as [Hc Hs].
  apply IH; [exact Hs|]. pose proof (isdigit_code c Hc). lia.
Qed.

(** The float of the captured digits is never negative. *)
Lemma of_decimal_nonneg (s : str) (x : B64.float) :
  B64.of_decimal s = Some x ->
  x = B64.PInf \/ exists m e, x = B64.Fin m e /\ 0 <= m.
Proof.
  unfold B64.of_decimal. destruct (B64.split_at_dot s) as [ip fp].
  destruct (forallb Py.isdigit ip
            && forallb Py.isdigit (match fp with Some f => f | None => [] end)
            && negb _) eqn:G; [|discriminate].
  intros E. inversion E; subst x. clear E.
  apply andb_true_iff in G. destruct G as [G _].
  apply andb_true_iff in G. destruct G as [G1 G2].
  apply of_ratio_nonneg.
  - apply decimal_int_nonneg; [|lia].
    rewrite forallb_app, G1, G2. reflexivity.
  - apply Z.pow_pos_nonneg; lia.
Qed.

(** A non-negative float prints as an integer part, a dot and three
    digits. *)
Lemma format_3f_nonneg (m e : Z) :
  0 <= m ->
  exists k, 0 <= k /\ B64.format_3f (B64.Fin m e) = three_decimals k.
Proof.
  intros Hm. cbn [B64.format_3f].
  set (k := B64.rne _ _).
  assert (Hk : 0 <= k).
  { apply (rne_between _ _ 0 (B64.scaled_num (Z.abs m * 1000) (- e))).
    - apply scaled_num_nonneg. lia.
    - apply scaled_den_pos. lia.
    - pose proof (scaled_num_nonneg (Z.abs m * 1000) (- e) ltac:(lia)).
      pose proof (scaled_den_pos 1 (- e) ltac:(lia)). nia. }
  exists k. split; [exact Hk|].
  destruct (Z.ltb_spec m 0); [lia|].
  unfold three_decimals. cbn [app].
  rewrite format_0d_3_digit3 by (apply Z.mod_pos_bound; lia).
  reflexivity.
Qed.

(** The range of the specification fails on a reported confidence of
    5.0: the field is [5.000]. *)
Lemma confidence_as_stated_fails :
  exists r,
    process_text Datetime.fromisoformat five_text 1 (lit "MOBILE") = Ok [r]
    /\ confianza r = lit "5.000"
    /\ ~ confidence_as_stated r.
Proof.
  eexists. split; [vm_compute; reflexivity|].
  split; [vm_compute; reflexivity|].
  unfold confidence_as_stated. cbn [confianza].
  intros [E | (k & Hk & E)]; [discriminate|].
  unfold three_decimals in E.
  assert (D : k / 1000 = 0 \/ k / 1000 = 1).
  { pose proof (Z.div_le_upper_bound k 1000 1 ltac:(lia) ltac:(lia)).
    pose proof (Z.div_pos k 1000 ltac:(lia) ltac:(lia)). lia. }
  destruct D as [D | D]; rewrite D in E; vm_compute in E; discriminate.
Qed.

(** ** The stable sort *)

Section StableSort.

Context {A : Type}.
Variable le : A -> A -> bool.

Lemma insert_sorted_perm (x : A) (l : list A) :
  Permutation (insert_sorted le x l) (x :: l).
Proof.
  induction l as [|y l IH]; cbn [insert_sorted]; [reflexivity|].
  destruct (le x y); [reflexivity|].
  rewrite IH. apply perm_swap.
Qed.

Lemma stable_sort_perm (l : list A) : Permutation (stable_sort le l) l.
Proof.
  induction l as [|x l IH]; cbn [stable_sort]; [reflexivity|].
  rewrite insert_sorted_perm. now constructor.
Qed.

Hypothesis le_total : forall x y, le x y = false -> le y x = true.

Lemma insert_sorted_hd (x a : A) (l : list A) :
  le a x = true -> HdRel (fun u v => le u v = true) a l ->
  HdRel (fun u v => le u v = true) a (insert_sorted le x l).
Proof.
  intros Hax H. destruct l as [|y l]; cbn [insert_sorted].
  - now constructor.
  - destruct (le x y); constructor; [exact Hax | now inversion H].
Qed.

Lemma insert_sorted_sorted (x : A) (l : list A) :
  Sorted (fun u v => le u v = true) l ->
  Sorted (fun u v => le u v = true) (insert_sorted le x l).
Proof.
  induction l as [|y l IH]; intros H; cbn [insert_sorted].
  - repeat constructor.
  - destruct (le x y) eqn:E.
    + constructor; [exact H | now constructor].
    + inversion H as [|? ? Hs Hh]; subst.
      constructor; [now apply IH|].
      apply insert_sorted_hd; [now apply le_total | exact Hh].
Qed.

Lemma stable_sort_sorted (l : list A) :
  Sorted (fun u v => le u v = true) (stable_sort le l).
Proof.
  induction l as [|x l IH]; cbn [stable_sort]; [constructor|].
  now apply insert_sorted_sorted.
Qed.

(** Elements that a class [same] groups keep their order, provided an
    element never passes one of its own class. *)
Variable same : A -> bool.
Hypothesis le_same : forall x y, same x = true -> same y = true -> le x y = true.

Lemma insert_sorted_filter (x : A) (l : list A) :
  filter same (insert_sorted le x l) = filter same (x :: l).
Proof.
  induction l as [|y l IH]; cbn [insert_sorted]; [reflexivity|].
  destruct (le x y) eqn:E; [reflexivity|].
  cbn [filter] in *. rewrite IH.
  destruct (same x) eqn:Sx, (same y) eqn:Sy; try reflexivity.
  rewrite le_same in E by assumption. discriminate.
Qed.

Lemma stable_sort_filter (l : list A) :
  filter same (stable_sort le l) = filter same l.
Proof.
  induction l as [|x l IH]; cbn [stable_sort]; [reflexivity|].
  rewrite insert_sorted_filter. cbn [filter]. now rewrite IH.
Qed.

End StableSort.

Lemma nat_last_leb_total (a b : option Z) :
  nat_last_leb a b = false -> nat_last_leb b a = true.
Proof. destruct a, b; cbn; try congruence; lia. Qed.

Lemma key_eqb_eq (a b : option Z) : key_eqb a b = true <-> a = b.
Proof.
  destruct a, b; cbn; try (split; congruence).
  rewrite Z.eqb_eq. split; congruence.
Qed.

Lemma nat_last_leb_same (k a b : option Z) :
  key_eqb a k = true -> key_eqb b k = true -> nat_last_leb a b = true.
Proof.
  rewrite !key_eqb_eq. intros -> ->. destruct k; cbn; [lia | reflexivity].
Qed.

(** ** [main]: the sort and the new identifiers *)

Lemma reset_ids_fields (rows : list OutRow) (index : Z) :
  map fields (reset_ids index rows) = map fields rows.
Proof.
  revert index. induction rows as [|r rows IH]; intros index;
    cbn [reset_ids map]; [reflexivity | now rewrite IH].
Qed.

Lemma reset_ids_length (rows : list OutRow) (index : Z) :
  List.length (reset_ids index rows) = List.length rows.
Proof.
  revert index. induction rows as [|r rows IH]; intros index;
    cbn [reset_ids List.length]; [reflexivity | now rewrite IH].
Qed.

Lemma reset_ids_ids (rows : list OutRow) (index : nat) :
  map id_prueba (reset_ids (Z.of_nat index) rows)
  = map Z.of_nat (seq (S index) (List.length rows)).
Proof.
  revert index. induction rows as [|r rows IH]; intros index;
    cbn [reset_ids map seq List.length id_prueba]; [reflexivity|].
  f_equal; [lia|].
  replace (Z.of_nat index + 1) with (Z.of_nat (S index)) by lia.
  apply IH.
Qed.

Lemma combine_fst {X Y : Type} (l : list X) (l' : list Y) :
  List.length l' = List.length l -> map fst (combine l l') = l.
Proof.
  revert l'. induction l as [|x l IH]; intros [|y l'] H;
    cbn in *; try lia; [reflexivity|].
  f_equal. apply IH. lia.
Qed.

Lemma combine_map_fst_snd {X Y Z' : Type} (g : X -> Z') (l : list (X * Y)) :
  combine (map g (map fst l)) (map snd l)
  = map (fun p => (g (fst p), snd p)) l.
Proof. induction l as [|[x y] l IH]; cbn; [reflexivity | now rewrite IH]. Qed.

Lemma with_key_map {X Z' : Type} (g : X -> Z') (k : option Z)
      (l : list (X * option Z)) :
  with_key k (map (fun p => (g (fst p), snd p)) l)
  = map (fun p => (g (fst p), snd p)) (with_key k l).
Proof.
  unfold with_key. induction l as [|p l IH]; cbn [map filter]; [reflexivity|].
  cbn [snd]. destruct (key_eqb (snd p) k); cbn [map]; now rewrite IH.
Qed.

Section Assemble.

Variable to_datetime : list str -> exc (list (option Z)).

Lemma assemble_sorted_frame (rows : list OutRow) (keys : list (option Z)) :
  to_datetime (map (fun r => timestamp (fields r)) rows) = Ok keys ->
  List.length keys = List.length rows ->
  let sorted :=
    stable_sort (fun a b => nat_last_leb (snd a) (snd b)) (combine rows keys)
  in
  assemble to_datetime rows = Ok (reset_ids 0 (map fst sorted))
  /\ map (fun p => (fields (fst p), snd p)) (combine rows keys)
     = parsed_frame keys rows.
Proof.
  intros E L. split.
  - destruct rows as [|r rows].
    + destruct keys; [reflexivity | discriminate L].
    + cbn [assemble]. rewrite E. reflexivity.
  - unfold parsed_frame. clear E. revert keys L.
    induction rows as [|r rows IH]; intros [|k keys] L; cbn in *;
      try lia; [reflexivity|].
    f_equal. apply IH. lia.
Qed.

(** Whenever [to_datetime] returns one parsed timestamp per row, the
    frame that [main] writes holds the accumulated rows in ascending
    order of these parsed timestamps, [NaT] last; rows with the same
    parsed timestamp keep the order in which they were accumulated;
    and the identifiers are 1..N in the new order. *)
Lemma main_sorted_by_parsed_key
      (fromisoformat : str -> exc Datetime.datetime)
      (root : list (str * node)) (timestamp_parsed : list (option Z)) :
  let accumulated := rows_to_write (main_loop fromisoformat root) in
  to_datetime (map (fun r => timestamp (fields r)) accumulated)
  = Ok timestamp_parsed ->
  List.length timestamp_parsed = List.length accumulated ->
  exists out,
    main fromisoformat to_datetime root = Ok out
    /\ map id_prueba out = map Z.of_nat (seq 1 (List.length accumulated))
    /\ exists keys,
         List.length keys = List.length out
         /\ Sorted key_le keys
         /\ Permutation (combine (map fields out) keys)
                        (parsed_frame timestamp_parsed accumulated)
         /\ forall k, with_key k (combine (map fields out) keys)
                      = with_key k (parsed_frame timestamp_parsed accumulated).
Proof.
  intros accumulated E L. unfold main. fold accumulated.
  destruct (assemble_sorted_frame accumulated timestamp_parsed E L) as [A F].
  set (df := combine accumulated timestamp_parsed) in *.
  set (sorted := stable_sort _ df) in *.
  eexists. split; [exact A|]. split.
  - rewrite (reset_ids_ids _ 0), length_map.
    unfold sorted. rewrite (Permutation_length (stable_sort_perm _ df)).
    unfold df. rewrite length_combine, L.
    now rewrite Nat.min_id.
  - exists (map snd sorted).
    rewrite reset_ids_fields, combine_map_fst_snd.
    split; [|split; [|split]].
    + now rewrite reset_ids_length, !length_map.
    + pose proof (stable_sort_sorted
                    (fun a b : OutRow * option Z => nat_last_leb (snd a) (snd b))
                    (fun x y => nat_last_leb_total (snd x) (snd y)) df) as S.
      fold sorted in S. clearbody sorted. clear -S.
      induction S as [|p l S IH H]; cbn [map]; constructor; [exact IH|].
      destruct H; cbn [map]; constructor. assumption.
    + rewrite <- F. apply Permutation_map. apply stable_sort_perm.
    + intros k. rewrite <- F, !with_key_map. f_equal.
      unfold with_key, sorted. apply stable_sort_filter.
      intros x y. apply nat_last_leb_same.
Qed.

End Assemble.

(** [pd.to_datetime] returns one parsed timestamp per cell whenever it
    returns. *)
Lemma to_datetime_length (column : list str) (keys : list (option Z)) :
  Pd.to_datetime column = Ok keys -> List.length keys = List.length column.
Proof.
  unfold Pd.to_datetime.
  destruct (find Py.truthy column) as [first|].
  - destruct (Pd.guess_datetime_format first) as [fmt|].
    + destruct (Pd.mixed _); [discriminate|].
      intros E. inversion E. now rewrite !length_map.
    + intros E. inversion E. now rewrite length_map.
  - intros E. inversion E. now rewrite length_map.
Qed.

(** On a tree whose later log comes first, with every timestamp in
    one format, the sort puts the earlier row first. *)
Example late_first_sorted :
  exists out,
    main Datetime.fromisoformat Pd.to_datetime late_first_root = Ok out
    /\ map id_prueba out = [1; 2]
    /\ map (fun r => timestamp (fields r)) out
       = [lit "2025-12-29T18:29:26.429165"; lit "2025-12-29T18:29:32.765650"]
    /\ map (fun r => timestamp (fields r))
           (rows_to_write (main_loop Datetime.fromisoformat late_first_root))
       = [lit "2025-12-29T18:29:32.765650"; lit "2025-12-29T18:29:26.429165"].
Proof.
  eexists. split; [vm_compute; reflexivity|].
  repeat split; vm_compute; reflexivity.
Qed.

(** C6 fails on the code. The three rows of the log carry the valid
    timestamps 18:29:25.428165, 18:29:26 and 18:29:32.765650.
    [to_datetime] takes the format of the first cell, with a fraction
    of a second, and reads the whole second 18:29:26, which
    [isoformat] printed without a fraction, as [NaT]: the written
    frame holds the row of 18:29:26 last, after the row of
    18:29:32.765650, and numbers it 3. The specification states
    ascending instants. On a log whose timestamps carry two different
    UTC offsets [to_datetime] raises, and [main] with it: no frame is
    written. *)
Theorem main_sorts_valid_timestamp_last :
  (exists out,
     main Datetime.fromisoformat Pd.to_datetime whole_second_root = Ok out
     /\ map id_prueba out = [1; 2; 3]
     /\ map (fun r => timestamp (fields r)) out
        = [lit "2025-12-29T18:29:25.428165";
           lit "2025-12-29T18:29:32.765650";
           lit "2025-12-29T18:29:26"]
     /\ (exists x y,
           stated_instant (lit "2025-12-29T18:29:26") = Some x
           /\ stated_instant (lit "2025-12-29T18:29:32.765650") = Some y
           /\ x < y)
     /\ ~ ascending_as_stated out)
  /\ map (fun r => timestamp (fields r))
         (rows_to_write (main_loop Datetime.fromisoformat whole_second_root))
     = [lit "2025-12-29T18:29:25.428165";
        lit "2025-12-29T18:29:26";
        lit "2025-12-29T18:29:32.765650"]
  /\ exists msg,
       main Datetime.fromisoformat Pd.to_datetime two_offsets_root = Raise msg.
Proof.
  split; [|split].
  - eexists. split; [vm_compute; reflexivity|].
    split; [vm_compute; reflexivity|].
    split; [vm_compute; reflexivity|].
    split.
    + eexists _, _. split; [vm_compute; reflexivity|].
      split; [vm_compute; reflexivity|]. reflexivity.
    + unfold ascending_as_stated. intros S.
      vm_compute in S.
      inversion S as [|? ? S1 _]. inversion S1 as [|? ? _ R1].
      inversion R1 as [|? ? R2]. discriminate R2.
  - vm_compute. reflexivity.
  - eexists. vm_compute. reflexivity.
Qed.

(** ** [main]: the files that are processed *)

Lemma append_rows_calls (file_rows : list Row) (st : locals) :
  calls (append_rows file_rows st) = calls st
  /\ f (append_rows file_rows st) = f st.
Proof.
  revert st. induction file_rows as [|r rest IH]; intros st;
    cbn [append_rows]; [auto|].
  destruct (IH (mkLocals (f st) (id_counter st + 1)
                         (rows_to_write st ++ [mkOutRow (id_counter st) r])
                         (calls st))) as [-> ->].
  auto.
Qed.

(** The loop over a directory only moves [f]; it ends on the last
    entry, whatever that entry is. *)
Lemma scan_entries (root : list (str * node)) (entries : list path)
      (st : locals) :
  let st' := fold_left (scan_entry root) entries st in
  calls st' = calls st
  /\ rows_to_write st' = rows_to_write st
  /\ id_counter st' = id_counter st
  /\ f st' = match entries with
             | [] => f st
             | _ :: _ => Some (last entries [])
             end.
Proof.
  revert st. induction entries as [|e entries IH]; intros st; cbn [fold_left].
  - auto.
  - specialize (IH (scan_entry root st e)). cbv zeta in IH.
    destruct IH as (-> & -> & -> & ->).
    assert (S : calls (scan_entry root st e) = calls st
                /\ rows_to_write (scan_entry root st e) = rows_to_write st
                /\ id_counter (scan_entry root st e) = id_counter st
                /\ f (scan_entry root st e) = Some e).
    { unfold scan_entry.
      destruct (negb (is_file root e)); [cbn; auto|].
      destruct (negb (Py.startswith _ _)); cbn; auto. }
    destruct S as (-> & -> & -> & ->).
    repeat split. destruct entries; reflexivity.
Qed.

(** One existing directory adds at most one call of [process_file]:
    on the last entry of the directory in sorted order, or on the
    value that an earlier directory left in [f]. *)
Lemma visit_dir_calls (fromisoformat : str -> exc Datetime.datetime)
      (root : list (str * node)) (i : Z) (st : locals) (dirp : path)
      (entries : list (str * node)) :
  is_dir root dirp = Some entries ->
  calls (visit_dir fromisoformat root i st dirp)
  = calls st
    ++ match sorted_iterdir dirp entries, f st with
       | (_ :: _) as l, _ => [(last l [], i)]
       | [], Some p => [(p, i)]
       | [], None => []
       end.
Proof.
  intros D. unfold visit_dir. rewrite D.
  destruct (scan_entries root (sorted_iterdir dirp entries) st)
    as (C & _ & _ & F).
  set (st' := fold_left _ _ st) in *.
  assert (T : calls (fst (try_process fromisoformat root st' i))
              = calls st' ++ match f st' with
                             | Some p => [(p, i)]
                             | None => []
                             end).
  { unfold try_process. destruct (f st') as [p|].
    - destruct (process_file _ _ _ _ _); reflexivity.
    - cbn. now rewrite app_nil_r. }
  destruct (try_process fromisoformat root st' i) as [st2 file_rows].
  cbn [fst] in T.
  rewrite (proj1 (append_rows_calls _ _)), T, C, F.
  destruct (sorted_iterdir dirp entries); reflexivity.
Qed.

(** C1 fails on the code. With two matching files in one directory
    [process_file] runs on the last one only; with a single file that
    is no log of the mode it runs on that file. The specification
    states two calls for the first tree and none for the second. *)
Theorem main_processes_last_entry_only :
  calls (main_loop Datetime.fromisoformat two_logs_root)
  = [([lit "escenario 1"; lit "MOBILE_b.log"], 1)]
  /\ stated_calls two_logs_root
     = [([lit "escenario 1"; lit "MOBILE_a.log"], 1);
        ([lit "escenario 1"; lit "MOBILE_b.log"], 1)]
  /\ calls (main_loop Datetime.fromisoformat notes_root)
     = [([lit "escenario 1"; lit "notes.txt"], 1)]
  /\ stated_calls notes_root = [].
Proof. vm_compute. repeat split. Qed.

(** ** Prefixes in a class *)

Lemma takewhile_dropwhile (p : ascii -> bool) (s : str) :
  takewhile p s ++ Py.dropwhile p s = s.
Proof.
  induction s as [|c s IH]; cbn; [reflexivity|].
  destruct (p c); cbn; [now rewrite IH | reflexivity].
Qed.

Lemma takewhile_all (p : ascii -> bool) (s : str) :
  forallb p (takewhile p s) = true.
Proof.
  induction s as [|c s IH]; cbn; [reflexivity|].
  destruct (p c) eqn:E; cbn; [now rewrite E | reflexivity].
Qed.

Lemma dropwhile_stops (p : ascii -> bool) (s : str) :
  stops p (Py.dropwhile p s).
Proof.
  induction s as [|c s IH]; cbn; [exact I|].
  destruct (p c) eqn:E; [exact IH | exact E].
Qed.

Lemma dropwhile_all (p : ascii -> bool) (s : str) :
  forallb p s = true -> Py.dropwhile p s = [].
Proof.
  induction s as [|c s IH]; cbn; [reflexivity|].
  destruct (p c); [exact IH | discriminate].
Qed.

Lemma dropwhile_nil_all (p : ascii -> bool) (s : str) :
  Py.dropwhile p s = [] -> forallb p s = true.
Proof.
  induction s as [|c s IH]; cbn; [reflexivity|].
  destruct (p c); [exact IH | discriminate].
Qed.

Lemma dropwhile_stop_app (p : ascii -> bool) (a : str) (c : ascii) (b : str) :
  p c = false ->
  Py.dropwhile p (a ++ c :: b) = Py.dropwhile p a ++ c :: b.
Proof.
  intros H. induction a as [|x a IH]; cbn; [now rewrite H|].
  destruct (p x); [exact IH | reflexivity].
Qed.

Lemma dropwhile_idem (p : ascii -> bool) (s : str) :
  Py.dropwhile p (Py.dropwhile p s) = Py.dropwhile p s.
Proof.
  pose proof (dropwhile_stops p s) as H.
  destruct (Py.dropwhile p s) as [|c t]; [reflexivity|].
  cbn in *. now rewrite H.
Qed.

Lemma forallb_dropwhile (q p : ascii -> bool) (s : str) :
  forallb q s = true -> forallb q (Py.dropwhile p s) = true.
Proof.
  induction s as [|c s IH]; cbn; [reflexivity|].
  intros H. apply andb_true_iff in H. destruct H as [Hc Hs].
  destruct (p c); [auto | cbn; now rewrite Hc, Hs].
Qed.

Lemma firstn_app_exact {X : Type} (a b : list X) :
  firstn (List.length (a ++ b) - List.length b) (a ++ b) = a.
Proof.
  rewrite length_app.
  replace (List.length a + List.length b - List.length b)%nat
    with (List.length a + 0)%nat by lia.
  rewrite firstn_app_2, firstn_O, app_nil_r. reflexivity.
Qed.

(** ** Repetitions on a text of known shape *)

Lemma rep_greedy_stop {R : Type} (p : ascii -> bool) (min : nat)
      (a b : str) (k : str -> option R) (r : R) :
  forallb p a = true -> stops p b -> (min <= List.length a)%nat ->
  k b = Some r ->
  Re.rep_greedy p min (a ++ b) k = Some r.
Proof.
  revert min. induction a as [|c a IH]; intros min Ha Hb Hmin Hk.
  - cbn in Hmin. assert (min = O) by lia. subst min. cbn [app].
    destruct b as [|c b]; cbn [Re.rep_greedy]; [exact Hk|].
    cbn in Hb. rewrite Hb. exact Hk.
  - cbn [forallb] in Ha. apply andb_true_iff in Ha. destruct Ha as [Hc Ha].
    cbn [app Re.rep_greedy]. rewrite Hc.
    rewrite (IH (Nat.pred min) Ha Hb); [reflexivity | cbn in Hmin; lia | exact Hk].
Qed.

Lemma rep_greedy_none_at_stop {R : Type} (p : ascii -> bool) (b : str)
      (k : str -> option R) :
  stops p b -> Re.rep_greedy p 0 b k = k b.
Proof.
  destruct b as [|c b]; cbn; [reflexivity|]. intros ->. reflexivity.
Qed.

(** The run gives its last character back when the continuation
    refuses the whole of it. *)
Lemma rep_greedy_giveback {R : Type} (p : ascii -> bool)
      (a : str) (c : ascii) (b : str) (k : str -> option R) (r : R) :
  forallb p (a ++ [c]) = true -> stops p b ->
  k b = None -> k (c :: b) = Some r ->
  Re.rep_greedy p 0 (a ++ c :: b) k = Some r.
Proof.
  intros Ha Hb Hn Hk. induction a as [|x a IH].
  - cbn [app forallb] in *. apply andb_true_iff in Ha. destruct Ha as [Hc _].
    cbn [Re.rep_greedy]. rewrite Hc. cbn [Nat.pred].
    rewrite rep_greedy_none_at_stop, Hn by exact Hb. exact Hk.
  - cbn [app forallb] in *. apply andb_true_iff in Ha. destruct Ha as [Hx Ha].
    cbn [Re.rep_greedy]. rewrite Hx. cbn [Nat.pred]. now rewrite IH.
Qed.

Lemma rep_lazy_scan {R : Type} (p : ascii -> bool) (a b : str)
      (k : str -> option R) (r : R) :
  forallb p a = true ->
  (forall a1 a2, a = a1 ++ a2 -> a2 <> [] -> k (a2 ++ b) = None) ->
  k b = Some r ->
  Re.rep_lazy p 0 (a ++ b) k = Some r.
Proof.
  induction a as [|c a IH]; intros Ha Hn Hk.
  - cbn [app]. destruct b; cbn [Re.rep_lazy]; now rewrite Hk.
  - cbn [forallb] in Ha. apply andb_true_iff in Ha. destruct Ha as [Hc Ha].
    cbn [app Re.rep_lazy].
    pose proof (Hn [] (c :: a) eq_refl ltac:(discriminate)) as N0.
    cbn [app] in N0. rewrite N0, Hc. cbn [Nat.pred]. apply IH; [exact Ha | | exact Hk].
    intros a1 a2 E N. apply (Hn (c :: a1) a2); [now rewrite E | exact N].
Qed.

(** A lazy [+?]: the first character, then the shortest extension
    that the continuation accepts. *)
Lemma rep_lazy_first {R : Type} (p : ascii -> bool) (a b : str)
      (k : str -> option R) (r : R) :
  a <> [] -> forallb p a = true ->
  (forall a1 a2, a = a1 ++ a2 -> a1 <> [] -> a2 <> [] -> k (a2 ++ b) = None) ->
  k b = Some r ->
  Re.rep_lazy p 1 (a ++ b) k = Some r.
Proof.
  intros Hne Ha Hn Hk. destruct a as [|c a]; [congruence|].
  cbn [forallb] in Ha. apply andb_true_iff in Ha. destruct Ha as [Hc Ha].
  cbn [app Re.rep_lazy]. rewrite Hc. cbn [Nat.pred].
  apply rep_lazy_scan; [exact Ha | | exact Hk].
  intros a1 a2 E N. apply (Hn (c :: a1) a2); [now rewrite E | discriminate | exact N].
Qed.

(** ** Blanks *)

Lemma core_nonempty (x : str) : core x <> [].
Proof. unfold core. destruct (Py.dropwhile Py.isspace x); discriminate. Qed.

Lemma last_in_forallb (q : ascii -> bool) (x : str) (d : ascii) :
  x <> [] -> forallb q x = true -> q (last x d) = true.
Proof.
  induction x as [|c x IH]; [congruence|]. intros _ H.
  cbn [forallb] in H. apply andb_true_iff in H. destruct H as [Hc Hx].
  destruct x as [|c' x]; [exact Hc|]. apply IH; [discriminate | exact Hx].
Qed.

Lemma core_forallb (q : ascii -> bool) (x : str) :
  x <> [] -> forallb q x = true -> forallb q (core x) = true.
Proof.
  intros Hne H. unfold core.
  pose proof (forallb_dropwhile q Py.isspace x H) as D.
  destruct (Py.dropwhile Py.isspace x) as [|c t] eqn:E; [|exact D].
  cbn. now rewrite (last_in_forallb q x " "%char Hne H).
Qed.

Lemma strip_all_space (s : str) :
  forallb Py.isspace s = true -> Py.strip s = [].
Proof.
  intros H. unfold Py.strip, Py.lstrip_by, Py.rstrip_by.
  rewrite (dropwhile_all Py.isspace s H). reflexivity.
Qed.

Lemma strip_dropwhile (s : str) :
  Py.strip (Py.dropwhile Py.isspace s) = Py.strip s.
Proof. unfold Py.strip, Py.lstrip_by. now rewrite dropwhile_idem. Qed.

Lemma strip_core (x : str) : x <> [] -> Py.strip (core x) = Py.strip x.
Proof.
  intros Hne. unfold core.
  destruct (Py.dropwhile Py.isspace x) as [|c t] eqn:E.
  - pose proof (dropwhile_nil_all _ _ E) as A.
    rewrite (strip_all_space x A). apply strip_all_space.
    cbn. now rewrite (last_in_forallb Py.isspace x " "%char Hne A).
  - rewrite <- E. apply strip_dropwhile.
Qed.

(** [\s*] before a group that needs one character: the group gets the
    core of the text. *)
Lemma rep_greedy_space_core {R : Type} (x b : str) (k : str -> option R) (r : R) :
  x <> [] -> stops Py.isspace b ->
  k b = None -> k (core x ++ b) = Some r ->
  Re.rep_greedy Re.space 0 (x ++ b) k = Some r.
Proof.
  intros Hne Hb Hn Hk. unfold core in Hk.
  destruct (Py.dropwhile Py.isspace x) as [|c t] eqn:E.
  - pose proof (dropwhile_nil_all _ _ E) as A.
    destruct (exists_last Hne) as (x' & l & ->).
    rewrite last_last in Hk. rewrite <- app_assoc. cbn [app] in *.
    apply rep_greedy_giveback; assumption.
  - rewrite <- (takewhile_dropwhile Py.isspace x), E, <- app_assoc.
    apply rep_greedy_stop.
    + apply takewhile_all.
    + pose proof (dropwhile_stops Py.isspace x) as S. rewrite E in S. exact S.
    + lia.
    + exact Hk.
Qed.

(** ** [LINE_RE] on a line of the grammar *)

Lemma LINE_RE_pieces :
  LINE_RE
  = (Re.Bol +++ Re.Chr (Re.is_char "[") +++
     Re.Grp "ts" (Re.Rep true 1 (Re.not_char "]")) +++
     Re.Chr (Re.is_char "]") +++ AFTER_TS_RE)%regex.
Proof. reflexivity. Qed.

Lemma is_char_refl (a : ascii) : Re.is_char a a = true.
Proof. apply Ascii.eqb_refl. Qed.

Lemma not_char_refl (a : ascii) : Re.not_char a a = false.
Proof. unfold Re.not_char, Py.char_eqb. now rewrite Ascii.eqb_refl. Qed.

Lemma is_char_not_char (a c : ascii) :
  Re.not_char a c = true -> Re.is_char a c = false.
Proof. unfold Re.not_char, Re.is_char. now destruct (Py.char_eqb c a). Qed.

(** The details, when the dash is there. *)
Lemma tail_with_details (subject det : str) (caps : Re.captures) :
  forallb Re.dot det = true ->
  Re.run subject TAIL_RE ("-"%char :: det) caps Re.accept
  = Some (Re.mkMatched []
            (("details"%string, Py.dropwhile Py.isspace det) :: caps)).
Proof.
  intros Hd. unfold TAIL_RE, DETAILS_RE. cbn [Re.run].
  rewrite is_char_refl.
  rewrite <- (takewhile_dropwhile Py.isspace det) at 1.
  rewrite (rep_greedy_stop Re.space 0 (takewhile Py.isspace det)
             (Py.dropwhile Py.isspace det) _
             (Re.mkMatched []
                (("details"%string, Py.dropwhile Py.isspace det) :: caps)));
    [reflexivity | apply takewhile_all | apply dropwhile_stops | lia |].
  rewrite <- (app_nil_r (Py.dropwhile Py.isspace det)) at 1.
  rewrite (rep_greedy_stop Re.dot 0 (Py.dropwhile Py.isspace det) [] _
             (Re.mkMatched []
                (("details"%string, Py.dropwhile Py.isspace det) :: caps)));
    [reflexivity | now apply forallb_dropwhile | exact I | lia |].
  cbn [List.length]. rewrite Nat.sub_0_r, firstn_all. reflexivity.
Qed.

(** The end of the line, when there is no dash. *)
Lemma tail_at_end (subject : str) (caps : Re.captures) :
  Re.run subject TAIL_RE [] caps Re.accept = Some (Re.mkMatched [] caps).
Proof. reflexivity. Qed.

(** Inside the event the tail does not match: no dash comes next and
    the line goes on. *)
Lemma tail_inside_event (subject : str) (c : ascii) (s : str)
      (caps : Re.captures) :
  Re.not_char "-" c = true ->
  (s = [] -> Py.isspace c = false) ->
  Re.run subject TAIL_RE (c :: s) caps Re.accept = None.
Proof.
  intros Hc Hs. unfold TAIL_RE, DETAILS_RE. cbn [Re.run].
  rewrite (is_char_not_char _ _ Hc).
  destruct s as [|d s]; [|reflexivity].
  specialize (Hs eq_refl).
  destruct (Py.char_eqb c "010") eqn:E; [|reflexivity].
  apply Ascii.eqb_eq in E. subst c. discriminate.
Qed.

(** The event: the shortest run without a dash that the tail accepts. *)
Lemma event_matches (subject evt b : str) (caps : Re.captures) (m : Re.matched) :
  evt <> [] -> forallb (Re.not_char "-") evt = true ->
  (b = [] -> Py.isspace (last evt " "%char) = false) ->
  Re.run subject TAIL_RE b (("event"%string, evt) :: caps) Re.accept = Some m ->
  Re.run subject EVENT_RE (evt ++ b) caps Re.accept = Some m.
Proof.
  intros Hne He Hb Ht. unfold EVENT_RE. cbn [Re.run].
  apply rep_lazy_first; [exact Hne | exact He | |].
  - intros a1 a2 E N1 N2.
    destruct a2 as [|c a2]; [congruence|]. cbn [app].
    apply tail_inside_event.
    + rewrite E, forallb_app in He. apply andb_true_iff in He.
      destruct He as [_ He]. cbn in He. apply andb_true_iff in He. apply He.
    + intros Z. apply app_eq_nil in Z. destruct Z as [-> ->].
      specialize (Hb eq_refl). rewrite E, last_last in Hb. exact Hb.
  - rewrite firstn_app_exact. exact Ht.
Qed.

Lemma event_needs_a_character (subject b : str) (caps : Re.captures) :
  stops (Re.not_char "-") b ->
  Re.run subject EVENT_RE b caps Re.accept = None.
Proof.
  intros Hb. unfold EVENT_RE. cbn [Re.run].
  destruct b as [|c b]; [reflexivity|].
  cbn in Hb. cbn [Re.rep_lazy]. now rewrite Hb.
Qed.

Lemma last_dropwhile (p : ascii -> bool) (x : str) (d : ascii) :
  Py.dropwhile p x <> [] -> last (Py.dropwhile p x) d = last x d.
Proof.
  induction x as [|c x IH]; cbn [Py.dropwhile]; [congruence|].
  destruct (p c); [|reflexivity].
  intros H. rewrite (IH H).
  destruct x; [cbn in H; congruence | reflexivity].
Qed.

Lemma core_last (x : str) :
  x <> [] -> Py.isspace (last x " "%char) = false ->
  Py.isspace (last (core x) " "%char) = false.
Proof.
  intros Hne H. unfold core.
  destruct (Py.dropwhile Py.isspace x) as [|c t] eqn:E.
  - pose proof (dropwhile_nil_all _ _ E) as A.
    rewrite (last_in_forallb Py.isspace x " "%char Hne A) in H. discriminate.
  - rewrite <- E, last_dropwhile by (rewrite E; discriminate). exact H.
Qed.

(** The text after the colon: blanks, the event, the tail. *)
Lemma after_colon_matches (subject evt b : str) (caps : Re.captures)
      (m : Re.matched) :
  evt <> [] -> forallb (Re.not_char "-") evt = true ->
  stops Py.isspace b -> stops (Re.not_char "-") b ->
  (b = [] -> Py.isspace (last evt " "%char) = false) ->
  Re.run subject TAIL_RE b (("event"%string, core evt) :: caps) Re.accept
  = Some m ->
  Re.run subject AFTER_COLON_RE (evt ++ b) caps Re.accept = Some m.
Proof.
  intros Hne He Hs Hh Hb Ht. unfold AFTER_COLON_RE. cbn [Re.run].
  apply rep_greedy_space_core; [exact Hne | exact Hs | |].
  - apply event_needs_a_character. exact Hh.
  - apply event_matches.
    + apply core_nonempty.
    + apply core_forallb; assumption.
    + intros Z. apply core_last; auto.
    + exact Ht.
Qed.

(** The text after the bracket: blanks, the component, its colon. *)
Lemma after_ts_matches (subject comp rest : str) (caps : Re.captures)
      (m : Re.matched) :
  comp <> [] -> forallb (Re.not_char ":") comp = true ->
  Re.run subject AFTER_COLON_RE rest (("component"%string, core comp) :: caps)
         Re.accept = Some m ->
  Re.run subject AFTER_TS_RE (comp ++ ":"%char :: rest) caps Re.accept = Some m.
Proof.
  intros Hne Hc Hr. unfold AFTER_TS_RE. cbn [Re.run].
  apply rep_greedy_space_core; [exact Hne | reflexivity | |].
  - unfold COMPONENT_RE. cbn [Re.run Re.rep_greedy].
    rewrite not_char_refl. reflexivity.
  - unfold COMPONENT_RE. cbn [Re.run].
    apply rep_greedy_stop.
    + apply core_forallb; assumption.
    + apply not_char_refl.
    + pose proof (core_nonempty comp). destruct (core comp); [congruence|].
      cbn; lia.
    + rewrite is_char_refl, firstn_app_exact. exact Hr.
Qed.

(** The whole pattern, from the opening bracket. *)
Lemma line_re_matches (ts_s rest : str) (m : Re.matched) :
  ts_s <> [] -> forallb (Re.not_char "]") ts_s = true ->
  Re.run ("["%char :: ts_s ++ "]"%char :: rest) AFTER_TS_RE rest
         [("ts"%string, ts_s)] Re.accept = Some m ->
  Re.re_match LINE_RE ("["%char :: ts_s ++ "]"%char :: rest) = Some m.
Proof.
  intros Hne Ht Hr. unfold Re.re_match. rewrite LINE_RE_pieces.
  cbn [Re.run]. rewrite Nat.eqb_refl, is_char_refl.
  apply rep_greedy_stop.
  - exact Ht.
  - apply not_char_refl.
  - destruct ts_s; [congruence | cbn; lia].
  - rewrite is_char_refl, firstn_app_exact. exact Hr.
Qed.

Lemma line_re_with_details (ts_s comp evt det : str) :
  ts_s <> [] -> forallb (Re.not_char "]") ts_s = true ->
  comp <> [] -> forallb (Re.not_char ":") comp = true ->
  evt <> [] -> forallb (Re.not_char "-") evt = true ->
  forallb Re.dot det = true ->
  Re.re_match LINE_RE
    ("["%char :: ts_s ++ "]"%char :: comp ++ ":"%char :: evt ++ "-"%char :: det)
  = Some (Re.mkMatched []
            [("details"%string, Py.dropwhile Py.isspace det);
             ("event"%string, core evt);
             ("component"%string, core comp);
             ("ts"%string, ts_s)]).
Proof.
  intros Ht1 Ht2 Hc1 Hc2 He1 He2 Hd.
  apply line_re_matches; [assumption | assumption |].
  apply after_ts_matches; [assumption | assumption |].
  apply after_colon_matches; try assumption.
  - reflexivity.
  - reflexivity.
  - discriminate.
  - apply tail_with_details. exact Hd.
Qed.

Lemma line_re_without_details (ts_s comp evt : str) :
  ts_s <> [] -> forallb (Re.not_char "]") ts_s = true ->
  comp <> [] -> forallb (Re.not_char ":") comp = true ->
  evt <> [] -> forallb (Re.not_char "-") evt = true ->
  Py.isspace (last evt " "%char) = false ->
  Re.re_match LINE_RE
    ("["%char :: ts_s ++ "]"%char :: comp ++ ":"%char :: evt)
  = Some (Re.mkMatched []
            [("event"%string, core evt);
             ("component"%string, core comp);
             ("ts"%string, ts_s)]).
Proof.
  intros Ht1 Ht2 Hc1 Hc2 He1 He2 Hl.
  apply line_re_matches; [assumption | assumption |].
  apply after_ts_matches; [assumption | assumption |].
  pose proof (after_colon_matches
                ("["%char :: ts_s ++ "]"%char :: comp ++ ":"%char :: evt)
                evt []
                [("component"%string, core comp); ("ts"%string, ts_s)]
                (Re.mkMatched []
                   [("event"%string, core evt);
                    ("component"%string, core comp);
                    ("ts"%string, ts_s)])
                He1 He2 I I (fun _ => Hl) (tail_at_end _ _)) as H.
  rewrite app_nil_r in H. exact H.
Qed.

(** ** Trimmed lines *)

Lemma dropwhile_app (p : ascii -> bool) (a b : str) :
  Py.dropwhile p (a ++ b)
  = match Py.dropwhile p a with
    | [] => Py.dropwhile p b
    | t => t ++ b
    end.
Proof.
  induction a as [|c a IH]; cbn [app Py.dropwhile].
  - destruct (Py.dropwhile p b); reflexivity.
  - destruct (p c); [exact IH | reflexivity].
Qed.

Lemma strip_cons_space (c : ascii) (s : str) :
  Py.isspace c = true -> Py.strip (c :: s) = Py.strip s.
Proof.
  intros H. unfold Py.strip, Py.lstrip_by. cbn [Py.dropwhile].
  now rewrite H.
Qed.

Lemma strip_snoc_space (c : ascii) (s : str) :
  Py.isspace c = true -> Py.strip (s ++ [c]) = Py.strip s.
Proof.
  intros H. unfold Py.strip, Py.lstrip_by, Py.rstrip_by.
  rewrite dropwhile_app. cbn [Py.dropwhile]. rewrite H.
  destruct (Py.dropwhile Py.isspace s) as [|d t] eqn:E; [reflexivity|].
  rewrite rev_app_distr. cbn [rev app Py.dropwhile]. now rewrite H.
Qed.

Lemma dropwhile_length (p : ascii -> bool) (x : str) :
  (List.length (Py.dropwhile p x) <= List.length x)%nat.
Proof.
  induction x as [|c x IH]; cbn; [lia|]. destruct (p c); cbn; lia.
Qed.

Lemma dropwhile_full (p : ascii -> bool) (x : str) :
  List.length (Py.dropwhile p x) = List.length x -> stops p x.
Proof.
  destruct x as [|c x]; cbn; [auto|].
  destruct (p c); [|reflexivity].
  pose proof (dropwhile_length p x). lia.
Qed.

(** A non-empty string that [strip] leaves alone ends in a character
    that is no blank. *)
Lemma strip_fixed_last (s : str) :
  Py.strip s = s -> s <> [] -> Py.isspace (last s " "%char) = false.
Proof.
  intros H Hne. unfold Py.strip, Py.lstrip_by, Py.rstrip_by in H.
  pose proof (dropwhile_length Py.isspace s) as L1.
  pose proof (dropwhile_length Py.isspace
                (rev (Py.dropwhile Py.isspace s))) as L2.
  assert (L : List.length (rev (Py.dropwhile Py.isspace
                                  (rev (Py.dropwhile Py.isspace s))))
              = List.length s) by now rewrite H.
  rewrite !length_rev in *.
  assert (S1 : stops Py.isspace s) by (apply dropwhile_full; lia).
  assert (E1 : Py.dropwhile Py.isspace s = s).
  { destruct s as [|c t]; [reflexivity|]. cbn in S1. cbn. now rewrite S1. }
  rewrite E1 in *.
  assert (S2 : stops Py.isspace (rev s))
    by (apply dropwhile_full; rewrite length_rev; lia).
  destruct (exists_last Hne) as (s' & l & ->).
  rewrite last_last. rewrite rev_app_distr in S2. exact S2.
Qed.

(** ** [parse_log_line] on a line of the grammar *)

Lemma parse_log_line_with_details
      (fromisoformat : str -> exc Datetime.datetime)
      (ln rest t c e d : str) :
  Py.strip ln = ln -> ln <> [] ->
  Re.re_match LINE_RE ln
  = Some (Re.mkMatched rest
            [("details"%string, d); ("event"%string, e);
             ("component"%string, c); ("ts"%string, t)]) ->
  parse_log_line fromisoformat ln
  = Ok [mkEvent (or_none (fromisoformat t)) (Some (Py.strip c))
                (Some (Py.strip e)) (Py.strip d) ln None None].
Proof.
  intros Hs Hne Hm. unfold parse_log_line. rewrite Hs.
  destruct ln; [congruence|]. cbn [Py.truthy negb]. rewrite Hm.
  reflexivity.
Qed.

Lemma parse_log_line_without_details
      (fromisoformat : str -> exc Datetime.datetime)
      (ln rest t c e : str) :
  Py.strip ln = ln -> ln <> [] ->
  Re.re_match LINE_RE ln
  = Some (Re.mkMatched rest
            [("event"%string, e); ("component"%string, c);
             ("ts"%string, t)]) ->
  parse_log_line fromisoformat ln
  = Ok [mkEvent (or_none (fromisoformat t)) (Some (Py.strip c))
                (Some (Py.strip e)) [] ln None None].
Proof.
  intros Hs Hne Hm. unfold parse_log_line. rewrite Hs.
  destruct ln; [congruence|]. cbn [Py.truthy negb]. rewrite Hm.
  reflexivity.
Qed.

Lemma shaped_line_eq (ts_s comp evt det : str) :
  shaped_line ts_s comp evt det
  = "["%char :: ts_s ++ "]"%char :: (" "%char :: comp)
      ++ ":"%char :: (" "%char :: evt ++ [" "%char])
      ++ "-"%char :: " "%char :: det.
Proof.
  unfold shaped_line. cbn [lit list_ascii_of_string app].
  rewrite <- !app_assoc. reflexivity.
Qed.

Lemma shaped_line_no_details_eq (ts_s comp evt : str) :
  shaped_line_no_details ts_s comp evt
  = "["%char :: ts_s ++ "]"%char :: (" "%char :: comp)
      ++ ":"%char :: " "%char :: evt.
Proof. reflexivity. Qed.

Lemma last_app_nonempty {X : Type} (a b : list X) (d : X) :
  b <> [] -> last (a ++ b) d = last b d.
Proof.
  intros H. destruct (exists_last H) as (b' & l & ->).
  now rewrite app_assoc, !last_last.
Qed.

(** C2, as the code has it. On a trimmed line of the shape
    [[ts] comp: evt - details], where the bracketed text is not empty
    and holds no closing bracket, the component no colon, the event no
    hyphen and the details no line break, [parse_log_lines] produces
    the event whose component, event and details are those texts up
    to surrounding blanks; the same holds without the dash and the
    details, which are then empty. The event ends at the first hyphen
    of the text after the colon. *)
Theorem parse_log_line_recovers
        (fromisoformat : str -> exc Datetime.datetime)
        (ts_s comp evt det : str) :
  ts_s <> [] ->
  forallb (Re.not_char "]") ts_s = true ->
  forallb (Re.not_char ":") comp = true ->
  forallb (Re.not_char "-") evt = true ->
  (forallb Re.dot det = true ->
   Py.strip (shaped_line ts_s comp evt det) = shaped_line ts_s comp evt det ->
   parse_log_line fromisoformat (shaped_line ts_s comp evt det)
   = Ok [mkEvent (or_none (fromisoformat ts_s)) (Some (Py.strip comp))
                 (Some (Py.strip evt)) (Py.strip det)
                 (shaped_line ts_s comp evt det) None None])
  /\ (Py.strip (shaped_line_no_details ts_s comp evt)
      = shaped_line_no_details ts_s comp evt ->
      parse_log_line fromisoformat (shaped_line_no_details ts_s comp evt)
      = Ok [mkEvent (or_none (fromisoformat ts_s)) (Some (Py.strip comp))
                    (Some (Py.strip evt)) []
                    (shaped_line_no_details ts_s comp evt) None None]).
Proof.
  intros Ht1 Ht2 Hc He. split.
  - intros Hd Hs.
    rewrite (parse_log_line_with_details fromisoformat
               (shaped_line ts_s comp evt det) [] ts_s
               (core (" "%char :: comp)) (core (" "%char :: evt ++ [" "%char]))
               (Py.dropwhile Py.isspace (" "%char :: det)) Hs).
    + rewrite !strip_core by discriminate.
      rewrite strip_dropwhile, !strip_cons_space, strip_snoc_space
        by reflexivity.
      reflexivity.
    + rewrite shaped_line_eq. discriminate.
    + rewrite shaped_line_eq.
      apply line_re_with_details; try assumption; try discriminate;
        cbn [forallb]; rewrite ?forallb_app, ?Hc, ?He, ?Hd; reflexivity.
  - intros Hs.
    assert (Hl : Py.isspace (last (" "%char :: evt) " "%char) = false).
    { pose proof (strip_fixed_last _ Hs ltac:(discriminate)) as L.
      replace (shaped_line_no_details ts_s comp evt)
        with (("["%char :: ts_s ++ "]"%char :: (" "%char :: comp) ++ [":"%char])
                ++ (" "%char :: evt)) in L
        by (rewrite shaped_line_no_details_eq; cbn [app];
            rewrite <- app_assoc; cbn [app]; rewrite <- app_assoc;
            reflexivity).
      rewrite last_app_nonempty in L by discriminate. exact L. }
    rewrite (parse_log_line_without_details fromisoformat
               (shaped_line_no_details ts_s comp evt) [] ts_s
               (core (" "%char :: comp)) (core (" "%char :: evt)) Hs).
    + rewrite !strip_core by discriminate.
      rewrite !strip_cons_space by reflexivity. reflexivity.
    + discriminate.
    + rewrite shaped_line_no_details_eq.
      apply line_re_without_details; try assumption; try discriminate;
        cbn [forallb]; rewrite ?Hc, ?He; reflexivity.
Qed.

Lemma parse_log_line_recovers_witness :
  parse_log_line Datetime.fromisoformat
    (lit "[2025-12-30T00:12:53.921546] OCR: initialize - finished")
  = Ok [mkEvent (Some (naive 2025 12 30 0 12 53 921546)) (Some (lit "OCR"))
                (Some (lit "initialize")) (lit "finished")
                (lit "[2025-12-30T00:12:53.921546] OCR: initialize - finished")
                None None]
  /\ parse_log_line Datetime.fromisoformat
       (lit "[2025-12-29T18:29:26.338148] SCENE: running inference")
     = Ok [mkEvent (Some (naive 2025 12 29 18 29 26 338148))
                   (Some (lit "SCENE")) (Some (lit "running inference")) []
                   (lit "[2025-12-29T18:29:26.338148] SCENE: running inference")
                   None None].
Proof.
  split.
  - destruct (parse_log_line_recovers Datetime.fromisoformat
                (lit "2025-12-30T00:12:53.921546") (lit "OCR")
                (lit "initialize") (lit "finished")) as [H _];
      [discriminate | reflexivity | reflexivity | reflexivity |].
    pose proof (H eq_refl ltac:(vm_compute; reflexivity)) as E.
    vm_compute in E. vm_compute. exact E.
  - destruct (parse_log_line_recovers Datetime.fromisoformat
                (lit "2025-12-29T18:29:26.338148") (lit "SCENE")
                (lit "running inference") []) as [_ H];
      [discriminate | reflexivity | reflexivity | reflexivity |].
    pose proof (H ltac:(vm_compute; reflexivity)) as E.
    vm_compute in E. vm_compute. exact E.
Defined.

(** The claim of the specification fails on an event name with a
    hyphen: the name holds no [ - ], yet the event ends at its hyphen
    and the rest of the name goes to the details. *)
Lemma recovers_fails_on_hyphen :
  Py.contains (lit " - ") (lit "pre-processing") = false
  /\ parse_log_line Datetime.fromisoformat
       (shaped_line (lit "2025-12-29T18:29:26.045672") (lit "SCENE")
                    (lit "pre-processing") (lit "resizing to 520"))
     = Ok [mkEvent (Some (naive 2025 12 29 18 29 26 45672))
                   (Some (lit "SCENE")) (Some (lit "pre"))
                   (lit "processing - resizing to 520")
                   (lit "[2025-12-29T18:29:26.045672] SCENE: pre-processing - resizing to 520")
                   None None]
  /\ ~ recovers Datetime.fromisoformat (lit "2025-12-29T18:29:26.045672")
                (lit "SCENE") (lit "pre-processing") (lit "resizing to 520").
Proof.
  split; [reflexivity|]. split; [vm_compute; reflexivity|].
  intros (ev & E & _ & V & _).
  vm_compute in E. inversion E; subst ev. vm_compute in V. discriminate.
Qed.


(** * Further properties of the code *)

(** ** The matcher: what a successful repetition consumed *)

Lemma rep_greedy_inv {R : Type} (p : ascii -> bool) (min : nat) (s : str)
      (k : str -> option R) (r : R) :
  Re.rep_greedy p min s k = Some r ->
  exists a s',
    s = a ++ s' /\ forallb p a = true /\ (min <= List.length a)%nat
    /\ k s' = Some r.
Proof.
  revert min. induction s as [|c s IH]; intros min; cbn [Re.rep_greedy].
  - destruct min; [|discriminate]. intros H.
    exists [], []. repeat split; auto.
  - destruct (p c) eqn:Pc.
    + destruct (Re.rep_greedy p (Nat.pred min) s k) eqn:E.
      * intros H; inversion H; subst.
        destruct (IH _ E) as (a & s' & -> & Ha & Hm & Hk).
        exists (c :: a), s'. cbn. rewrite Pc, Ha.
        repeat split; auto. lia.
      * destruct min; [|discriminate]. intros H.
        exists [], (c :: s). repeat split; auto.
    + destruct min; [|discriminate]. intros H.
      exists [], (c :: s). repeat split; auto.
Qed.

Lemma rep_lazy_inv {R : Type} (p : ascii -> bool) (min : nat) (s : str)
      (k : str -> option R) (r : R) :
  Re.rep_lazy p min s k = Some r ->
  exists a s',
    s = a ++ s' /\ forallb p a = true /\ (min <= List.length a)%nat
    /\ k s' = Some r.
Proof.
  revert min. induction s as [|c s IH]; intros min; cbn [Re.rep_lazy].
  - destruct min; [|discriminate]. destruct (k []) eqn:E; [|discriminate].
    intros H; inversion H; subst. exists [], []. repeat split; auto.
  - assert (Step : (if p c then Re.rep_lazy p (Nat.pred min) s k else None)
                   = Some r ->
                   exists a s', c :: s = a ++ s' /\ forallb p a = true
                                /\ (min <= List.length a)%nat /\ k s' = Some r).
    { destruct (p c) eqn:Pc; [|discriminate]. intros H.
      destruct (IH _ H) as (a & s' & -> & Ha & Hm & Hk).
      exists (c :: a), s'. cbn. rewrite Pc, Ha. repeat split; auto. lia. }
    destruct min as [|min]; [|exact Step].
    destruct (k (c :: s)) eqn:E; [|exact Step].
    intros H; inversion H; subst. exists [], (c :: s). repeat split; auto.
Qed.

(** ** [LINE_RE]: what a match says about the line *)

Lemma is_char_eq (a c : ascii) : Re.is_char a c = true -> c = a.
Proof. apply Ascii.eqb_eq. Qed.

Lemma eol_inv (s : str) (caps : Re.captures) (m : Re.matched) :
  match s with
  | [] => Re.accept s caps
  | [c] => if Py.char_eqb c "010" then Re.accept s caps else None
  | _ :: _ :: _ => None
  end = Some m ->
  m = Re.mkMatched s caps /\ (s = [] \/ s = ["010"%char]).
Proof.
  destruct s as [|c [|d s]]; cbn; try discriminate.
  - intros H; inversion H. auto.
  - destruct (Py.char_eqb c "010") eqn:E; [|discriminate].
    apply Ascii.eqb_eq in E. subst c.
    intros H; inversion H. auto.
Qed.

Lemma tail_inv (subject s : str) (caps : Re.captures) (m : Re.matched) :
  Re.run subject TAIL_RE s caps Re.accept = Some m ->
  Re.m_groups m = caps
  \/ exists w d rest,
       s = "-"%char :: w ++ d ++ rest
       /\ forallb Re.space w = true /\ forallb Re.dot d = true
       /\ Re.m_groups m = ("details"%string, d) :: caps.
Proof.
  unfold TAIL_RE, DETAILS_RE. cbn [Re.run].
  match goal with
  | |- match ?inner with _ => _ end = _ -> _ => destruct inner as [m'|] eqn:E
  end.
  - intros H; inversion H; subst m'. right.
    destruct s as [|c s]; [discriminate|].
    destruct (Re.is_char "-" c) eqn:C; [|discriminate].
    apply is_char_eq in C. subst c.
    apply rep_greedy_inv in E. destruct E as (w & s1 & -> & Hw & _ & E).
    apply rep_greedy_inv in E. destruct E as (d & s2 & -> & Hd & _ & E).
    apply eol_inv in E. destruct E as [-> _].
    exists w, d, s2. rewrite firstn_app_exact. repeat split; auto.
  - intros H. apply eol_inv in H. destruct H as [-> _]. left. reflexivity.
Qed.

Lemma event_inv (subject s : str) (caps : Re.captures) (m : Re.matched) :
  Re.run subject EVENT_RE s caps Re.accept = Some m ->
  exists e s',
    s = e ++ s' /\ e <> [] /\ forallb (Re.not_char "-") e = true
    /\ Re.run subject TAIL_RE s' (("event"%string, e) :: caps) Re.accept
       = Some m.
Proof.
  unfold EVENT_RE. cbn [Re.run]. intros H.
  apply rep_lazy_inv in H. destruct H as (e & s' & -> & He & Hm & H).
  rewrite firstn_app_exact in H.
  exists e, s'. repeat split; auto.
  destruct e; [cbn in Hm; lia | discriminate].
Qed.

Lemma after_colon_inv (subject s : str) (caps : Re.captures) (m : Re.matched) :
  Re.run subject AFTER_COLON_RE s caps Re.accept = Some m ->
  exists w s',
    s = w ++ s' /\ forallb Re.space w = true
    /\ Re.run subject EVENT_RE s' caps Re.accept = Some m.
Proof.
  unfold AFTER_COLON_RE. cbn [Re.run]. intros H.
  apply rep_greedy_inv in H. destruct H as (w & s' & -> & Hw & _ & H).
  exists w, s'. auto.
Qed.

Lemma after_ts_inv (subject s : str) (caps : Re.captures) (m : Re.matched) :
  Re.run subject AFTER_TS_RE s caps Re.accept = Some m ->
  exists w c rest,
    s = w ++ c ++ ":"%char :: rest
    /\ forallb Re.space w = true
    /\ c <> [] /\ forallb (Re.not_char ":") c = true
    /\ Re.run subject AFTER_COLON_RE rest
              (("component"%string, c) :: caps) Re.accept = Some m.
Proof.
  unfold AFTER_TS_RE. cbn [Re.run]. intros H.
  apply rep_greedy_inv in H. destruct H as (w & s1 & -> & Hw & _ & H).
  unfold COMPONENT_RE in H. cbn [Re.run] in H.
  apply rep_greedy_inv in H. destruct H as (c & s2 & -> & Hc & Hm & H).
  destruct s2 as [|x rest]; [discriminate|].
  destruct (Re.is_char ":" x) eqn:X; [|discriminate].
  apply is_char_eq in X. subst x.
  rewrite firstn_app_exact in H.
  exists w, c, rest. repeat split; auto.
  destruct c; [cbn in Hm; lia | discriminate].
Qed.

Lemma line_inv (s : str) (m : Re.matched) :
  Re.re_match LINE_RE s = Some m ->
  exists t rest,
    s = "["%char :: t ++ "]"%char :: rest
    /\ t <> [] /\ forallb (Re.not_char "]") t = true
    /\ Re.run s AFTER_TS_RE rest [("ts"%string, t)] Re.accept = Some m.
Proof.
  unfold Re.re_match. rewrite LINE_RE_pieces. cbn [Re.run].
  rewrite Nat.eqb_refl.
  destruct s as [|b s1]; [discriminate|].
  destruct (Re.is_char "[" b) eqn:B; [|discriminate].
  apply is_char_eq in B. subst b. intros H.
  apply rep_greedy_inv in H. destruct H as (t & s2 & -> & Ht & Hm & H).
  destruct s2 as [|x rest]; [discriminate|].
  destruct (Re.is_char "]" x) eqn:X; [|discriminate].
  apply is_char_eq in X. subst x.
  rewrite firstn_app_exact in H.
  exists t, rest. repeat split; auto.
  destruct t; [cbn in Hm; lia | discriminate].
Qed.

(** A match of [LINE_RE] cuts the line at the first closing bracket,
    the first colon after it and the first hyphen after that; the
    groups are the texts between, with these classes. *)
Lemma line_re_sound (s : str) (m : Re.matched) :
  Re.re_match LINE_RE s = Some m ->
  exists t w1 c w2 e tail,
    s = "["%char :: t ++ "]"%char :: w1 ++ c ++ ":"%char :: w2 ++ e ++ tail
    /\ t <> [] /\ forallb (Re.not_char "]") t = true
    /\ forallb Re.space w1 = true
    /\ c <> [] /\ forallb (Re.not_char ":") c = true
    /\ forallb Re.space w2 = true
    /\ e <> [] /\ forallb (Re.not_char "-") e = true
    /\ Re.group "ts" (Re.m_groups m) = Some t
    /\ Re.group "component" (Re.m_groups m) = Some c
    /\ Re.group "event" (Re.m_groups m) = Some e
    /\ (Re.group "details" (Re.m_groups m) = None
        \/ exists d, Re.group "details" (Re.m_groups m) = Some d
                     /\ forallb Re.dot d = true).
Proof.
  intros H.
  apply line_inv in H. destruct H as (t & r1 & -> & Ht1 & Ht2 & H).
  apply after_ts_inv in H.
  destruct H as (w1 & c & r2 & -> & Hw1 & Hc1 & Hc2 & H).
  apply after_colon_inv in H. destruct H as (w2 & r3 & -> & Hw2 & H).
  apply event_inv in H. destruct H as (e & tail & -> & He1 & He2 & H).
  exists t, w1, c, w2, e, tail.
  apply tail_inv in H.
  destruct H as [G | (w & d & rest & _ & _ & Hd & G)]; rewrite G;
    repeat split; auto.
  right. exists d. auto.
Qed.

(** ** The events of [parse_log_lines] *)

Lemma forallb_rev_str (q : ascii -> bool) (s : str) :
  forallb q s = true -> forallb q (rev s) = true.
Proof.
  rewrite !forallb_forall. intros H x Hx. apply H. now apply in_rev.
Qed.

Lemma forallb_strip (q : ascii -> bool) (s : str) :
  forallb q s = true -> forallb q (Py.strip s) = true.
Proof.
  intros H. unfold Py.strip, Py.rstrip_by, Py.lstrip_by.
  apply forallb_rev_str, forallb_dropwhile, forallb_rev_str,
    forallb_dropwhile, H.
Qed.

(** What one line contributes. *)
Lemma line_events_cases (fromisoformat : str -> exc Datetime.datetime)
      (ln : str) :
  (Py.strip ln = [] /\ line_events fromisoformat ln = [])
  \/ (Py.strip ln <> []
      /\ Re.re_match LINE_RE (Py.strip ln) = None
      /\ line_events fromisoformat ln = [degraded (Py.strip ln)])
  \/ (Py.strip ln <> []
      /\ exists m comp evt,
           Re.re_match LINE_RE (Py.strip ln) = Some m
           /\ Re.group "component" (Re.m_groups m) = Some comp
           /\ Re.group "event" (Re.m_groups m) = Some evt
           /\ line_events fromisoformat ln
              = [mkEvent (parse_ts fromisoformat m) (Some (Py.strip comp))
                         (Some (Py.strip evt))
                         (Py.strip (Py.or_empty
                                      (Re.group "details" (Re.m_groups m))))
                         (Py.strip ln) None None]).
Proof.
  unfold line_events.
  destruct (Py.strip ln) as [|c s] eqn:S.
  - left. split; [reflexivity|].
    now rewrite (parse_log_line_blank fromisoformat ln S).
  - right. rewrite <- S.
    assert (Hne : Py.strip ln <> []) by congruence.
    destruct (Re.re_match LINE_RE (Py.strip ln)) as [m|] eqn:M.
    + right. split; [exact Hne|].
      destruct (parse_log_line_matched fromisoformat ln m Hne M)
        as (comp & evt & Hc & He & E).
      exists m, comp, evt. rewrite E. auto.
    + left. split; [exact Hne|]. split; [reflexivity|].
      now rewrite (parse_log_line_unmatched fromisoformat ln Hne M).
Qed.

Lemma flat_map_raw (fromisoformat : str -> exc Datetime.datetime)
      (lines : list str) :
  map raw (flat_map (line_events fromisoformat) lines)
  = filter Py.truthy (map Py.strip lines).
Proof.
  induction lines as [|ln rest IH]; cbn [flat_map map filter]; [reflexivity|].
  rewrite map_app, IH.
  destruct (line_events_cases fromisoformat ln)
    as [[S E] | [(S & _ & E) | (S & m & comp & evt & _ & _ & _ & E)]];
    rewrite E; destruct (Py.strip ln); try congruence; reflexivity.
Qed.

(** X1. [parse_log_lines] keeps one event per non-blank line, in the
    order of the lines, and the [raw] field of each is its line,
    trimmed. *)
Theorem parse_log_lines_raw_lines
        (fromisoformat : str -> exc Datetime.datetime) (lines : list str) :
  exists events,
    parse_log_lines fromisoformat lines = Ok events
    /\ map raw events = filter Py.truthy (map Py.strip lines).
Proof.
  exists (flat_map (line_events fromisoformat) lines). split.
  - unfold parse_log_lines. now rewrite parse_log_lines_from_flat.
  - apply flat_map_raw.
Qed.

(** X2. The events of a list of lines are the events of its first
    part followed by the events of the rest: no line changes what
    another line yields. *)
Theorem parse_log_lines_app
        (fromisoformat : str -> exc Datetime.datetime) (l1 l2 : list str) :
  parse_log_lines fromisoformat (l1 ++ l2)
  = (e1 <- parse_log_lines fromisoformat l1 ;;
     e2 <- parse_log_lines fromisoformat l2 ;;
     Ok (e1 ++ e2)).
Proof.
  unfold parse_log_lines. rewrite !parse_log_lines_from_flat.
  cbn [bind app]. now rewrite flat_map_app.
Qed.

(** X3. Every event of [parse_log_lines] has a non-empty [raw] and no
    duration yet. It is either a degraded record (no timestamp,
    component or event, details equal to the raw line) or a parsed one
    whose raw line starts with the opening bracket, whose component
    holds no colon, whose event holds no hyphen and whose details hold
    no line feed. *)
Theorem parsed_event_invariants
        (fromisoformat : str -> exc Datetime.datetime)
        (lines : list str) (events : list Event) (ev : Event) :
  parse_log_lines fromisoformat lines = Ok events ->
  In ev events ->
  raw ev <> [] /\ duration_ms ev = None /\ duration_hms ev = None
  /\ ((ts ev = None /\ component ev = None /\ event ev = None
       /\ details ev = raw ev)
      \/ exists c e,
           component ev = Some c /\ event ev = Some e
           /\ forallb (Re.not_char ":") c = true
           /\ forallb (Re.not_char "-") e = true
           /\ forallb Re.dot (details ev) = true
           /\ hd_error (raw ev) = Some "["%char).
Proof.
  unfold parse_log_lines. rewrite parse_log_lines_from_flat. cbn [app].
  intros E Hin. inversion E; subst events. clear E.
  apply in_flat_map in Hin. destruct Hin as (ln & _ & Hin).
  destruct (line_events_cases fromisoformat ln)
    as [[S E] | [(S & _ & E) | (S & m & comp & evt & M & Hc & He & E)]];
    rewrite E in Hin.
  - destruct Hin.
  - destruct Hin as [<- | []]. cbn. repeat split; auto.
  - destruct Hin as [<- | []]. cbn [raw duration_ms duration_hms ts component
                                      event details].
    repeat split; auto. right.
    destruct (line_re_sound _ m M)
      as (t & w1 & c & w2 & e & tail & Hs & _ & _ & _ & _ & Hc2 & _ & _ & He2
          & _ & Gc & Ge & Gd).
    rewrite Hc in Gc. rewrite He in Ge. inversion Gc; inversion Ge; subst.
    exists (Py.strip c), (Py.strip e). repeat split.
    + now apply forallb_strip.
    + now apply forallb_strip.
    + destruct Gd as [-> | (d & -> & Hd)]; [reflexivity|].
      now apply forallb_strip.
    + rewrite Hs. reflexivity.
Qed.

Lemma parsed_event_invariants_witness :
  let ev := mkEvent None (Some (lit "TTS"))
                    (Some (lit "converted output to speech")) []
                    bad_ts_line None None in
  raw ev <> [] /\ hd_error (raw ev) = Some "["%char
  /\ exists e, event ev = Some e /\ forallb (Re.not_char "-") e = true.
Proof.
  intros ev.
  destruct (parsed_event_invariants Datetime.fromisoformat
              [bad_ts_line; free_text_line]
              [ev; degraded free_text_line] ev)
    as (R & _ & _ & [(_ & C & _) | (c & e & _ & E & _ & He & _ & H)]).
  - vm_compute. reflexivity.
  - left. reflexivity.
  - discriminate C.
  - split; [exact R|]. split; [exact H|]. exists e. auto.
Defined.

(** X4. A non-blank line whose trimmed text does not start with the
    opening bracket, or holds no colon, is kept as a degraded record:
    it never becomes a parsed event. *)
Theorem free_text_is_degraded
        (fromisoformat : str -> exc Datetime.datetime) (ln : str) :
  Py.strip ln <> [] ->
  hd_error (Py.strip ln) <> Some "["%char \/ ~ In ":"%char (Py.strip ln) ->
  parse_log_line fromisoformat ln = Ok [degraded (Py.strip ln)].
Proof.
  intros Hne H.
  destruct (Re.re_match LINE_RE (Py.strip ln)) as [m|] eqn:M.
  - exfalso.
    destruct (line_re_sound _ m M)
      as (t & w1 & c & w2 & e & tail & Hs & _).
    rewrite Hs in H. destruct H as [H | H].
    + apply H. reflexivity.
    + apply H. right. apply in_or_app. right. right.
      apply in_or_app. right. apply in_or_app. right. left. reflexivity.
  - now apply parse_log_line_unmatched.
Qed.

Lemma free_text_is_degraded_witness :
  parse_log_line Datetime.fromisoformat (lit "  objeto_verdad: cup ")
  = Ok [degraded (lit "objeto_verdad: cup")].
Proof.
  apply (free_text_is_degraded Datetime.fromisoformat
           (lit "  objeto_verdad: cup ")).
  - vm_compute. discriminate.
  - left. vm_compute. discriminate.
Defined.

(** ** [find_ground_truth] *)

Lemma lower_char_space (c : ascii) :
  Py.isspace c = true -> Py.lower_char c = c.
Proof.
  destruct c as [[] [] [] [] [] [] [] []]; vm_compute;
    intros H; try reflexivity; discriminate H.
Qed.

Lemma contains_in (c0 : ascii) (sub s : str) :
  Py.contains (c0 :: sub) s = true -> In c0 s.
Proof.
  induction s as [|x s IH]; cbn [Py.contains Py.startswith].
  - discriminate.
  - intros H. apply orb_true_iff in H. destruct H as [H | H].
    + apply andb_true_iff in H. destruct H as [H _].
      apply Ascii.eqb_eq in H. left. congruence.
    + right. apply IH. exact H.
Qed.

(** A phrase that starts with a letter occurs only in a line that has
    a character other than a blank. *)
Lemma contains_lower_nonblank (phrase ln : str) :
  match phrase with
  | c0 :: _ => Py.isspace c0 = false
  | [] => False
  end ->
  Py.contains phrase (Py.lower ln) = true ->
  exists x, In x ln /\ Py.isspace x = false.
Proof.
  destruct phrase as [|c0 sub]; [intros []|].
  intros Hc H. apply contains_in in H. unfold Py.lower in H.
  apply in_map_iff in H. destruct H as (x & Hx & Hin).
  exists x. split; [exact Hin|].
  destruct (Py.isspace x) eqn:S; [|reflexivity].
  rewrite (lower_char_space x S) in Hx. congruence.
Qed.

Lemma split_ws_aux_nonempty (s cur : str) :
  cur <> [] \/ (exists x, In x s /\ Py.isspace x = false) ->
  Py.split_ws_aux cur s <> [].
Proof.
  revert cur. induction s as [|c s IH]; intros cur H; cbn [Py.split_ws_aux].
  - destruct H as [H | (x & [] & _)]. destruct cur; [congruence | discriminate].
  - destruct (Py.isspace c) eqn:S.
    + destruct cur as [|d cur]; [|discriminate].
      apply IH. right. destruct H as [H | (x & [-> | Hin] & Hx)];
        [congruence | congruence | eauto].
    + apply IH. left. discriminate.
Qed.

Lemma mentions_has_token (ln : str) :
  mentions_ground_truth ln = true -> Py.split_ws ln <> [].
Proof.
  unfold mentions_ground_truth. intros H.
  apply split_ws_aux_nonempty. right.
  apply orb_true_iff in H. destruct H as [H | H];
    [apply orb_true_iff in H; destruct H as [H | H]|];
    (refine (contains_lower_nonblank _ ln _ H); reflexivity).
Qed.

(** X5. [find_ground_truth] returns [None] exactly when no line
    mentions one of the three phrases; otherwise the first line that
    mentions one decides alone: the result is the last blank-separated
    token of that line without its surrounding double quotes, whatever
    the later lines say. *)
Theorem find_ground_truth_first_mention (lines : list str) :
  (find_ground_truth lines = None
   <-> Forall (fun ln => mentions_ground_truth ln = false) lines)
  /\ forall before ln after,
       lines = before ++ ln :: after ->
       Forall (fun l => mentions_ground_truth l = false) before ->
       mentions_ground_truth ln = true ->
       Py.split_ws ln <> []
       /\ find_ground_truth lines
          = Some (Py.strip_chars ["034"%char] (last (Py.split_ws ln) [])).
Proof.
  split.
  - induction lines as [|ln rest IH]; cbn [find_ground_truth].
    + split; auto.
    + destruct (mentions_ground_truth ln) eqn:M.
      * pose proof (mentions_has_token ln M) as T.
        destruct (Py.split_ws ln) as [|p ps]; [congruence|].
        split; [discriminate|]. intros H. inversion H. congruence.
      * rewrite IH. split; intros H; [constructor; auto | now inversion H].
  - intros before ln after -> Hb M.
    pose proof (mentions_has_token ln M) as T. split; [exact T|].
    induction Hb as [|l before Hl Hb IH]; cbn [app find_ground_truth].
    + rewrite M. destruct (Py.split_ws ln); [congruence | reflexivity].
    + rewrite Hl. exact IH.
Qed.

Lemma find_ground_truth_first_mention_witness :
  find_ground_truth [lit "hello"; quoted_truth_line; lit "ground truth: dog"]
  = Some (lit "cup").
Proof.
  destruct (find_ground_truth_first_mention
              [lit "hello"; quoted_truth_line; lit "ground truth: dog"])
    as [_ H].
  destruct (H [lit "hello"] quoted_truth_line [lit "ground truth: dog"]
              eq_refl) as [_ E].
  - repeat constructor.
  - vm_compute. reflexivity.
  - rewrite E. vm_compute. reflexivity.
Defined.

Lemma split_ws_aux_tokens (s cur : str) :
  forallb (fun c => negb (Py.isspace c)) cur = true ->
  Forall (fun t => forallb (fun c => negb (Py.isspace c)) t = true)
         (Py.split_ws_aux cur s).
Proof.
  revert cur. induction s as [|c s IH]; intros cur Hc; cbn [Py.split_ws_aux].
  - destruct cur; constructor; [now apply forallb_rev_str | constructor].
  - destruct (Py.isspace c) eqn:S.
    + destruct cur as [|d cur]; [now apply IH|].
      constructor; [now apply forallb_rev_str | now apply IH].
    + apply IH. cbn [forallb]. now rewrite S, Hc.
Qed.

Lemma last_forall {X : Type} (P : X -> Prop) (l : list X) (d : X) :
  Forall P l -> P d -> P (last l d).
Proof.
  intros H Hd. induction H as [|x l Hx H IH]; [exact Hd|].
  destruct l; [exact Hx | exact IH].
Qed.

(** Both ends of a string stripped of a class are outside the class. *)
Lemma strip_by_ends (p : ascii -> bool) (s : str) :
  let r := Py.rstrip_by p (Py.lstrip_by p s) in
  (forall c, hd_error r = Some c -> p c = false)
  /\ (r <> [] -> p (last r " "%char) = false).
Proof.
  unfold Py.rstrip_by, Py.lstrip_by.
  set (t := Py.dropwhile p s).
  pose proof (dropwhile_stops p s) as St. fold t in St.
  pose proof (dropwhile_stops p (rev t)) as Su.
  pose proof (takewhile_dropwhile p (rev t)) as E.
  set (u := Py.dropwhile p (rev t)) in *.
  assert (Et : t = rev u ++ rev (takewhile p (rev t))).
  { rewrite <- rev_app_distr, E, rev_involutive. reflexivity. }
  split.
  - intros c Hc. destruct (rev u) as [|x r]; [discriminate|].
    cbn in Hc. inversion Hc; subst x.
    rewrite Et in St. exact St.
  - intros Hne. destruct u as [|c u']; [cbn in Hne; congruence|].
    cbn [rev]. rewrite last_last. exact Su.
Qed.

(** X6. A label that [find_ground_truth] returns holds no blank and
    neither starts nor ends with a double quote. *)
Theorem find_ground_truth_label_shape (lines : list str) (label : str) :
  find_ground_truth lines = Some label ->
  forallb (fun c => negb (Py.isspace c)) label = true
  /\ hd_error label <> Some "034"%char
  /\ (label <> [] -> last label " "%char <> "034"%char).
Proof.
  induction lines as [|ln rest IH]; cbn [find_ground_truth]; [discriminate|].
  destruct (mentions_ground_truth ln); [|exact IH].
  destruct (Py.split_ws ln) as [|p ps] eqn:T; [exact IH|].
  assert (Tok : forallb (fun c => negb (Py.isspace c)) (last (p :: ps) [])
                = true).
  { apply (last_forall (fun t => forallb (fun c => negb (Py.isspace c)) t = true));
      [|reflexivity].
    rewrite <- T. apply split_ws_aux_tokens. reflexivity. }
  generalize dependent (last (p :: ps) []). intros tok Tok H.
  injection H as L. subst label.
  set (q := fun c => existsb (Py.char_eqb c) ["034"%char]).
  destruct (strip_by_ends q tok) as [Hh Hl].
  unfold Py.strip_chars. fold q.
  split; [|split].
  - unfold Py.rstrip_by, Py.lstrip_by.
    apply forallb_rev_str, forallb_dropwhile, forallb_rev_str,
      forallb_dropwhile, Tok.
  - intros E. specialize (Hh _ E). discriminate Hh.
  - intros Hne E. specialize (Hl Hne). rewrite E in Hl.
    discriminate Hl.
Qed.

Lemma find_ground_truth_label_shape_witness :
  find_ground_truth [lit "hello"; quoted_truth_line; lit "ground truth: dog"]
  = Some (lit "cup")
  /\ forallb (fun c => negb (Py.isspace c)) (lit "cup") = true
  /\ hd_error (lit "cup") <> Some "034"%char.
Proof.
  assert (E : find_ground_truth
                [lit "hello"; quoted_truth_line; lit "ground truth: dog"]
              = Some (lit "cup")) by (vm_compute; reflexivity).
  split; [exact E|].
  destruct (find_ground_truth_label_shape _ _ E) as (A & B & _).
  split; assumption.
Defined.

(** ** [compute_inference_duration]: what it leaves alone *)

Lemma assign_duration_frame (t : option Datetime.datetime) (ev : Event) :
  let o := assign_duration t ev in
  ts o = ts ev /\ component o = component ev /\ event o = event ev
  /\ details o = details ev /\ raw o = raw ev
  /\ exists ms, duration_ms o = Some ms
       /\ duration_hms o
          = Some (option_map (fun n => format_duration_ms (Some n)) ms).
Proof.
  unfold assign_duration.
  destruct t as [p|], (ts ev) as [c|] eqn:E;
    try (cbn; rewrite E; repeat split; exists None; split; reflexivity).
  destruct (elapsed_ms c p) as [ms|msg]; cbn; rewrite E; repeat split;
    [exists (Some ms) | exists None]; split; reflexivity.
Qed.

Lemma assign_first_frame (ev : Event) :
  let o := assign_first ev in
  ts o = ts ev /\ component o = component ev /\ event o = event ev
  /\ details o = details ev /\ raw o = raw ev
  /\ exists ms, duration_ms o = Some ms
       /\ duration_hms o
          = Some (option_map (fun n => format_duration_ms (Some n)) ms).
Proof.
  unfold assign_first.
  destruct (ts ev) as [c|] eqn:E; cbn; rewrite E; repeat split;
    [exists (Some 0) | exists None]; split; reflexivity.
Qed.

Lemma chain_frame (t : option Datetime.datetime) (l : list Event) :
  Forall2 (fun ev o =>
             ts o = ts ev /\ component o = component ev /\ event o = event ev
             /\ details o = details ev /\ raw o = raw ev
             /\ exists ms, duration_ms o = Some ms
                  /\ duration_hms o
                     = Some (option_map
                               (fun n => format_duration_ms (Some n)) ms))
          l (chain t l).
Proof.
  revert t. induction l as [|ev l IH]; intros t; cbn [chain]; constructor.
  - apply assign_duration_frame.
  - apply IH.
Qed.

(** One pass of the function, event by event. *)
Lemma compute_inference_duration_pointwise (events : list Event) :
  Forall2 (fun ev o =>
             ts o = ts ev /\ component o = component ev /\ event o = event ev
             /\ details o = details ev /\ raw o = raw ev
             /\ exists ms, duration_ms o = Some ms
                  /\ duration_hms o
                     = Some (option_map
                               (fun n => format_duration_ms (Some n)) ms))
          events (compute_inference_duration events).
Proof.
  destruct events as [|first rest]; [constructor|].
  rewrite compute_inference_duration_chain, chain_pop, pop_assign_first.
  constructor; [apply assign_first_frame | apply chain_frame].
Qed.

(** X7. [compute_inference_duration] changes the two duration keys and
    nothing else: the events keep their number, order, timestamp,
    component, event, details and raw line. Afterwards every event
    carries both keys, and [duration_hms] is the formatting of
    [duration_ms], null exactly when [duration_ms] is null. *)
Theorem compute_inference_duration_frame (events : list Event) :
  let out := compute_inference_duration events in
  map (fun ev => (ts ev, component ev, event ev, details ev, raw ev)) out
  = map (fun ev => (ts ev, component ev, event ev, details ev, raw ev)) events
  /\ Forall (fun o =>
               exists ms, duration_ms o = Some ms
                 /\ duration_hms o
                    = Some (option_map
                              (fun n => format_duration_ms (Some n)) ms)
                 /\ (get_duration_hms o = None <-> get_duration_ms o = None))
            out.
Proof.
  cbv zeta.
  induction (compute_inference_duration_pointwise events)
    as [|ev o l l' (T & C & E & D & R & ms & M & H) _ [IH1 IH2]];
    cbn [map]; [split; [reflexivity | constructor]|].
  split.
  - now rewrite T, C, E, D, R, IH1.
  - constructor; [|exact IH2].
    exists ms. split; [exact M|]. split; [exact H|].
    unfold get_duration_hms, get_duration_ms. rewrite M, H.
    destruct ms; cbn; split; congruence.
Qed.

(** ** The conversion to milliseconds *)

Lemma of_ratio_opp (n d : Z) :
  B64.of_ratio (- n) d = B64.neg (B64.of_ratio n d).
Proof.
  unfold B64.of_ratio.
  destruct (Z.eqb_spec n 0) as [->|Hn]; [reflexivity|].
  destruct (Z.eqb_spec (- n) 0); [lia|].
  destruct (Z.ltb_spec n 0), (Z.ltb_spec (- n) 0); try lia.
  - destruct (B64.round_pos (- n) d) as [m e| |]; cbn;
      [now rewrite Z.opp_involutive | reflexivity | reflexivity].
  - rewrite Z.opp_involutive. reflexivity.
Qed.

Lemma mul_neg_fin (x : B64.float) (m e : Z) :
  0 < m -> B64.mul (B64.neg x) (B64.Fin m e) = B64.neg (B64.mul x (B64.Fin m e)).
Proof.
  intros Hm. destruct x as [m1 e1| |]; cbn [B64.neg B64.mul].
  - unfold B64.scaled_num.
    replace (- m1 * m * 2 ^ Z.max (- - (e1 + e)) 0)
      with (- (m1 * m * 2 ^ Z.max (- - (e1 + e)) 0)) by ring.
    apply of_ratio_opp.
  - destruct (Z.ltb_spec m 0); [lia | reflexivity].
  - destruct (Z.ltb_spec m 0); [lia | reflexivity].
Qed.

Lemma to_int_neg (x : B64.float) :
  B64.to_int (B64.neg x) = option_map Z.opp (B64.to_int x).
Proof.
  destruct x as [m e| |]; cbn [B64.neg B64.to_int option_map];
    try reflexivity.
  unfold B64.scaled_num. f_equal.
  replace (- m * 2 ^ Z.max (- - e) 0) with (- (m * 2 ^ Z.max (- - e) 0))
    by ring.
  apply Z.quot_opp_l.
  unfold B64.scaled_den.
  pose proof (Z.pow_pos_nonneg 2 (Z.max (- e) 0) ltac:(lia) ltac:(lia)). lia.
Qed.

Lemma ms_of_timedelta_opp (td : Z) :
  ms_of_timedelta (- td)
  = match ms_of_timedelta td with
    | Ok ms => Ok (- ms)
    | Raise msg => Raise msg
    end.
Proof.
  unfold ms_of_timedelta, Datetime.total_seconds.
  rewrite of_ratio_opp, of_int_1000, mul_neg_fin, to_int_neg by lia.
  destruct (B64.to_int _); reflexivity.
Qed.

(** X8. Swapping the two timestamps of a subtraction negates the
    duration: [int((a - b).total_seconds() * 1000)] is the opposite of
    the value for [b - a], and one raises exactly when the other does.
    The product is truncated toward zero, so a negative difference
    is no floor. *)
Theorem elapsed_ms_swap (a b : Datetime.datetime) :
  elapsed_ms b a
  = match elapsed_ms a b with
    | Ok ms => Ok (- ms)
    | Raise msg => Raise msg
    end.
Proof.
  unfold elapsed_ms, Datetime.sub.
  generalize (Datetime.wall_us a) (Datetime.wall_us b). intros wa wb.
  destruct (Datetime.tzoffset a) as [oa|], (Datetime.tzoffset b) as [ob|];
    cbn [bind]; try reflexivity.
  - replace (wb - ob - (wa - oa)) with (- (wa - oa - (wb - ob))) by lia.
    apply ms_of_timedelta_opp.
  - replace (wb - wa) with (- (wa - wb)) by lia.
    apply ms_of_timedelta_opp.
Qed.

(** X9. Below [2^52] microseconds the conversion never raises, keeps
    the sign of the difference, never exceeds it in magnitude and
    falls short of it by at most one millisecond. *)
Theorem ms_of_timedelta_within_one_ms (td : Z) :
  Z.abs td < 2 ^ 52 ->
  exists ms,
    ms_of_timedelta td = Ok ms
    /\ 0 <= ms * td
    /\ Z.abs td - 1000 <= 1000 * Z.abs ms <= Z.abs td.
Proof.
  intros Hb. destruct (ms_of_timedelta_exact td Hb) as (ms & E & Hne & Heq).
  exists ms. split; [exact E|].
  assert (C : ms = Z.quot td 1000
              \/ (td mod 1000 = 0 /\ ms = Z.quot td 1000 - Z.sgn td)).
  { destruct (Z.eq_dec (td mod 1000) 0) as [M|M].
    - destruct (Heq M); [left | right]; auto.
    - left; auto. }
  clear Hne Heq E Hb.
  destruct (Z.lt_trichotomy td 0) as [Neg | [-> | Pos]].
  - assert (Q : Z.quot td 1000 = - (- td / 1000)).
    { replace td with (- - td) at 1 by lia.
      rewrite Z.quot_opp_l, Z.quot_div_nonneg by lia. reflexivity. }
    rewrite Q, Z.sgn_neg in C by lia.
    pose proof (Z.div_mod (- td) 1000 ltac:(lia)).
    pose proof (Z.mod_pos_bound (- td) 1000 ltac:(lia)).
    assert (M : td mod 1000 = 0 -> (- td) mod 1000 = 0).
    { rewrite !Z.mod_divide by lia. intros [k Hk]; exists (- k); lia. }
    pose proof (Z.div_pos (- td) 1000 ltac:(lia) ltac:(lia)).
    destruct C as [-> | [M0 ->]].
    + split; [apply Z.mul_nonpos_nonpos; lia | lia].
    + specialize (M M0). split; [apply Z.mul_nonpos_nonpos; lia | lia].
  - destruct C as [-> | [_ ->]]; cbn; lia.
  - rewrite Z.quot_div_nonneg, Z.sgn_pos in C by lia.
    pose proof (Z.div_mod td 1000 ltac:(lia)).
    pose proof (Z.mod_pos_bound td 1000 ltac:(lia)).
    pose proof (Z.div_pos td 1000 ltac:(lia) ltac:(lia)).
    destruct C as [-> | [M0 ->]].
    + split; [apply Z.mul_nonneg_nonneg; lia | lia].
    + split; [apply Z.mul_nonneg_nonneg; lia | lia].
Qed.

Lemma ms_of_timedelta_within_one_ms_witness :
  exists ms,
    ms_of_timedelta 1001000 = Ok ms
    /\ 0 <= ms * 1001000
    /\ Z.abs 1001000 - 1000 <= 1000 * Z.abs ms <= Z.abs 1001000.
Proof.
  apply (ms_of_timedelta_within_one_ms 1001000). vm_compute. reflexivity.
Defined.

(** ** [process_file]: the rows of a readable file *)

Lemma dropwhile_fixed (p : ascii -> bool) (s : str) :
  stops p s -> Py.dropwhile p s = s.
Proof. destruct s as [|c s]; cbn; [auto|]. now intros ->. Qed.

(** Stripping a class twice strips no more than once. *)
Lemma strip_by_idem (p : ascii -> bool) (s : str) :
  let r := Py.rstrip_by p (Py.lstrip_by p s) in
  Py.rstrip_by p (Py.lstrip_by p r) = r.
Proof.
  intros r. destruct (strip_by_ends p s) as [Hh Hl]. fold r in Hh, Hl.
  unfold Py.rstrip_by, Py.lstrip_by.
  assert (S1 : stops p r).
  { destruct r as [|c t]; cbn; [auto|]. apply Hh. reflexivity. }
  rewrite (dropwhile_fixed p r S1).
  assert (S2 : stops p (rev r)).
  { destruct (list_eq_dec ascii_dec r []) as [E | Hne]; [rewrite E; cbn; auto|].
    specialize (Hl Hne).
    destruct (exists_last Hne) as (r' & l & E). rewrite E in *.
    rewrite last_last in Hl. rewrite rev_app_distr. exact Hl. }
  rewrite (dropwhile_fixed p _ S2). apply rev_involutive.
Qed.

Lemma strip_idem (s : str) : Py.strip (Py.strip s) = Py.strip s.
Proof. apply (strip_by_idem Py.isspace). Qed.

Lemma event_rows_length (events : list Event) (truth : option str)
      (ilum : str) (esc : Z) (mode : str) :
  (List.length (event_rows events truth ilum esc mode)
   <= List.length events)%nat.
Proof.
  induction events as [|ev rest IH]; cbn [event_rows List.length]; [lia|].
  destruct (event ev) as [evt|]; [|lia].
  destruct (negb (Py.truthy evt)); cbn [List.length]; lia.
Qed.

Lemma forall2_in_right {X Y : Type} (P : X -> Y -> Prop) (l : list X)
      (l' : list Y) (y : Y) :
  Forall2 P l l' -> In y l' -> exists x, In x l /\ P x y.
Proof.
  induction 1 as [|x0 y0 l l' H _ IH]; [intros []|].
  intros [<- | Hin].
  - exists x0. split; [left; reflexivity | exact H].
  - destruct (IH Hin) as (x & Hx & Px). exists x. split; [right|]; assumption.
Qed.

(** The name of an event of a file is trimmed. *)
Lemma file_event_trimmed (fromisoformat : str -> exc Datetime.datetime)
      (text : str) (ev : Event) (evt : str) :
  In ev (file_events fromisoformat text) -> event ev = Some evt ->
  Py.strip evt = evt.
Proof.
  intros Hin E. unfold file_events in Hin.
  destruct (forall2_in_right _ _ _ _
              (compute_inference_duration_pointwise _) Hin)
    as (ev0 & Hin0 & _ & _ & E0 & _).
  rewrite E in E0. apply in_flat_map in Hin0.
  destruct Hin0 as (ln & _ & Hin0).
  destruct (line_events_cases fromisoformat ln)
    as [[_ L] | [(_ & _ & L) | (_ & m & comp & evt0 & _ & _ & _ & L)]];
    rewrite L in Hin0.
  - destruct Hin0.
  - destruct Hin0 as [<- | []]. discriminate E0.
  - destruct Hin0 as [<- | []]. cbn in E0. inversion E0. apply strip_idem.
Qed.

(** X10. [process_file] on a readable file returns at least one row
    and at most one row per non-blank line. Every row carries the
    mode and the scenario of the call, the lighting [LED] and an
    empty distance; its event type is never empty, and the event type
    and the predicted label have no blank at either end. *)
Theorem process_file_rows_shape
        (fromisoformat : str -> exc Datetime.datetime)
        (text : str) (esc : Z) (mode : str) :
  exists rows,
    process_text fromisoformat text esc mode = Ok rows
    /\ rows <> []
    /\ (List.length rows
        <= Nat.max 1 (List.length (filter Py.truthy
                                     (map Py.strip (Py.splitlines text)))))%nat
    /\ forall r, In r rows ->
         modo r = mode /\ escenario r = esc
         /\ iluminacion r = lit "LED" /\ distancia_m r = []
         /\ tipo_de_evento r <> []
         /\ Py.strip (tipo_de_evento r) = tipo_de_evento r
         /\ Py.strip (objeto_predicho r) = objeto_predicho r.
Proof.
  eexists. split; [apply process_text_rows|].
  split; [|split].
  - destruct (event_rows _ _ _ _ _); discriminate.
  - pose proof (event_rows_length (file_events fromisoformat text)
                  (file_truth text) (lit "LED") esc mode) as L.
    unfold file_events in L at 2.
    rewrite compute_inference_duration_length in L.
    rewrite <- (flat_map_raw fromisoformat), length_map.
    destruct (event_rows _ _ _ _ _); cbn [List.length] in *; lia.
  - intros r Hin.
    destruct (process_text_row_cases fromisoformat text esc mode _ r
                (process_text_rows _ _ _ _) Hin)
      as [(ev & evt & Hev & E & T & ->) | (_ & _ & ->)].
    + cbn [row_of_event modo escenario iluminacion distancia_m tipo_de_evento
           objeto_predicho].
      rewrite (file_event_trimmed fromisoformat text ev evt Hev E).
      repeat split.
      * apply truthy_nonempty. exact T.
      * apply (file_event_trimmed fromisoformat text ev evt Hev E).
      * unfold extract_label. apply strip_idem.
    + cbn [no_result_row modo escenario iluminacion distancia_m tipo_de_evento
           objeto_predicho].
      repeat split. discriminate.
Qed.

Lemma process_file_rows_shape_witness :
  exists r,
    process_text Datetime.fromisoformat cup_text 1 (lit "MOBILE") = Ok [r]
    /\ modo r = lit "MOBILE" /\ escenario r = 1
    /\ iluminacion r = lit "LED" /\ tipo_de_evento r <> [].
Proof.
  destruct (process_file_rows_shape Datetime.fromisoformat cup_text 1
              (lit "MOBILE")) as (rows & E & _ & _ & H).
  assert (R : exists r, rows = [r]).
  { vm_compute in E. inversion E. eexists. reflexivity. }
  destruct R as (r & ->).
  exists r. split; [exact E|].
  destruct (H r (or_introl eq_refl)) as (M & S & I & _ & T & _). auto.
Defined.

(** ** [CONF_RE]: what a match captured *)

Lemma literal_ci_inv (subject w s : str) (caps : Re.captures)
      (k : str -> Re.captures -> option Re.matched) (m : Re.matched) :
  Re.run subject (Re.literal_ci w) s caps k = Some m ->
  exists pre rest,
    s = pre ++ rest /\ Py.lower pre = Py.lower w /\ k rest caps = Some m.
Proof.
  revert s. induction w as [|c w IH]; intros s; cbn [Re.literal_ci Re.run].
  - intros H. exists [], s. auto.
  - destruct s as [|x s]; [discriminate|].
    destruct (Re.is_char_ci c x) eqn:E; [|discriminate].
    intros H. destruct (IH s H) as (pre & rest & -> & L & K).
    exists (x :: pre), rest. cbn [app Py.lower map]. repeat split; auto.
    apply Ascii.eqb_eq in E. unfold Py.lower in L. now rewrite E, L.
Qed.

Lemma search_from_inv (subject : str) (r : Re.regex) (start : nat) (s : str)
      (n : nat) (m : Re.matched) :
  Re.search_from subject r start s = Some (n, m) ->
  exists before at_,
    s = before ++ at_ /\ n = (start + List.length before)%nat
    /\ Re.run subject r at_ [] Re.accept = Some m.
Proof.
  revert start. induction s as [|c s IH]; intros start; cbn [Re.search_from].
  - destruct (Re.run subject r [] [] Re.accept) eqn:E; [|discriminate].
    intros H; inversion H; subst. exists [], []. cbn. auto.
  - destruct (Re.run subject r (c :: s) [] Re.accept) eqn:E.
    + intros H; inversion H; subst. exists [], (c :: s). cbn. auto.
    + intros H. destruct (IH _ H) as (before & at_ & -> & -> & R).
      exists (c :: before), at_. cbn [app List.length].
      split; [reflexivity|]. split; [lia | exact R].
Qed.

(** The group [conf] of a match of [CONF_RE]: digits, at most one dot,
    and at least one digit at the end. *)
Lemma conf_re_inv (subject s : str) (m : Re.matched) :
  Re.run subject CONF_RE s [] Re.accept = Some m ->
  exists a d b,
    Re.group "conf" (Re.m_groups m) = Some (a ++ d ++ b)
    /\ forallb Py.isdigit a = true /\ (d = [] \/ d = ["."%char])
    /\ forallb Py.isdigit b = true /\ b <> [].
Proof.
  unfold CONF_RE. cbn [Re.run]. intros H.
  apply literal_ci_inv in H. destruct H as (pre & rest & _ & _ & H).
  apply rep_greedy_inv in H. destruct H as (w & s1 & _ & _ & _ & H).
  apply rep_greedy_inv in H. destruct H as (a & s2 & -> & Ha & _ & H).
  assert (Tail : forall d s3,
             s2 = d ++ s3 -> (d = [] \/ d = ["."%char]) ->
             Re.rep_greedy Re.digit 1 s3
               (fun s' => Re.accept s'
                  [("conf"%string,
                    firstn (List.length (a ++ s2) - List.length s') (a ++ s2))])
             = Some m ->
             exists b,
               Re.group "conf" (Re.m_groups m) = Some (a ++ d ++ b)
               /\ forallb Py.isdigit b = true /\ b <> []).
  { intros d s3 -> Hd T.
    apply rep_greedy_inv in T. destruct T as (b & s4 & -> & Hb & Lb & T).
    inversion T. cbn [Re.m_groups Re.group String.eqb].
    exists b. split; [|split; [exact Hb | destruct b; [cbn in Lb; lia | discriminate]]].
    cbn. f_equal.
    replace (a ++ d ++ b ++ s4) with ((a ++ d ++ b) ++ s4)
      by (now rewrite <- !app_assoc).
    apply firstn_app_exact. }
  destruct s2 as [|c s3].
  - destruct (Tail [] [] eq_refl (or_introl eq_refl) H) as (b & G & Hb & Nb).
    exists a, [], b. auto.
  - destruct (Re.is_char "." c) eqn:C.
    + apply is_char_eq in C. subst c.
      destruct (Re.rep_greedy Re.digit 1 s3 _) eqn:T.
      * inversion H; subst.
        destruct (Tail ["."%char] s3 eq_refl (or_intror eq_refl) T)
          as (b & G & Hb & Nb).
        exists a, ["."%char], b. auto.
      * destruct (Tail [] ("."%char :: s3) eq_refl (or_introl eq_refl) H)
          as (b & G & Hb & Nb).
        exists a, [], b. auto.
    + destruct (Tail [] (c :: s3) eq_refl (or_introl eq_refl) H)
        as (b & G & Hb & Nb).
      exists a, [], b. auto.
Qed.

Lemma split_at_dot_digits (a rest : str) :
  forallb Py.isdigit a = true ->
  B64.split_at_dot (a ++ rest)
  = (a ++ fst (B64.split_at_dot rest), snd (B64.split_at_dot rest)).
Proof.
  induction a as [|c a IH]; cbn [app forallb B64.split_at_dot]; intros H.
  - now destruct (B64.split_at_dot rest).
  - apply andb_true_iff in H. destruct H as [Hc Ha].
    assert (N : Py.char_eqb c "." = false).
    { destruct (Py.char_eqb c ".") eqn:E; [|reflexivity].
      apply Ascii.eqb_eq in E. subst c. discriminate Hc. }
    rewrite N, (IH Ha). reflexivity.
Qed.

(** [float] accepts every text that the group [conf] can hold. *)
Lemma of_decimal_conf (a d b : str) :
  forallb Py.isdigit a = true -> (d = [] \/ d = ["."%char]) ->
  forallb Py.isdigit b = true -> b <> [] ->
  exists x, B64.of_decimal (a ++ d ++ b) = Some x.
Proof.
  intros Ha Hd Hb Nb. unfold B64.of_decimal.
  rewrite (split_at_dot_digits a _ Ha).
  destruct Hd as [-> | ->]; cbn [app].
  - pose proof (split_at_dot_digits b [] Hb) as S.
    rewrite app_nil_r in S. rewrite S. cbn [B64.split_at_dot fst snd].
    rewrite !app_nil_r, forallb_app, Ha, Hb. cbn [forallb andb].
    destruct b; [congruence|]. rewrite length_app. cbn [List.length].
    replace (_ =? 0)%nat with false by (symmetry; apply Nat.eqb_neq; lia).
    eexists; reflexivity.
  - cbn [B64.split_at_dot]. change (Py.char_eqb "." ".") with true.
    cbn [fst snd]. rewrite app_nil_r, Ha, Hb. cbn [andb].
    destruct b; [congruence|]. cbn [List.length].
    replace (_ =? 0)%nat with false by (symmetry; apply Nat.eqb_neq; lia).
    eexists; reflexivity.
Qed.

Lemma format_3f_nonempty (x : B64.float) : B64.format_3f x <> [].
Proof.
  destruct x as [m e| |]; cbn [B64.format_3f]; try discriminate.
  intros H. apply app_eq_nil in H. destruct H as [_ H].
  apply app_eq_nil in H. destruct H as [H _].
  exact (digits_nonempty _ H).
Qed.

(** X11. The [try] around [float(conf_m.group(...))] never fires:
    whenever [CONF_RE] finds a match in the details, the captured text
    is a float literal, so the confidence of an event row is empty
    exactly when the details hold no match of [CONF_RE]. *)
Theorem confianza_empty_iff_no_match (ev : Event) (evt : str)
        (truth : option str) (ilum : str) (esc : Z) (mode : str) :
  (extract_conf (details ev) = None
   <-> Re.re_search CONF_RE (details ev) = None)
  /\ (confianza (row_of_event ev evt truth ilum esc mode) = []
      <-> Re.re_search CONF_RE (details ev) = None).
Proof.
  assert (A : extract_conf (details ev) = None
              <-> Re.re_search CONF_RE (details ev) = None).
  { unfold extract_conf.
    destruct (Re.re_search CONF_RE (details ev)) as [[n cm]|] eqn:S;
      [|tauto].
    split; [|discriminate]. intros H. exfalso.
    apply search_from_inv in S. destruct S as (before & at_ & _ & _ & R).
    destruct (conf_re_inv _ _ _ R) as (a & d & b & G & Ha & Hd & Hb & Nb).
    rewrite G in H.
    destruct (of_decimal_conf a d b Ha Hd Hb Nb) as (x & X).
    congruence. }
  split; [exact A|].
  rewrite <- A. cbn [row_of_event confianza].
  destruct (extract_conf (details ev)) as [x|]; [|tauto].
  split; [|discriminate]. intros H. exfalso.
  exact (format_3f_nonempty x H).
Qed.

(** ** Decimal digits *)

Lemma digit_char_code (d : Z) :
  0 <= d < 10 ->
  Py.code (Py.digit_char d) = 48 + d /\ Py.isdigit (Py.digit_char d) = true.
Proof.
  intros H.
  assert (C : (Py.code (Py.digit_char d) =? 48 + d)
              && Py.isdigit (Py.digit_char d) = true).
  { apply (below_by_computation 10
             (fun d => (Py.code (Py.digit_char d) =? 48 + d)
                       && Py.isdigit (Py.digit_char d)));
      [vm_compute; reflexivity | exact H]. }
  apply andb_true_iff in C. destruct C as [C1 C2].
  split; [now apply Z.eqb_eq | exact C2].
Qed.

Lemma decimal_int_app (a b : str) (acc : Z) :
  B64.decimal_int acc (a ++ b) = B64.decimal_int (B64.decimal_int acc a) b.
Proof.
  revert acc. induction a as [|c a IH]; intros acc; cbn [app B64.decimal_int];
    [reflexivity | apply IH].
Qed.

Lemma digits_fuel_value (fuel : nat) (n : Z) :
  0 <= n -> Z.log2 n < Z.of_nat fuel ->
  B64.decimal_int 0 (Py.digits_fuel fuel n) = n
  /\ forallb Py.isdigit (Py.digits_fuel fuel n) = true.
Proof.
  revert n. induction fuel as [|fuel IH]; intros n Hn Hl.
  - pose proof (Z.log2_nonneg n). lia.
  - cbn [Py.digits_fuel]. destruct (Z.ltb_spec n 10) as [L|L].
    + destruct (digit_char_code n ltac:(lia)) as [C D].
      cbn [B64.decimal_int forallb]. rewrite C, D. split; [lia | reflexivity].
    + assert (Hq : 0 <= n / 10) by (apply Z.div_pos; lia).
      assert (Lq : Z.log2 (n / 10) < Z.of_nat fuel).
      { assert (Z.log2 (n / 10) < Z.log2 n); [|lia].
        assert (0 < n / 10) by (apply Z.div_str_pos; lia).
        apply Z.log2_lt_pow2; [assumption|].
        pose proof (Z.log2_spec n ltac:(lia)) as [_ U].
        rewrite Z.pow_succ_r in U by apply Z.log2_nonneg.
        apply Z.div_lt_upper_bound; lia. }
      destruct (IH (n / 10) Hq Lq) as [V D].
      destruct (digit_char_code (n mod 10)
                  (Z.mod_pos_bound n 10 ltac:(lia))) as [C Dc].
      rewrite decimal_int_app, V, forallb_app, D.
      cbn [B64.decimal_int forallb]. rewrite C, Dc.
      pose proof (Z.div_mod n 10 ltac:(lia)). split; [lia | reflexivity].
Qed.

(** The digits of [n] read back as [n]. *)
Lemma digits_value (n : Z) :
  0 <= n ->
  B64.decimal_int 0 (Py.digits n) = n
  /\ forallb Py.isdigit (Py.digits n) = true.
Proof.
  intros Hn. apply digits_fuel_value; [exact Hn|].
  pose proof (Z.log2_nonneg n). lia.
Qed.

Lemma digit3_value (u acc : Z) :
  0 <= u < 1000 ->
  B64.decimal_int acc (digit3 u) = 1000 * acc + u
  /\ forallb Py.isdigit (digit3 u) = true.
Proof.
  intros H. unfold digit3.
  assert (A : 0 <= u / 100 < 10).
  { split; [apply Z.div_pos; lia | apply Z.div_lt_upper_bound; lia]. }
  assert (B : 0 <= u / 10 mod 10 < 10) by (apply Z.mod_pos_bound; lia).
  assert (C : 0 <= u mod 10 < 10) by (apply Z.mod_pos_bound; lia).
  destruct (digit_char_code _ A) as [A1 A2].
  destruct (digit_char_code _ B) as [B1 B2].
  destruct (digit_char_code _ C) as [C1 C2].
  cbn [B64.decimal_int forallb]. rewrite A1, B1, C1, A2, B2, C2.
  split; [|reflexivity].
  pose proof (Z.div_mod u 10 ltac:(lia)).
  pose proof (Z.div_mod (u / 10) 10 ltac:(lia)).
  replace (u / 100) with (u / 10 / 10)
    by (rewrite Z.div_div by lia; reflexivity).
  lia.
Qed.

(** ** A confidence with three decimals *)

Lemma of_decimal_three_decimals (k : Z) :
  0 <= k ->
  B64.of_decimal (three_decimals k) = Some (B64.of_ratio k 1000).
Proof.
  intros Hk. unfold three_decimals, B64.of_decimal.
  assert (Hq : 0 <= k / 1000) by (apply Z.div_pos; lia).
  destruct (digits_value (k / 1000) Hq) as [V D].
  destruct (digit3_value (k mod 1000) (k / 1000)
              (Z.mod_pos_bound k 1000 ltac:(lia))) as [V3 D3].
  rewrite (split_at_dot_digits _ _ D).
  cbn [lit list_ascii_of_string app B64.split_at_dot].
  change (Py.char_eqb "." ".") with true. cbn [fst snd].
  rewrite app_nil_r, D, D3. cbn [andb].
  replace (negb _) with true.
  2:{ unfold digit3. cbn [List.length].
      rewrite Nat.add_comm. reflexivity. }
  rewrite decimal_int_app, V, V3.
  replace (1000 * (k / 1000) + k mod 1000) with k
    by (pose proof (Z.div_mod k 1000 ltac:(lia)); lia).
  reflexivity.
Qed.

Lemma rne_exact (n d k : Z) :
  0 <= n -> 0 < d -> - d < 2 * (n - k * d) < d -> B64.rne n d = k.
Proof.
  intros Hn Hd Hk. pose proof (rne_error n d Hn Hd) as E.
  set (r := B64.rne n d) in *.
  destruct (Z.lt_trichotomy r k) as [L | [-> | G]]; [|reflexivity|].
  - assert ((r + 1) * d <= k * d) by (apply Z.mul_le_mono_nonneg_r; lia).
    lia.
  - assert ((k + 1) * d <= r * d) by (apply Z.mul_le_mono_nonneg_r; lia).
    lia.
Qed.

Lemma format_3f_of_ratio_1000 (k : Z) :
  0 <= k < 2 ^ 52 ->
  B64.format_3f (B64.of_ratio k 1000) = three_decimals k.
Proof.
  intros Hk. destruct (Z.eq_dec k 0) as [-> | Hne];
    [vm_compute; reflexivity|].
  unfold B64.of_ratio.
  destruct (Z.eqb_spec k 0); [lia|]. destruct (Z.ltb_spec k 0); [lia|].
  pose proof (ilog2_ratio_bounds k 1000) as LB.
  change (Z.log2 1000) with 9 in LB.
  assert (L1 : 0 <= Z.log2 k) by apply Z.log2_nonneg.
  assert (L2 : Z.log2 k < 52) by (apply Z.log2_lt_pow2; lia).
  destruct (round_pos_normal k 1000 ltac:(lia) ltac:(lia) ltac:(lia))
    as (R & Hm & Err).
  set (e := B64.ilog2_ratio k 1000 - 52) in *.
  set (m := B64.rne _ _) in *. clearbody m.
  rewrite R. cbn [B64.format_3f].
  assert (He : e <= -10) by (subst e; lia).
  unfold B64.scaled_num, B64.scaled_den in *.
  rewrite (Z.max_l (- e) 0), (Z.max_r e 0) in Err by lia.
  rewrite (Z.max_r (- - e) 0), (Z.max_l (- e) 0) by lia.
  change (2 ^ 0) with 1 in *. rewrite Z.mul_1_r in *. rewrite Z.mul_1_l.
  assert (Q : 2 ^ 10 <= 2 ^ (- e)) by (apply Z.pow_le_mono_r; lia).
  change (2 ^ 10) with 1024 in Q.
  assert (M0 : 0 < m) by (pose proof (Z.pow_pos_nonneg 2 52); lia).
  rewrite (Z.abs_eq m) by lia.
  rewrite (rne_exact (m * 1000) (2 ^ (- e)) k); [| lia | lia | lia].
  destruct (Z.ltb_spec m 0); [lia|].
  unfold three_decimals. cbn [app].
  rewrite format_0d_3_digit3 by (apply Z.mod_pos_bound; lia).
  reflexivity.
Qed.

(** X12. A confidence written with three decimals survives the trip
    through [float] and the format [.3f] unchanged, for every value
    below [2^52] thousandths: the row shows the digits of the log. *)
Theorem confidence_three_decimals_round_trip (k : Z) :
  0 <= k < 2 ^ 52 ->
  exists x,
    B64.of_decimal (three_decimals k) = Some x
    /\ B64.format_3f x = three_decimals k.
Proof.
  intros Hk. exists (B64.of_ratio k 1000). split.
  - apply of_decimal_three_decimals. lia.
  - apply format_3f_of_ratio_1000. exact Hk.
Qed.

Lemma confidence_three_decimals_round_trip_witness :
  exists x,
    B64.of_decimal (three_decimals 875) = Some x
    /\ B64.format_3f x = three_decimals 875.
Proof.
  apply (confidence_three_decimals_round_trip 875). lia.
Defined.

(** ** [format_duration_ms]: reading the fields back *)

Lemma app_inv_same_length {X : Type} (a1 a2 t1 t2 : list X) :
  a1 ++ t1 = a2 ++ t2 -> List.length t1 = List.length t2 ->
  a1 = a2 /\ t1 = t2.
Proof.
  revert a2. induction a1 as [|x a1 IH]; intros [|y a2] E L; cbn [app] in E.
  - auto.
  - exfalso. subst t1. cbn [List.length] in L. rewrite length_app in L. lia.
  - exfalso. subst t2. cbn [List.length] in L. rewrite length_app in L. lia.
  - inversion E as [[Hx E']]. destruct (IH a2 E' L) as [-> ->]. auto.
Qed.

Lemma digit_char_inj (c d : Z) :
  0 <= c < 10 -> 0 <= d < 10 -> Py.digit_char c = Py.digit_char d -> c = d.
Proof.
  intros Hc Hd E.
  pose proof (proj1 (digit_char_code c Hc)) as C.
  pose proof (proj1 (digit_char_code d Hd)) as D.
  rewrite E in C. lia.
Qed.

Lemma digit2_inj (m n : Z) :
  0 <= m < 100 -> 0 <= n < 100 -> digit2 m = digit2 n -> m = n.
Proof.
  intros Hm Hn E. unfold digit2 in E. inversion E as [[E1 E2]].
  apply digit_char_inj in E1, E2;
    try (apply Z.mod_pos_bound; lia);
    try (split; [apply Z.div_pos; lia | apply Z.div_lt_upper_bound; lia]).
  pose proof (Z.div_mod m 10 ltac:(lia)).
  pose proof (Z.div_mod n 10 ltac:(lia)). lia.
Qed.

Lemma digit3_inj (m n : Z) :
  0 <= m < 1000 -> 0 <= n < 1000 -> digit3 m = digit3 n -> m = n.
Proof.
  intros Hm Hn E.
  pose proof (proj1 (digit3_value m 0 Hm)) as Vm.
  pose proof (proj1 (digit3_value n 0 Hn)) as Vn.
  rewrite E in Vm. lia.
Qed.

Lemma decimal_int_zeros (k : nat) (s : str) :
  B64.decimal_int 0 (repeat "0"%char k ++ s) = B64.decimal_int 0 s.
Proof. induction k as [|k IH]; cbn [repeat app B64.decimal_int]; auto. Qed.

Lemma forallb_repeat_zero (k : nat) :
  forallb Py.isdigit (repeat "0"%char k) = true.
Proof. induction k as [|k IH]; cbn [repeat forallb]; auto. Qed.

(** A field printed with [0<w>d] reads back as its number. *)
Lemma format_0d_value (w : nat) (n : Z) :
  0 <= n ->
  B64.decimal_int 0 (Py.format_0d w n) = n
  /\ forallb Py.isdigit (Py.format_0d w n) = true.
Proof.
  intros Hn. unfold Py.format_0d, Py.zfill.
  destruct (Z.ltb_spec n 0); [lia|].
  destruct (digits_value n Hn) as [V D].
  rewrite decimal_int_zeros, forallb_app, forallb_repeat_zero, D. auto.
Qed.

Lemma format_0d_2_inj (h k : Z) :
  Py.format_0d 2 h = Py.format_0d 2 k -> h = k.
Proof.
  intros E.
  destruct (Z.lt_ge_cases h 0) as [Hh|Hh], (Z.lt_ge_cases k 0) as [Hk|Hk].
  - rewrite !format_0d_2_negative in E by assumption.
    inversion E as [E'].
    pose proof (proj1 (digits_value (- h) ltac:(lia))) as V1.
    pose proof (proj1 (digits_value (- k) ltac:(lia))) as V2.
    rewrite E' in V1. lia.
  - exfalso. pose proof (proj2 (format_0d_value 2 k Hk)) as D.
    rewrite <- E, format_0d_2_negative in D by assumption.
    discriminate D.
  - exfalso. pose proof (proj2 (format_0d_value 2 h Hh)) as D.
    rewrite E, format_0d_2_negative in D by assumption.
    discriminate D.
  - pose proof (proj1 (format_0d_value 2 h Hh)) as V1.
    pose proof (proj1 (format_0d_value 2 k Hk)) as V2.
    rewrite E in V1. lia.
Qed.

Lemma format_duration_ms_some_inj (a b : Z) :
  format_duration_ms (Some a) = format_duration_ms (Some b) -> a = b.
Proof.
  destruct (format_duration_ms_fields a)
    as (h1 & m1 & s1 & u1 & Hm1 & Hs1 & Hu1 & -> & ->).
  destruct (format_duration_ms_fields b)
    as (h2 & m2 & s2 & u2 & Hm2 & Hs2 & Hu2 & -> & ->).
  rewrite (format_0d_2_digit2 m1), (format_0d_2_digit2 s1),
    (format_0d_2_digit2 m2), (format_0d_2_digit2 s2),
    (format_0d_3_digit3 u1), (format_0d_3_digit3 u2) by lia.
  intros E. apply app_inv_same_length in E; [|reflexivity].
  destruct E as [Eh Et]. apply format_0d_2_inj in Eh. subst h2.
  cbn [lit list_ascii_of_string app] in Et.
  inversion Et as [[Em1 Em2 Es1 Es2 Eu1 Eu2 Eu3]].
  assert (Em : m1 = m2).
  { apply digit2_inj; [lia | lia | unfold digit2; congruence]. }
  assert (Es : s1 = s2).
  { apply digit2_inj; [lia | lia | unfold digit2; congruence]. }
  assert (Eu : u1 = u2).
  { apply digit3_inj; [lia | lia | unfold digit3; congruence]. }
  congruence.
Qed.

(** X13. [format_duration_ms] loses nothing: two different arguments,
    negative ones and [None] included, never give the same text. *)
Theorem format_duration_ms_distinct (x y : option Z) :
  x <> y -> format_duration_ms x <> format_duration_ms y.
Proof.
  assert (N : forall a, format_duration_ms (Some a) <> []).
  { intros a. destruct (format_duration_ms_fields a)
      as (h & m & s & u & _ & _ & _ & _ & ->).
    intros E. apply app_eq_nil in E. destruct E as [_ E]. discriminate E. }
  intros Hne E. apply Hne. destruct x as [a|], y as [b|].
  - f_equal. now apply format_duration_ms_some_inj.
  - exfalso. exact (N a E).
  - exfalso. exact (N b (eq_sym E)).
  - reflexivity.
Qed.

Lemma format_duration_ms_distinct_witness :
  format_duration_ms (Some 999) <> format_duration_ms (Some 1000)
  /\ format_duration_ms (Some (-1)) <> format_duration_ms None.
Proof.
  split.
  - apply (format_duration_ms_distinct (Some 999) (Some 1000)). discriminate.
  - apply (format_duration_ms_distinct (Some (-1)) None). discriminate.
Defined.

(** ** Durations of a hundred hours and more *)

Lemma digits_fuel_step (fuel : nat) (n : Z) :
  10 <= n ->
  Py.digits_fuel (S fuel) n
  = Py.digits_fuel fuel (n / 10) ++ [Py.digit_char (n mod 10)].
Proof.
  intros H. cbn [Py.digits_fuel]. destruct (Z.ltb_spec n 10); [lia|].
  reflexivity.
Qed.

Lemma digits_three (n : Z) :
  100 <= n -> (3 <= List.length (Py.digits n))%nat.
Proof.
  intros H. unfold Py.digits.
  assert (L : 6 <= Z.log2 n).
  { change 6 with (Z.log2 100). apply Z.log2_le_mono. exact H. }
  destruct (Z.to_nat (Z.log2 n)) as [|[|f]] eqn:F; try lia.
  assert (10 <= n / 10) by (apply Z.div_le_lower_bound; lia).
  rewrite (digits_fuel_step _ n), (digits_fuel_step _ (n / 10)) by lia.
  rewrite !length_app. cbn [List.length].
  pose proof (digits_fuel_nonempty f (n / 10 / 10)) as Ne.
  destruct (Py.digits_fuel (S f) (n / 10 / 10)); [congruence|].
  cbn [List.length]. lia.
Qed.

Lemma is_hms_long (s : str) :
  (12 < List.length s)%nat -> is_hms s = false.
Proof.
  intros H. unfold is_hms.
  do 12 (destruct s as [|? s]; [cbn in H; lia|]).
  destruct s; [cbn in H; lia | reflexivity].
Qed.

(** X14. From a hundred hours on the hours field takes three digits or
    more: the text is longer than twelve characters and leaves the
    shape [HH:MM:SS.mmm]. *)
Theorem format_duration_ms_hundred_hours (ms : Z) :
  360000000 <= ms ->
  exists h m s u,
    100 <= h /\ 0 <= m < 60 /\ 0 <= s < 60 /\ 0 <= u < 1000
    /\ ms = ((h * 60 + m) * 60 + s) * 1000 + u
    /\ format_duration_ms (Some ms)
       = Py.digits h ++ lit ":" ++ digit2 m ++ lit ":" ++ digit2 s
           ++ lit "." ++ digit3 u
    /\ (12 < List.length (format_duration_ms (Some ms)))%nat
    /\ is_hms (format_duration_ms (Some ms)) = false.
Proof.
  intros H.
  destruct (format_duration_ms_fields ms)
    as (h & m & s & u & Hm & Hs & Hu & E & F).
  assert (Hh : 100 <= h) by lia.
  pose proof (digits_three h Hh) as L.
  assert (F' : format_duration_ms (Some ms)
               = Py.digits h ++ lit ":" ++ digit2 m ++ lit ":" ++ digit2 s
                   ++ lit "." ++ digit3 u).
  { rewrite F, (format_0d_2_digit2 m), (format_0d_2_digit2 s),
      format_0d_3_digit3 by lia.
    unfold Py.format_0d. destruct (Z.ltb_spec h 0); [lia|].
    rewrite zfill_short by lia. reflexivity. }
  assert (Len : (12 < List.length (format_duration_ms (Some ms)))%nat).
  { rewrite F', length_app. cbn [lit list_ascii_of_string app digit2 digit3
                                   List.length]. lia. }
  exists h, m, s, u. repeat split; try lia; try assumption.
  apply is_hms_long. exact Len.
Qed.

Lemma format_duration_ms_hundred_hours_witness :
  is_hms (format_duration_ms (Some 360000000)) = false.
Proof.
  destruct (format_duration_ms_hundred_hours 360000000 ltac:(lia))
    as (h & m & s & u & _ & _ & _ & _ & _ & _ & _ & R).
  exact R.
Defined.

(** ** [main]: what one directory adds *)

Lemma append_rows_spec (file_rows : list Row) (st : locals) :
  let st' := append_rows file_rows st in
  map fields (rows_to_write st') = map fields (rows_to_write st) ++ file_rows
  /\ map id_prueba (rows_to_write st')
     = map id_prueba (rows_to_write st)
       ++ map (fun k => id_counter st + Z.of_nat k)
              (seq 0 (List.length file_rows))
  /\ id_counter st' = id_counter st + Z.of_nat (List.length file_rows)
  /\ f st' = f st /\ calls st' = calls st.
Proof.
  revert st. induction file_rows as [|r rest IH]; intros st;
    cbn [append_rows List.length seq map].
  - rewrite !app_nil_r. repeat split. lia.
  - destruct (IH (mkLocals (f st) (id_counter st + 1)
                           (rows_to_write st ++ [mkOutRow (id_counter st) r])
                           (calls st))) as (F & I & C & Ff & Cc).
    cbv zeta. rewrite F, I, C, Ff, Cc.
    cbn [rows_to_write id_counter f calls].
    rewrite !map_app, <- !app_assoc. cbn [map app fields id_prueba].
    repeat split.
    + f_equal. f_equal; [f_equal; lia|].
      rewrite <- seq_shift, map_map. apply map_ext. intros k. lia.
    + lia.
Qed.

Lemma process_text_nonempty (fromisoformat : str -> exc Datetime.datetime)
      (text : str) (esc : Z) (mode : str) (rows : list Row) :
  process_text fromisoformat text esc mode = Ok rows -> rows <> [].
Proof.
  rewrite process_text_rows. intros E. inversion E.
  destruct (event_rows _ _ _ _ _); discriminate.
Qed.

(** The [try] block: the rows it hands to the loop that numbers them. *)
Lemma try_process_spec (fromisoformat : str -> exc Datetime.datetime)
      (root : list (str * node)) (st : locals) (i : Z) :
  let '(st', file_rows) := try_process fromisoformat root st i in
  f st' = f st /\ id_counter st' = id_counter st
  /\ rows_to_write st' = rows_to_write st
  /\ calls st' = calls st ++ match f st with
                             | Some p => [(p, i)]
                             | None => []
                             end
  /\ file_rows <> []
  /\ match f st with
     | None => exists e, file_rows = [parse_error_row i e]
     | Some p =>
         match read_text root p with
         | Ok text =>
             process_text fromisoformat text i (lit "MOBILE") = Ok file_rows
         | Raise e => file_rows = [parse_error_row i e]
         end
     end.
Proof.
  unfold try_process. destruct (f st) as [p|] eqn:F.
  - unfold process_file. destruct (read_text root p) as [text|e]; cbn [bind].
    + destruct (process_text fromisoformat text i (lit "MOBILE"))
        as [rows|e] eqn:P.
      * cbn [f id_counter rows_to_write calls]. repeat split; auto.
        apply (process_text_nonempty _ _ _ _ _ P).
      * rewrite process_text_rows in P. discriminate P.
    + cbn [f id_counter rows_to_write calls]. repeat split; auto.
      discriminate.
  - rewrite app_nil_r. repeat split; auto; [discriminate|].
    eexists; reflexivity.
Qed.

(** X15. An existing candidate directory adds the rows of exactly one
    attempt, numbered from the running counter: the attempt is on the
    last entry of the directory in sorted order, or, when the
    directory is empty, on the entry that an earlier directory left in
    [f]. The rows are those of [process_file] when that entry is a
    readable file, and one [parse_error] row when it is not or when
    [f] was never bound. *)
Theorem visit_dir_appends (fromisoformat : str -> exc Datetime.datetime)
        (root : list (str * node)) (i : Z) (st : locals) (dirp : path)
        (entries : list (str * node)) :
  is_dir root dirp = Some entries ->
  let target := match sorted_iterdir dirp entries with
                | [] => f st
                | (_ :: _) as l => Some (last l [])
                end in
  let st' := visit_dir fromisoformat root i st dirp in
  exists file_rows,
    file_rows <> []
    /\ map fields (rows_to_write st')
       = map fields (rows_to_write st) ++ file_rows
    /\ map id_prueba (rows_to_write st')
       = map id_prueba (rows_to_write st)
         ++ map (fun k => id_counter st + Z.of_nat k)
                (seq 0 (List.length file_rows))
    /\ id_counter st' = id_counter st + Z.of_nat (List.length file_rows)
    /\ f st' = target
    /\ match target with
       | None => exists e, file_rows = [parse_error_row i e]
       | Some p =>
           match read_text root p with
           | Ok text =>
               process_text fromisoformat text i (lit "MOBILE")
               = Ok file_rows
           | Raise e => file_rows = [parse_error_row i e]
           end
       end.
Proof.
  intros D target. unfold visit_dir. rewrite D.
  destruct (scan_entries root (sorted_iterdir dirp entries) st)
    as (C & R & I & F).
  set (st1 := fold_left _ _ st) in *.
  assert (Ft : f st1 = target).
  { rewrite F. unfold target.
    destruct (sorted_iterdir dirp entries); reflexivity. }
  clear F. clearbody target.
  pose proof (try_process_spec fromisoformat root st1 i) as T.
  destruct (try_process fromisoformat root st1 i) as [st2 file_rows].
  destruct T as (F2 & I2 & R2 & _ & Ne & Rows).
  destruct (append_rows_spec file_rows st2) as (A1 & A2 & A3 & A4 & _).
  exists file_rows. rewrite A1, A2, A3, A4, R2, I2, F2, R, I, Ft.
  rewrite Ft in Rows. repeat split; auto.
Qed.

Lemma visit_dir_appends_witness :
  exists file_rows,
    file_rows <> []
    /\ map fields
         (rows_to_write
            (visit_dir Datetime.fromisoformat notes_root 1
                       (mkLocals None 1 [] []) [lit "escenario 1"]))
       = file_rows.
Proof.
  destruct (visit_dir_appends Datetime.fromisoformat notes_root 1
              (mkLocals None 1 [] []) [lit "escenario 1"]
              [(lit "notes.txt", File notes_text)])
    as (file_rows & Ne & R & _).
  - vm_compute. reflexivity.
  - exists file_rows. split; [exact Ne | exact R].
Defined.

(** ** [main]: the counter and the number of calls *)

Lemma fold_left_invariant {S X : Type} (P : S -> Prop) (g : S -> X -> S)
      (l : list X) (st : S) :
  (forall s x, In x l -> P s -> P (g s x)) -> P st -> P (fold_left g l st).
Proof.
  revert st. induction l as [|x l IH]; intros st Hg H; cbn [fold_left];
    [exact H|].
  apply IH.
  - intros s y Hy. apply Hg. right; exact Hy.
  - apply Hg; [left; reflexivity | exact H].
Qed.

Lemma seq_from (s k : nat) :
  map Z.of_nat (seq s k)
  = map (fun j => Z.of_nat s + Z.of_nat j) (seq 0 k).
Proof.
  revert s. induction k as [|k IH]; intros s; cbn [seq map]; [reflexivity|].
  f_equal; [lia|].
  rewrite IH, <- seq_shift, map_map. apply map_ext. intros j. lia.
Qed.

(** What the loops keep true of the locals: the identifiers handed out
    so far are [1..N], the counter is [N + 1], and no call of
    [process_file] went without a row. *)
Lemma visit_dir_invariant (fromisoformat : str -> exc Datetime.datetime)
      (root : list (str * node)) (i : Z) (st : locals) (dirp : path)
      (n : nat) :
  (map id_prueba (rows_to_write st)
   = map Z.of_nat (seq 1 (List.length (rows_to_write st)))
   /\ id_counter st = Z.of_nat (List.length (rows_to_write st)) + 1
   /\ (List.length (calls st) <= n)%nat
   /\ (List.length (calls st) <= List.length (rows_to_write st))%nat) ->
  let st' := visit_dir fromisoformat root i st dirp in
  map id_prueba (rows_to_write st')
  = map Z.of_nat (seq 1 (List.length (rows_to_write st')))
  /\ id_counter st' = Z.of_nat (List.length (rows_to_write st')) + 1
  /\ (List.length (calls st') <= S n)%nat
  /\ (List.length (calls st') <= List.length (rows_to_write st'))%nat.
Proof.
  intros (Ids & Cnt & Cn & Cr). cbv zeta. unfold visit_dir.
  destruct (is_dir root dirp) as [entries|] eqn:D; [|repeat split; auto].
  destruct (scan_entries root (sorted_iterdir dirp entries) st)
    as (C & R & I & _).
  set (st1 := fold_left _ _ st) in *.
  pose proof (try_process_spec fromisoformat root st1 i) as T.
  destruct (try_process fromisoformat root st1 i) as [st2 file_rows].
  destruct T as (_ & I2 & R2 & C2 & Ne & _).
  destruct (append_rows_spec file_rows st2) as (A1 & A2 & A3 & _ & A5).
  assert (L : List.length (rows_to_write (append_rows file_rows st2))
              = (List.length (rows_to_write st) + List.length file_rows)%nat).
  { rewrite <- (length_map fields), A1, length_app, length_map, R2, R.
    reflexivity. }
  assert (Lf : (1 <= List.length file_rows)%nat).
  { destruct file_rows; [congruence | cbn; lia]. }
  assert (Lc : (List.length (calls st2) <= S (List.length (calls st)))%nat).
  { rewrite C2, length_app, C. destruct (f st1); cbn; lia. }
  rewrite A2, A3, A5, L, R2, I2, R, I, Ids, Cnt.
  split; [|split; [lia | split; lia]].
  rewrite seq_app, map_app. f_equal.
  rewrite (seq_from (1 + _)). apply map_ext. intros j. lia.
Qed.

Lemma main_loop_invariant (fromisoformat : str -> exc Datetime.datetime)
      (root : list (str * node)) :
  let st := main_loop fromisoformat root in
  map id_prueba (rows_to_write st)
  = map Z.of_nat (seq 1 (List.length (rows_to_write st)))
  /\ id_counter st = Z.of_nat (List.length (rows_to_write st)) + 1
  /\ (List.length (calls st) <= 8)%nat
  /\ (List.length (calls st) <= List.length (rows_to_write st))%nat.
Proof.
  unfold main_loop. cbn [fold_left]. unfold visit_scenario, candidate_dirs.
  cbn [fold_left].
  do 8 apply visit_dir_invariant.
  cbn. repeat split; lia.
Qed.

(** X16. Before the sort the accumulated rows carry the identifiers
    [1..N] in the order of their accumulation, and the counter stands
    at [N + 1]. *)
Theorem main_loop_ids (fromisoformat : str -> exc Datetime.datetime)
        (root : list (str * node)) :
  let st := main_loop fromisoformat root in
  map id_prueba (rows_to_write st)
  = map Z.of_nat (seq 1 (List.length (rows_to_write st)))
  /\ id_counter st = Z.of_nat (List.length (rows_to_write st)) + 1.
Proof.
  destruct (main_loop_invariant fromisoformat root) as (A & B & _).
  split; assumption.
Qed.

(** X17. [main] calls [process_file] at most eight times, once at most
    for each of the eight candidate directories, however many log
    files these hold; and every call leaves at least one row. *)
Theorem main_at_most_eight_calls
        (fromisoformat : str -> exc Datetime.datetime)
        (root : list (str * node)) :
  let st := main_loop fromisoformat root in
  (List.length (calls st) <= 8)%nat
  /\ (List.length (calls st) <= List.length (rows_to_write st))%nat.
Proof.
  destruct (main_loop_invariant fromisoformat root) as (_ & _ & A & B).
  split; assumption.
Qed.

(** X18. Without any candidate directory [main] calls nothing and
    writes a frame without rows. *)
Theorem main_without_directories
        (fromisoformat : str -> exc Datetime.datetime)
        (to_datetime : list str -> exc (list (option Z)))
        (root : list (str * node)) :
  (forall i dirp, In i [1; 2; 3; 4] -> In dirp (candidate_dirs i) ->
                  is_dir root dirp = None) ->
  calls (main_loop fromisoformat root) = []
  /\ main fromisoformat to_datetime root = Ok [].
Proof.
  intros H.
  assert (E : main_loop fromisoformat root = mkLocals None 1 [] []).
  { unfold main_loop. 
    apply (fold_left_invariant (fun st => st = mkLocals None 1 [] []));
      [|reflexivity].
    intros s i Hi ->. unfold visit_scenario.
    apply (fold_left_invariant (fun st => st = mkLocals None 1 [] []));
      [|reflexivity].
    intros s dirp Hd ->. unfold visit_dir. now rewrite (H i dirp Hi Hd). }
  unfold main. rewrite E. split; reflexivity.
Qed.

Lemma main_without_directories_witness :
  calls (main_loop Datetime.fromisoformat []) = []
  /\ main Datetime.fromisoformat Pd.to_datetime [] = Ok [].
Proof.
  apply (main_without_directories Datetime.fromisoformat Pd.to_datetime []).
  intros i dirp Hi Hd.
  destruct Hi as [<- | [<- | [<- | [<- | []]]]];
    destruct Hd as [<- | [<- | []]]; reflexivity.
Defined.

(** ** [process_file]: the rows of the named events *)

Lemma event_rows_filter (events : list Event) (truth : option str)
      (ilum : str) (esc : Z) (mode : str) :
  event_rows events truth ilum esc mode
  = map (fun ev => row_of_event ev (Py.or_empty (event ev)) truth ilum esc mode)
        (filter (fun ev => Py.truthy_opt (event ev)) events).
Proof.
  induction events as [|ev rest IH]; cbn [event_rows filter map];
    [reflexivity|].
  destruct (event ev) as [evt|] eqn:E; cbn [Py.truthy_opt].
  - destruct (Py.truthy evt); cbn [negb map]; rewrite IH; [|reflexivity].
    rewrite E. reflexivity.
  - exact IH.
Qed.

Lemma file_event_durations (fromisoformat : str -> exc Datetime.datetime)
      (text : str) (ev : Event) :
  In ev (file_events fromisoformat text) ->
  Py.or_empty (get_duration_hms ev) = format_duration_ms (get_duration_ms ev).
Proof.
  intros Hin. unfold file_events in Hin.
  destruct (forall2_in_right _ _ _ _
              (compute_inference_duration_pointwise _) Hin)
    as (ev0 & _ & _ & _ & _ & _ & _ & ms & M & H).
  unfold get_duration_hms, get_duration_ms. rewrite M, H.
  destruct ms; reflexivity.
Qed.

(** X19. When a file has events with a name, [process_file] returns
    one row for each of them, in the order of the log: the row shows
    the name of the event, its timestamp in ISO format (empty without
    one) and, as [t_total_ms], the formatting of the duration that
    [compute_inference_duration] gave the event (empty for null). *)
Theorem process_file_event_rows
        (fromisoformat : str -> exc Datetime.datetime)
        (text : str) (esc : Z) (mode : str) :
  let named := filter (fun ev => Py.truthy_opt (event ev))
                      (file_events fromisoformat text) in
  named <> [] ->
  exists rows,
    process_text fromisoformat text esc mode = Ok rows
    /\ map tipo_de_evento rows = map (fun ev => Py.or_empty (event ev)) named
    /\ map timestamp rows = map (fun ev => isoformat_or_empty (ts ev)) named
    /\ map t_total_ms rows
       = map (fun ev => format_duration_ms (get_duration_ms ev)) named.
Proof.
  intros named Hne. rewrite process_text_rows, event_rows_filter.
  fold named.
  assert (Hin : forall ev, In ev named ->
                           In ev (file_events fromisoformat text)).
  { intros ev H. apply filter_In in H. apply H. }
  exists (map (fun ev => row_of_event ev (Py.or_empty (event ev))
                                      (file_truth text) (lit "LED") esc mode)
              named).
  split.
  - clear Hin. destruct named; [congruence | reflexivity].
  - rewrite !map_map. cbn [row_of_event tipo_de_evento timestamp t_total_ms].
    split; [|split; [reflexivity|]].
    + apply map_ext_in. intros ev H.
      destruct (event ev) as [evt|] eqn:E; [|reflexivity].
      cbn [Py.or_empty].
      apply (file_event_trimmed fromisoformat text ev evt (Hin ev H) E).
    + apply map_ext_in. intros ev H.
      apply (file_event_durations fromisoformat text ev (Hin ev H)).
Qed.

Lemma process_file_event_rows_witness :
  exists rows,
    process_text Datetime.fromisoformat cup_text 1 (lit "MOBILE") = Ok rows
    /\ map tipo_de_evento rows = [lit "result"]
    /\ map t_total_ms rows = [[]].
Proof.
  destruct (process_file_event_rows Datetime.fromisoformat cup_text 1
              (lit "MOBILE")) as (rows & E & T & _ & D).
  - vm_compute. discriminate.
  - exists rows. split; [exact E|]. split.
    + rewrite T. vm_compute. reflexivity.
    + rewrite D. vm_compute. reflexivity.
Defined.

(** ** The predicted label *)

Lemma literal_ci_startswith (subject w s : str) (caps : Re.captures)
      (k : str -> Re.captures -> option Re.matched) :
  Py.startswith (Py.lower w) (Py.lower s) = true ->
  Re.run subject (Re.literal_ci w) s caps k = k (skipn (List.length w) s) caps.
Proof.
  revert s. induction w as [|c w IH]; intros s;
    cbn [Re.literal_ci Re.run Py.lower map Py.startswith List.length skipn].
  - reflexivity.
  - destruct s as [|x s]; cbn [map]; [discriminate|].
    intros H. apply andb_true_iff in H. destruct H as [Hc Hs].
    unfold Re.is_char_ci.
    replace (Py.char_eqb (Py.lower_char x) (Py.lower_char c)) with true.
    + apply IH. exact Hs.
    + symmetry. apply Ascii.eqb_eq. apply Ascii.eqb_eq in Hc. congruence.
Qed.

Lemma search_from_leftmost (subject : str) (r : Re.regex) (start : nat)
      (s : str) (n : nat) (m : Re.matched) :
  Re.search_from subject r start s = Some (n, m) ->
  forall pre post,
    s = pre ++ post -> (start + List.length pre < n)%nat ->
    Re.run subject r post [] Re.accept = None.
Proof.
  revert start. induction s as [|c s IH]; intros start;
    cbn [Re.search_from].
  - destruct (Re.run subject r [] [] Re.accept); [|discriminate].
    intros H; inversion H; subst. intros pre post _ L. lia.
  - destruct (Re.run subject r (c :: s) [] Re.accept) eqn:E.
    + intros H; inversion H; subst. intros pre post _ L. lia.
    + intros H [|x pre] post Hs L; cbn [app] in Hs.
      * subst post. exact E.
      * inversion Hs; subst.
        apply (IH _ H pre post eq_refl). cbn [List.length] in L. lia.
Qed.

Lemma search_from_none (subject : str) (r : Re.regex) (start : nat) (s : str) :
  Re.search_from subject r start s = None ->
  forall pre post, s = pre ++ post ->
                   Re.run subject r post [] Re.accept = None.
Proof.
  revert start. induction s as [|c s IH]; intros start;
    cbn [Re.search_from].
  - destruct (Re.run subject r [] [] Re.accept) eqn:E; [discriminate|].
    intros _ pre post Hs. symmetry in Hs. apply app_eq_nil in Hs.
    destruct Hs as [_ ->]. exact E.
  - destruct (Re.run subject r (c :: s) [] Re.accept) eqn:E; [discriminate|].
    intros H [|x pre] post Hs; cbn [app] in Hs.
    + subst post. exact E.
    + inversion Hs; subst. apply (IH _ H pre post eq_refl).
Qed.

Lemma contains_split (sub s : str) :
  Py.contains sub s = true ->
  exists pre post, s = pre ++ post /\ Py.startswith sub post = true.
Proof.
  induction s as [|c s IH]; cbn [Py.contains]; intros H.
  - rewrite orb_false_r in H. exists [], []. auto.
  - apply orb_true_iff in H. destruct H as [H | H].
    + exists [], (c :: s). auto.
    + destruct (IH H) as (pre & post & -> & S).
      exists (c :: pre), post. auto.
Qed.

Lemma startswith_app (sub s t : str) :
  Py.startswith sub s = true -> Py.startswith sub (s ++ t) = true.
Proof.
  revert s. induction sub as [|p sub IH]; intros s; cbn [Py.startswith];
    [reflexivity|].
  destruct s as [|c s]; [discriminate|]. cbn [app].
  intros H. apply andb_true_iff in H. destruct H as [-> H].
  now rewrite (IH s H).
Qed.

Lemma contains_substring (sub a y b : str) :
  Py.contains sub y = true -> Py.contains sub (a ++ y ++ b) = true.
Proof.
  intros H. induction a as [|c a IH]; cbn [app].
  - clear -H. induction y as [|c y IH]; cbn [Py.contains app] in *.
    + rewrite orb_false_r in H. destruct sub; [|discriminate].
      destruct b; reflexivity.
    + apply orb_true_iff in H. destruct H as [H | H].
      * pose proof (startswith_app sub (c :: y) b H) as S.
        cbn [app] in S. rewrite S. reflexivity.
      * rewrite (IH H). apply orb_true_r.
  - cbn [Py.contains]. rewrite IH. apply orb_true_r.
Qed.

(** A trimmed string is a piece of the string. *)
Lemma strip_substring (x : str) :
  exists l r, x = l ++ Py.strip x ++ r.
Proof.
  unfold Py.strip, Py.rstrip_by, Py.lstrip_by.
  exists (takewhile Py.isspace x),
         (rev (takewhile Py.isspace (rev (Py.dropwhile Py.isspace x)))).
  rewrite <- rev_app_distr, takewhile_dropwhile, rev_involutive.
  symmetry. apply takewhile_dropwhile.
Qed.

Lemma contains_lower_strip (sub x : str) :
  Py.contains sub (Py.lower (Py.strip x)) = true ->
  Py.contains sub (Py.lower x) = true.
Proof.
  intros H. destruct (strip_substring x) as (l & r & E).
  rewrite E at 1. unfold Py.lower. rewrite !map_app.
  apply contains_substring. exact H.
Qed.

Lemma extract_label_without_phrase (details : str) :
  Py.contains (lit "with confidence") (Py.lower (extract_label details))
  = false.
Proof.
  destruct (Py.contains _ (Py.lower (extract_label details))) eqn:C;
    [exfalso | reflexivity].
  unfold extract_label in C. apply contains_lower_strip in C.
  destruct (Py.contains (lit "with confidence") (Py.lower details)) eqn:D;
    [|congruence].
  apply contains_lower_strip in C.
  unfold Re.split_head, Re.re_search in C.
  destruct (Re.search_from details WITH_CONFIDENCE_RE 0 details)
    as [[n m]|] eqn:S.
  - apply contains_split in C. destruct C as (pre & post & E & W).
    unfold Py.lower in E. apply map_eq_app in E.
    destruct E as (p1 & p2 & E & <- & <-).
    pose proof (firstn_skipn n details) as FS. rewrite E in FS.
    assert (Hp2 : p2 <> []) by (intros ->; discriminate W).
    assert (L : (0 + List.length p1 < n)%nat).
    { assert (List.length (p1 ++ p2) <= n)%nat
        by (rewrite <- E; apply firstn_le_length).
      rewrite length_app in H. destruct p2; [congruence | cbn in H; lia]. }
    pose proof (search_from_leftmost _ _ _ _ _ _ S p1 (p2 ++ skipn n details)
                  ltac:(now rewrite app_assoc) L) as N.
    unfold WITH_CONFIDENCE_RE in N.
    rewrite literal_ci_startswith in N; [discriminate N|].
    unfold Py.lower at 2. rewrite map_app. apply startswith_app. exact W.
  - apply contains_split in D. destruct D as (pre & post & E & W).
    unfold Py.lower in E. apply map_eq_app in E.
    destruct E as (p1 & p2 & E & <- & <-).
    pose proof (search_from_none _ _ _ _ S p1 p2 E) as N.
    unfold WITH_CONFIDENCE_RE in N.
    rewrite literal_ci_startswith in N; [discriminate N | exact W].
Qed.

(** ** The rows of a file, event by event *)

Lemma forall2_map {X Y : Type} (P : X -> Y -> Prop) (g : X -> Y)
      (l : list X) :
  (forall x, In x l -> P x (g x)) -> Forall2 P l (map g l).
Proof.
  induction l as [|x l IH]; intros H; cbn [map]; constructor.
  - apply H. left; reflexivity.
  - apply IH. intros y Hy. apply H. right; exact Hy.
Qed.

Lemma forall2_singleton {X Y : Type} (P : X -> Y -> Prop) (l : list X)
      (y : Y) :
  Forall2 P l [y] -> exists x, l = [x] /\ P x y.
Proof.
  intros H. inversion H as [|x y0 l0 l1 Hp Hr]; subst.
  inversion Hr; subst. exists x. auto.
Qed.

(** [process_file] by the events that have a name: their rows in the
    order of the log, or the summary row when there is none. *)
Lemma process_text_by_event (fromisoformat : str -> exc Datetime.datetime)
      (text : str) (esc : Z) (mode : str) :
  process_text fromisoformat text esc mode
  = Ok (match named_events fromisoformat text with
        | [] => [no_result_row (file_events fromisoformat text)
                               (file_truth text) (lit "LED") esc mode]
        | named =>
            map (fun ev => row_of_event ev (Py.or_empty (event ev))
                                        (file_truth text) (lit "LED") esc mode)
                named
        end).
Proof.
  rewrite process_text_rows, event_rows_filter.
  fold (named_events fromisoformat text).
  destruct (named_events fromisoformat text); reflexivity.
Qed.

(** The confidence of the row of an event, from the details of that
    event. *)
Lemma confianza_of_details (ev : Event) (evt : str) (truth : option str)
      (ilum : str) (esc : Z) (mode : str) :
  match Re.re_search CONF_RE (details ev) with
  | None => confianza (row_of_event ev evt truth ilum esc mode) = []
  | Some (_, cm) =>
      exists s x,
        Re.group "conf" (Re.m_groups cm) = Some s
        /\ B64.of_decimal s = Some x
        /\ confianza (row_of_event ev evt truth ilum esc mode)
           = B64.format_3f x
        /\ (B64.format_3f x = lit "inf"
            \/ exists k, 0 <= k /\ B64.format_3f x = three_decimals k)
  end.
Proof.
  cbn [row_of_event confianza]. unfold extract_conf.
  destruct (Re.re_search CONF_RE (details ev)) as [[n cm]|] eqn:S;
    [|reflexivity].
  apply search_from_inv in S. destruct S as (before & at_ & _ & _ & R).
  destruct (conf_re_inv _ _ _ R) as (a & d & b & G & Ha & Hd & Hb & Nb).
  destruct (of_decimal_conf a d b Ha Hd Hb Nb) as (x & X).
  rewrite G, X. exists (a ++ d ++ b), x.
  split; [reflexivity|]. split; [exact X|]. split; [reflexivity|].
  destruct (of_decimal_nonneg _ x X) as [-> | (m & e & -> & Hm)].
  - left. reflexivity.
  - right. apply format_3f_nonneg. exact Hm.
Qed.

(** C8, as the code has it. [process_file] returns one row for each
    event with a name, in the order of the log, or one summary row
    without a confidence when no event has a name. The confidence of
    the row of an event is empty when [CONF_RE] finds no match in the
    details of that same event; otherwise it is the float of the text
    that the group [conf] captured in these details, printed with
    exactly three decimals: a non-negative number with no upper
    bound, or [inf] when the digits exceed the range of a float. *)
Theorem confianza_field (fromisoformat : str -> exc Datetime.datetime)
        (text : str) (esc : Z) (mode : str) :
  exists rows,
    process_text fromisoformat text esc mode = Ok rows
    /\ ((named_events fromisoformat text = []
         /\ exists r, rows = [r] /\ confianza r = [])
        \/ (named_events fromisoformat text <> []
            /\ Forall2
                 (fun ev r =>
                    r = row_of_event ev (Py.or_empty (event ev))
                                     (file_truth text) (lit "LED") esc mode
                    /\ match Re.re_search CONF_RE (details ev) with
                       | None => confianza r = []
                       | Some (_, cm) =>
                           exists s x,
                             Re.group "conf" (Re.m_groups cm) = Some s
                             /\ B64.of_decimal s = Some x
                             /\ confianza r = B64.format_3f x
                             /\ (B64.format_3f x = lit "inf"
                                 \/ exists k,
                                      0 <= k
                                      /\ B64.format_3f x = three_decimals k)
                       end)
                 (named_events fromisoformat text) rows)).
Proof.
  eexists. split; [apply process_text_by_event|].
  destruct (named_events fromisoformat text) as [|ev0 named] eqn:N.
  - left. split; [reflexivity|]. eexists. split; reflexivity.
  - right. split; [discriminate|].
    apply forall2_map. intros ev _. split; [reflexivity|].
    apply confianza_of_details.
Qed.

Lemma confianza_field_witness :
  exists r1 r2,
    process_text Datetime.fromisoformat cat_dog_text 1 (lit "MOBILE")
    = Ok [r1; r2]
    /\ objeto_predicho r1 = lit "cat" /\ confianza r1 = lit "0.100"
    /\ objeto_predicho r2 = lit "dog" /\ confianza r2 = lit "0.900".
Proof.
  destruct (confianza_field Datetime.fromisoformat cat_dog_text 1
              (lit "MOBILE")) as (rows & E & [(N & _) | (_ & F)]).
  - exfalso. vm_compute in N. discriminate N.
  - assert (R : exists r1 r2,
               rows = [r1; r2]
               /\ objeto_predicho r1 = lit "cat"
               /\ objeto_predicho r2 = lit "dog").
    { vm_compute in E. inversion E. eexists _, _.
      split; [reflexivity|]. split; reflexivity. }
    destruct R as (r1 & r2 & -> & P1 & P2).
    assert (N : exists e1 e2,
               named_events Datetime.fromisoformat cat_dog_text = [e1; e2]
               /\ details e1 = lit "cat with confidence 0.100"
               /\ details e2 = lit "dog WITH Confidence 0.900").
    { eexists _, _. split; [vm_compute; reflexivity|].
      split; reflexivity. }
    destruct N as (e1 & e2 & N & D1 & D2). rewrite N in F.
    inversion F as [|x1 y1 l1 l1' (_ & C1) F1]; subst.
    inversion F1 as [|x2 y2 l2 l2' (_ & C2) _]; subst.
    clear F F1 N. rewrite D1 in C1. rewrite D2 in C2.
    destruct (Re.re_search CONF_RE (lit "cat with confidence 0.100"))
      as [[n1 cm1]|] eqn:S1; [|vm_compute in S1; discriminate S1].
    destruct (Re.re_search CONF_RE (lit "dog WITH Confidence 0.900"))
      as [[n2 cm2]|] eqn:S2; [|vm_compute in S2; discriminate S2].
    vm_compute in S1. inversion S1; subst n1 cm1. clear S1.
    vm_compute in S2. inversion S2; subst n2 cm2. clear S2.
    destruct C1 as (s1 & x1 & G1 & V1 & K1 & _).
    destruct C2 as (s2 & x2 & G2 & V2 & K2 & _).
    vm_compute in G1. inversion G1; subst s1. clear G1.
    vm_compute in G2. inversion G2; subst s2. clear G2.
    vm_compute in V1. inversion V1; subst x1. clear V1.
    vm_compute in V2. inversion V2; subst x2. clear V2.
    exists r1, r2. split; [exact E|].
    split; [exact P1|]. split; [rewrite K1; vm_compute; reflexivity|].
    split; [exact P2|]. rewrite K2. vm_compute. reflexivity.
Defined.

Lemma firstn_length_app {X : Type} (a b : list X) :
  firstn (List.length a) (a ++ b) = a.
Proof. induction a as [|x a IH]; cbn; [reflexivity | now rewrite IH]. Qed.

(** The label of an event is the trimmed text before the first
    [with confidence] of its details. *)
Lemma extract_label_before_phrase (details : str) :
  before_first_phrase details (extract_label details).
Proof.
  unfold before_first_phrase, extract_label.
  destruct (Py.contains (lit "with confidence") (Py.lower details)) eqn:D;
    [right | left; split; reflexivity].
  rewrite strip_idem. unfold Re.split_head, Re.re_search.
  destruct (Re.search_from details WITH_CONFIDENCE_RE 0 details)
    as [[n m]|] eqn:S.
  - pose proof (search_from_leftmost _ _ _ _ _ _ S) as Left.
    apply search_from_inv in S.
    destruct S as (before & at_ & E & -> & R).
    unfold WITH_CONFIDENCE_RE in R. apply literal_ci_inv in R.
    destruct R as (w & rest & -> & Lw & _).
    exists before, w, rest. split; [exact E|]. split; [exact Lw|]. split.
    + intros pre post Hs Hl.
      specialize (Left pre post Hs ltac:(cbn; lia)).
      destruct (Py.startswith (lit "with confidence") (Py.lower post)) eqn:W;
        [|reflexivity].
      unfold WITH_CONFIDENCE_RE in Left.
      rewrite literal_ci_startswith in Left; [discriminate Left | exact W].
    + cbn [Nat.add]. rewrite E at 1. now rewrite firstn_length_app.
  - exfalso. apply contains_split in D. destruct D as (pre & post & E & W).
    unfold Py.lower in E. apply map_eq_app in E.
    destruct E as (p1 & p2 & E & <- & <-).
    pose proof (search_from_none _ _ _ _ S p1 p2 E) as N.
    unfold WITH_CONFIDENCE_RE in N.
    rewrite literal_ci_startswith in N; [discriminate N | exact W].
Qed.

(** X20. The predicted label of a row never holds the words
    [with confidence], in any letter case. The row of an event takes
    its label from the details of that same event: the trimmed
    details when they do not hold these words, else the trimmed text
    before their first occurrence. The summary row of a file without
    a named event has an empty label. *)
Theorem objeto_predicho_without_phrase
        (fromisoformat : str -> exc Datetime.datetime)
        (text : str) (esc : Z) (mode : str) :
  exists rows,
    process_text fromisoformat text esc mode = Ok rows
    /\ Forall (fun r =>
                 Py.contains (lit "with confidence")
                             (Py.lower (objeto_predicho r)) = false) rows
    /\ ((named_events fromisoformat text = []
         /\ exists r, rows = [r] /\ objeto_predicho r = [])
        \/ (named_events fromisoformat text <> []
            /\ Forall2
                 (fun ev r =>
                    r = row_of_event ev (Py.or_empty (event ev))
                                     (file_truth text) (lit "LED") esc mode
                    /\ before_first_phrase (details ev) (objeto_predicho r))
                 (named_events fromisoformat text) rows)).
Proof.
  eexists. split; [apply process_text_by_event|].
  destruct (named_events fromisoformat text) as [|ev0 named] eqn:N.
  - split; [repeat constructor|].
    left. split; [reflexivity|]. eexists. split; reflexivity.
  - split.
    + apply Forall_forall. intros r Hr. apply in_map_iff in Hr.
      destruct Hr as (ev & <- & _).
      cbn [row_of_event objeto_predicho]. apply extract_label_without_phrase.
    + right. split; [discriminate|].
      apply forall2_map. intros ev _. split; [reflexivity|].
      cbn [row_of_event objeto_predicho]. apply extract_label_before_phrase.
Qed.

Lemma objeto_predicho_without_phrase_witness :
  exists r1 r2,
    process_text Datetime.fromisoformat cat_dog_text 1 (lit "MOBILE")
    = Ok [r1; r2]
    /\ objeto_predicho r1 = lit "cat" /\ objeto_predicho r2 = lit "dog"
    /\ Py.contains (lit "with confidence") (Py.lower (objeto_predicho r2))
       = false
    /\ before_first_phrase (lit "dog WITH Confidence 0.900")
                           (objeto_predicho r2).
Proof.
  destruct (objeto_predicho_without_phrase Datetime.fromisoformat cat_dog_text
              1 (lit "MOBILE")) as (rows & E & A & [(N & _) | (_ & F)]).
  - exfalso. vm_compute in N. discriminate N.
  - assert (R : exists r1 r2,
               rows = [r1; r2]
               /\ objeto_predicho r1 = lit "cat"
               /\ objeto_predicho r2 = lit "dog").
    { vm_compute in E. inversion E. eexists _, _.
      split; [reflexivity|]. split; reflexivity. }
    destruct R as (r1 & r2 & -> & P1 & P2).
    assert (N : exists e1 e2,
               named_events Datetime.fromisoformat cat_dog_text = [e1; e2]
               /\ details e2 = lit "dog WITH Confidence 0.900").
    { eexists _, _. split; [vm_compute; reflexivity | reflexivity]. }
    destruct N as (e1 & e2 & N & D2). rewrite N in F.
    inversion F as [|x1 y1 l1 l1' _ F1]; subst.
    inversion F1 as [|x2 y2 l2 l2' (_ & B2) _]; subst.
    rewrite D2 in B2.
    inversion A as [|? ? _ A1]; subst. inversion A1 as [|? ? A2 _]; subst.
    exists r1, r2. repeat split; assumption.
Defined.
